(** * stream-voice: voice-controlled streaming front end

    A shallow embedding of the TypeScript sources and the properties
    checked on it:
    - [detectBrowserSupport] (utils/browserSupport.ts);
    - the class [SpeechRecognitionPolyfill], the class
      [SpeechRecognitionService] with [convertToWav] and
      [streamAudioToText], and [fetchMovies] and [mapMovieToContent]
      (services/speechRecognitionPolyfill.ts);
    - the hook [useVoiceControl] (hooks/useVoiceControl.ts);
    - the component [ContentCarousel] and, from the player component,
      [VOICE_COMMANDS] and [handleCommand]
      (components/ContentCarousel.tsx).

    JavaScript numbers are IEEE 754 binary64 values, modelled by the
    Standard Library's [spec_float] with precision 53 and maximal exponent
    1024.  JavaScript strings are modelled by [string] read as text whose
    code units are below 256 (Latin-1), on which [toLowerCase] and the
    regular-expression class [\s] are written out in full. *)

From Stdlib Require Import ZArith Lia Ascii String Floats.SpecFloat.
From stdpp Require Import base list.

Open Scope Z_scope.

(* ================================================================== *)
(** * JavaScript numbers *)
(* ================================================================== *)

Module JsNumber.

Definition number : Type := spec_float.

Definition prec : Z := 53.
Definition emax : Z := 1024.

(** The number denoted by an integer literal. *)
Definition of_Z (z : Z) : number := binary_normalize prec emax z 0 false.

Definition add (x y : number) : number := SFadd prec emax x y.
Definition sub (x y : number) : number := SFsub prec emax x y.
Definition mul (x y : number) : number := SFmul prec emax x y.

(** [x < y] and [x > y]; both are false as soon as one side is NaN. *)
Definition lt (x y : number) : bool := SFltb x y.
Definition gt (x y : number) : bool := SFltb y x.
Definition le (x y : number) : bool := SFleb x y.

Definition is_nan (x : number) : bool :=
  match x with S754_nan => true | _ => false end.

(** ToBoolean: [0], [-0] and [NaN] are falsy. *)
Definition truthy (x : number) : bool :=
  match x with
  | S754_zero _ | S754_nan => false
  | _ => true
  end.

(** [x || d] on numbers. *)
Definition or_default (x d : number) : number := if truthy x then x else d.

(** [Math.min(a, x)] for a finite non-zero constant [a]: NaN if [x] is
    NaN, otherwise [x] when [x < a] and [a] when not. *)
Definition Math_min (a x : number) : number :=
  if is_nan x then S754_nan else if lt x a then x else a.

(** [Math.max(a, x)] for a finite non-zero constant [a]. *)
Definition Math_max (a x : number) : number :=
  if is_nan x then S754_nan else if gt x a then x else a.

(** The integer part of a number (rounding toward zero); NaN and the
    infinities are sent to 0, as the typed-array conversions do. *)
Definition truncate (x : number) : Z :=
  match x with
  | S754_finite s m e =>
      let mag := Z.shiftl (Zpos m) e in
      if s then - mag else mag
  | _ => 0
  end.

(** ToInt16: truncate, reduce modulo 2^16, read as a signed value. *)
Definition ToInt16 (x : number) : Z :=
  let r := (truncate x) mod 65536 in
  if 32768 <=? r then r - 65536 else r.

(** ToUint32 and ToUint16 and ToUint8 of an integer value. *)
Definition wrap (bits : Z) (z : Z) : Z := z mod (2 ^ bits).

End JsNumber.

Import JsNumber.

(* ================================================================== *)
(** * JavaScript strings *)
(* ================================================================== *)

Module JsString.

Open Scope string_scope.

Definition code (c : ascii) : N := N_of_ascii c.

(** [String.prototype.toLowerCase] on one code unit below 256: the
    letters A-Z and the Latin-1 capitals U+00C0-U+00DE (without the
    multiplication sign U+00D7) move up by 32. *)
Definition lower_char (c : ascii) : ascii :=
  let n := code c in
  if ((65 <=? n) && (n <=? 90))%N then ascii_of_N (n + 32)
  else if ((192 <=? n) && (n <=? 222) && negb (n =? 215))%N
       then ascii_of_N (n + 32)
  else c.

Fixpoint toLowerCase (s : string) : string :=
  match s with
  | EmptyString => EmptyString
  | String c r => String (lower_char c) (toLowerCase r)
  end.

(** The class [\s] restricted to code units below 256: TAB, LF, VT, FF,
    CR, SPACE and NO-BREAK SPACE. *)
Definition is_space (c : ascii) : bool :=
  let n := code c in
  (((9 <=? n) && (n <=? 13)) || (n =? 32) || (n =? 160))%N.

(** [s.startsWith(p)]. *)
Fixpoint startsWith (s p : string) {struct p} : bool :=
  match p, s with
  | EmptyString, _ => true
  | String _ _, EmptyString => false
  | String a p', String b s' => if Ascii.eqb a b then startsWith s' p' else false
  end.

(** [s.includes(sub)]: [sub] occurs at some position of [s]. *)
Fixpoint includes (s sub : string) : bool :=
  if startsWith s sub then true
  else match s with
       | EmptyString => false
       | String _ r => includes r sub
       end.

(** [s.replace(/\s+/g, rep)]: every maximal run of white space becomes
    one copy of [rep].  [in_run] tells that the previous code unit was
    white space, so the current run has been replaced already. *)
Fixpoint replace_space_runs_from (in_run : bool) (rep s : string) : string :=
  match s with
  | EmptyString => EmptyString
  | String c r =>
      if is_space c
      then if in_run then replace_space_runs_from true rep r
           else rep ++ replace_space_runs_from true rep r
      else String c (replace_space_runs_from false rep r)
  end.

Definition replace_space_runs (rep s : string) : string :=
  replace_space_runs_from false rep s.

(** [s.split(sep)] for a separator of one code unit. *)
Fixpoint split_char (sep : ascii) (s : string) : list string :=
  match s with
  | EmptyString => [EmptyString]
  | String c r =>
      if Ascii.eqb c sep then EmptyString :: split_char sep r
      else match split_char sep r with
           | [] => [String c EmptyString]
           | w :: ws => String c w :: ws
           end
  end.

Fixpoint trimStart (s : string) : string :=
  match s with
  | EmptyString => EmptyString
  | String c r => if is_space c then trimStart r else s
  end.

(** Drops the white space at the end: a code unit is kept when it is
    not white space or when something is kept after it. *)
Fixpoint trimEnd (s : string) : string :=
  match s with
  | EmptyString => EmptyString
  | String c r =>
      match trimEnd r with
      | EmptyString => if is_space c then EmptyString else String c EmptyString
      | r' => String c r'
      end
  end.

Definition trim (s : string) : string := trimEnd (trimStart s).

(** No code unit of [s] is white space. *)
Fixpoint no_space (s : string) : bool :=
  match s with
  | EmptyString => true
  | String c r => negb (is_space c) && no_space r
  end.

(** Every code unit of [s] is white space. *)
Fixpoint all_space (s : string) : bool :=
  match s with
  | EmptyString => true
  | String c r => is_space c && all_space r
  end.

(** [s] begins with white space. *)
Definition starts_with_space (s : string) : bool :=
  match s with
  | EmptyString => false
  | String c _ => is_space c
  end.

(** ToBoolean on strings: only the empty string is falsy. *)
Definition nonempty (s : string) : bool :=
  match s with EmptyString => false | _ => true end.

End JsString.

Import JsString.

(* ================================================================== *)
(** * The mode detector: [detectBrowserSupport] *)
(* ================================================================== *)

(** What the code reads from [window], [navigator] and [location]. *)
Record Browser := {
  userAgent : string;
  window_SpeechRecognition : bool;
  window_webkitSpeechRecognition : bool;
  navigator_mediaDevices : bool;
  mediaDevices_getUserMedia : bool;
  MediaRecorder_in_window : bool;
  location_protocol : string;
  location_hostname : string
}.

Inductive RecommendedMode := native | server | polyfill.

Record BrowserSupportInfo := {
  hasNativeSpeechRecognition : bool;
  hasMediaRecorder : bool;
  canUsePolyfill : bool;
  browserName : string;
  recommendedMode : RecommendedMode;
  supportMessage : string
}.

Module BrowserSupport.

Open Scope string_scope.

Definition detectBrowserName (userAgent : string) : string :=
  if includes userAgent "chrome" && negb (includes userAgent "edg") then "Chrome"
  else if includes userAgent "firefox" then "Firefox"
  else if includes userAgent "safari" && negb (includes userAgent "chrome") then "Safari"
  else if includes userAgent "edg" then "Edge"
  else if includes userAgent "opera" || includes userAgent "opr" then "Opera"
  else "Unknown".

Definition detectBrowserSupport (w : Browser) : BrowserSupportInfo :=
  let userAgent := toLowerCase (userAgent w) in
  let browserName := detectBrowserName userAgent in
  let hasNativeSpeechRecognition :=
    window_SpeechRecognition w || window_webkitSpeechRecognition w in
  let hasMediaRecorder :=
    navigator_mediaDevices w && mediaDevices_getUserMedia w
    && MediaRecorder_in_window w in
  let canUsePolyfill :=
    String.eqb (location_protocol w) "https:"
    || String.eqb (location_hostname w) "localhost"
    || String.eqb (location_hostname w) "127.0.0.1" in
  let '(recommendedMode, supportMessage) :=
    if hasNativeSpeechRecognition then
      (native, browserName ++ " has excellent native speech recognition support.")
    else if hasMediaRecorder && canUsePolyfill then
      (server, browserName ++ " will use server-side speech recognition for best results.")
    else if canUsePolyfill then
      (polyfill, browserName ++ " will use a JavaScript polyfill for speech recognition.")
    else
      (polyfill, browserName ++ " has limited speech recognition support. Please use HTTPS or a supported browser.") in
  {| hasNativeSpeechRecognition := hasNativeSpeechRecognition;
     hasMediaRecorder := hasMediaRecorder;
     canUsePolyfill := canUsePolyfill;
     browserName := browserName;
     recommendedMode := recommendedMode;
     supportMessage := supportMessage |}.

Definition canUseSpeechRecognition (w : Browser) : bool :=
  let support := detectBrowserSupport w in
  hasNativeSpeechRecognition support || hasMediaRecorder support
  || canUsePolyfill support.

(** The priority policy of the mode detector, on the three flags. *)
Definition policy (hasNative hasRecorder secure : bool) : RecommendedMode :=
  if hasNative then native
  else if hasRecorder && secure then server
  else polyfill.

Definition degraded_message (name : string) : string :=
  name ++ " has limited speech recognition support. Please use HTTPS or a supported browser.".

(** A browser showing exactly the three given flags. *)
Definition browser_with (hasNative hasRecorder secure : bool) : Browser :=
  {| userAgent := "Mozilla/5.0 Firefox/115.0";
     window_SpeechRecognition := hasNative;
     window_webkitSpeechRecognition := false;
     navigator_mediaDevices := hasRecorder;
     mediaDevices_getUserMedia := hasRecorder;
     MediaRecorder_in_window := hasRecorder;
     location_protocol := if secure then "https:" else "http:";
     location_hostname := "example.org" |}.

End BrowserSupport.

(* ================================================================== *)
(** * The command dispatcher: [VOICE_COMMANDS] and [handleCommand] *)
(* ================================================================== *)

(** Operations invoked on the media element. *)
Inductive MediaOp :=
| MediaPlay
| MediaPause
| MediaSeek (position : number).

(** The part of [HTMLVideoElement] the commands touch, with the record of
    the operations invoked on it (latest last). *)
Record Video := {
  paused : bool;
  currentTime : number;
  mediaOps : list MediaOp
}.

(** The player: the [videoRef] (null until the element is mounted), the
    two pieces of React state the commands set, and two records kept for
    the statements below: the names of the commands whose [match] has
    been evaluated and of those whose [action] has been invoked (latest
    last). *)
Record Player := {
  videoRef : option Video;
  isPlaying : bool;
  showSubtitles : bool;
  matchEvaluated : list string;
  actionsInvoked : list string
}.

Module VideoPlayer.

Open Scope string_scope.

Definition video_play (v : Video) : Video :=
  {| paused := false; currentTime := currentTime v;
     mediaOps := mediaOps v ++ [MediaPlay] |}.

Definition video_pause (v : Video) : Video :=
  {| paused := true; currentTime := currentTime v;
     mediaOps := mediaOps v ++ [MediaPause] |}.

Definition video_set_currentTime (t : number) (v : Video) : Video :=
  {| paused := paused v; currentTime := t;
     mediaOps := mediaOps v ++ [MediaSeek t] |}.

Definition with_video (f : Video -> Video) (p : Player) : Player :=
  {| videoRef := f <$> videoRef p; isPlaying := isPlaying p;
     showSubtitles := showSubtitles p; matchEvaluated := matchEvaluated p;
     actionsInvoked := actionsInvoked p |}.

Definition setIsPlaying (b : bool) (p : Player) : Player :=
  {| videoRef := videoRef p; isPlaying := b;
     showSubtitles := showSubtitles p; matchEvaluated := matchEvaluated p;
     actionsInvoked := actionsInvoked p |}.

Definition setShowSubtitles (b : bool) (p : Player) : Player :=
  {| videoRef := videoRef p; isPlaying := isPlaying p;
     showSubtitles := b; matchEvaluated := matchEvaluated p;
     actionsInvoked := actionsInvoked p |}.

Definition note_matches (names : list string) (p : Player) : Player :=
  {| videoRef := videoRef p; isPlaying := isPlaying p;
     showSubtitles := showSubtitles p;
     matchEvaluated := matchEvaluated p ++ names;
     actionsInvoked := actionsInvoked p |}.

Definition note_match (name : string) (p : Player) : Player :=
  note_matches [name] p.

Definition note_action (name : string) (p : Player) : Player :=
  {| videoRef := videoRef p; isPlaying := isPlaying p;
     showSubtitles := showSubtitles p;
     matchEvaluated := matchEvaluated p;
     actionsInvoked := actionsInvoked p ++ [name] |}.

(** A voice command: its key in [VOICE_COMMANDS], its predicate and its
    action on the player. *)
Record VoiceCommand := {
  name : string;
  matches : string -> bool;
  action : Player -> Player
}.

Definition play : VoiceCommand :=
  {| name := "play";
     matches := fun cmd => includes cmd "play";
     action := fun p => setIsPlaying true (with_video video_play p) |}.

Definition pause : VoiceCommand :=
  {| name := "pause";
     matches := fun cmd => includes cmd "pause";
     action := fun p => setIsPlaying false (with_video video_pause p) |}.

Definition skipIntro : VoiceCommand :=
  {| name := "skipIntro";
     matches := fun cmd => includes cmd "skip intro";
     action := fun p =>
       with_video (fun v => video_set_currentTime (add (currentTime v) (of_Z 90)) v) p |}.

Definition subtitlesOn : VoiceCommand :=
  {| name := "subtitlesOn";
     matches := fun cmd => includes cmd "subtitles on";
     action := fun p => setShowSubtitles true p |}.

Definition subtitlesOff : VoiceCommand :=
  {| name := "subtitlesOff";
     matches := fun cmd => includes cmd "subtitles off";
     action := fun p => setShowSubtitles false p |}.

(** [Object.values(VOICE_COMMANDS)]: the values in key insertion order. *)
Definition VOICE_COMMANDS : list VoiceCommand :=
  [play; pause; skipIntro; subtitlesOn; subtitlesOff].

(** [Array.prototype.some] with a callback that acts on the player: the
    callback runs on the elements in order until it first returns
    true; the elements after that one are not visited. *)
Fixpoint Array_some {A} (f : A -> Player -> bool * Player) (l : list A)
         (p : Player) : bool * Player :=
  match l with
  | [] => (false, p)
  | x :: r =>
      let '(stop, p') := f x p in
      if stop then (true, p') else Array_some f r p'
  end.

(** The callback of [handleCommand]. *)
Definition try_command (command : string) (c : VoiceCommand) (p : Player)
  : bool * Player :=
  let p := note_match (name c) p in
  if matches c command then (true, action c (note_action (name c) p))
  else (false, p).

Definition handleCommand (command : string) (p : Player) : Player :=
  match videoRef p with
  | None => p
  | Some _ => snd (Array_some (try_command command) VOICE_COMMANDS p)
  end.

(** The playback state of [q] is that of [p]: the same media element
    (flags, position, operations invoked) and the same React state. *)
Definition playback_unchanged (p q : Player) : Prop :=
  videoRef q = videoRef p /\ isPlaying q = isPlaying p
  /\ showSubtitles q = showSubtitles p
  /\ actionsInvoked q = actionsInvoked p.

(** A player whose element is mounted and that has dispatched nothing. *)
Definition mounted (v : Video) (playing subs : bool) : Player :=
  {| videoRef := Some v; isPlaying := playing; showSubtitles := subs;
     matchEvaluated := []; actionsInvoked := [] |}.

End VideoPlayer.

(* ================================================================== *)
(** * A state monad with exceptions *)
(* ================================================================== *)

(** Code that mutates its surroundings and may throw.  What was written
    before a [throw] stays written, as in JavaScript; the thrown value is
    kept as the text its string conversion gives. *)
Module Exn.

Inductive result (A : Type) : Type :=
| Ok (a : A)
| Throw (e : string).
Arguments Ok {A} a.
Arguments Throw {A} e.

Definition M (W A : Type) : Type := W -> result A * W.

Definition ret {W A} (a : A) : M W A := fun w => (Ok a, w).

Definition bind {W A B} (m : M W A) (k : A -> M W B) : M W B :=
  fun w => match m w with
           | (Ok a, w') => k a w'
           | (Throw e, w') => (Throw e, w')
           end.

Definition throw {W A} (e : string) : M W A := fun w => (Throw e, w).

(** [try { m } catch (error) { h error }]. *)
Definition try_catch {W A} (m : M W A) (h : string -> M W A) : M W A :=
  fun w => match m w with
           | (Ok a, w') => (Ok a, w')
           | (Throw e, w') => h e w'
           end.

(** [try { m } finally { f }] for a [finally] block that cannot throw. *)
Definition finally {W A} (m : M W A) (f : W -> W) : M W A :=
  fun w => let '(r, w') := m w in (r, f w').

Definition get {W} : M W W := fun w => (Ok w, w).
Definition modify {W} (f : W -> W) : M W unit := fun w => (Ok tt, f w).
Definition when {W} (b : bool) (m : M W unit) : M W unit :=
  if b then m else ret tt.

(** The world left by a computation. *)
Definition exec {W A} (m : M W A) (w : W) : W := snd (m w).

End Exn.

Import Exn.

Declare Scope exn_scope.
Delimit Scope exn_scope with exn.
Notation "x <- m ;; k" := (Exn.bind m (fun x => k))
  (at level 89, m at next level, right associativity) : exn_scope.
Notation "m ;;; k" := (Exn.bind m (fun _ => k))
  (at level 89, right associativity) : exn_scope.

(* ================================================================== *)
(** * The recognition adapter: class [SpeechRecognitionPolyfill] *)
(* ================================================================== *)

(** How the request for the annyang script ends. *)
Inductive ScriptLoad :=
| ScriptLoaded (defines_annyang : bool)
| ScriptError.

(** The page the adapter runs in.  [recognition_start_fails] is what
    [recognition.start()] throws there, if it throws;
    [backend_stop_fails] is what the stop call of a backend
    ([recognition.stop()], [mediaRecorder.stop()], [annyang.pause()])
    throws, if it throws. *)
Record Page := {
  browser : Browser;
  window_annyang : bool;
  annyang_script_tag : bool;
  script_request : ScriptLoad;
  recognition_start_fails : option string;
  backend_stop_fails : option string
}.

(** A page without the native constructor and with media recording. *)
Definition recorder_only_page : Page :=
  {| browser := BrowserSupport.browser_with false true true;
     window_annyang := false; annyang_script_tag := false;
     script_request := ScriptError; recognition_start_fails := None;
     backend_stop_fails := None |}.

(** What the adapter does to its surroundings, in order. *)
Inductive Effect :=
| ConsoleLog (s : string)
| ConsoleError (s : string)
| NewSpeechRecognition
| RecognitionStart
| RecognitionStop
| GetUserMedia
| NewMediaRecorder
| MediaRecorderStop
| StreamAudioToText
| AppendScript (src : string)
| AnnyangSetLanguage (lang : string)
| AnnyangAddCallback (event : string)
| AnnyangStart (continuous : bool)
| AnnyangPause
| Call_onStart
| Call_onEnd
| Call_onError (error : string)
| Call_onResult (transcript : string) (confidence : number).

Module SpeechRecognitionPolyfill.

Open Scope string_scope.
Open Scope exn_scope.

Inductive FallbackMode := native | server | annyang.

Definition mode_name (m : FallbackMode) : string :=
  match m with native => "native" | server => "server" | annyang => "annyang" end.

(** The native recognition object, as configured by the adapter. *)
Record Recognition := {
  rec_continuous : bool;
  rec_interimResults : bool;
  rec_lang : string
}.

Section Adapter.

(** The state of the client that supplies the callbacks. *)
Context {S : Type}.

Record Options := {
  continuous : bool;
  interimResults : bool;
  lang : string;
  onResult : option (string -> number -> S -> S);
  onError : option (string -> S -> S);
  onStart : option (S -> S);
  onEnd : option (S -> S)
}.

(** The fields of the class. *)
Record Adapter := {
  options : Options;
  recognition : option Recognition;
  mediaRecorder : option unit;
  isListening : bool;
  fallbackMode : FallbackMode
}.

Record World := {
  page : Page;
  this : Adapter;
  client : S;
  effects : list Effect
}.

Definition effect (e : Effect) : M World unit :=
  modify (fun w => {| page := page w; this := this w; client := client w;
                      effects := effects w ++ [e] |}).

Definition set_this (f : Adapter -> Adapter) : M World unit :=
  modify (fun w => {| page := page w; this := f (this w); client := client w;
                      effects := effects w |}).

Definition set_page (f : Page -> Page) : M World unit :=
  modify (fun w => {| page := f (page w); this := this w; client := client w;
                      effects := effects w |}).

Definition set_client (f : S -> S) : M World unit :=
  modify (fun w => {| page := page w; this := this w; client := f (client w);
                      effects := effects w |}).

Definition set_isListening (b : bool) (a : Adapter) : Adapter :=
  {| options := options a; recognition := recognition a;
     mediaRecorder := mediaRecorder a; isListening := b;
     fallbackMode := fallbackMode a |}.

Definition set_fallbackMode (m : FallbackMode) (a : Adapter) : Adapter :=
  {| options := options a; recognition := recognition a;
     mediaRecorder := mediaRecorder a; isListening := isListening a;
     fallbackMode := m |}.

Definition set_recognition (r : option Recognition) (a : Adapter) : Adapter :=
  {| options := options a; recognition := r;
     mediaRecorder := mediaRecorder a; isListening := isListening a;
     fallbackMode := fallbackMode a |}.

(** [this.options.onStart?.()] and its siblings: nothing happens when
    the callback was not supplied. *)
Definition call_onStart : M World unit :=
  w <- get ;;
  match onStart (options (this w)) with
  | Some f => effect Call_onStart ;;; set_client f
  | None => ret tt
  end.

Definition call_onEnd : M World unit :=
  w <- get ;;
  match onEnd (options (this w)) with
  | Some f => effect Call_onEnd ;;; set_client f
  | None => ret tt
  end.

Definition call_onError (msg : string) : M World unit :=
  w <- get ;;
  match onError (options (this w)) with
  | Some f => effect (Call_onError msg) ;;; set_client (f msg)
  | None => ret tt
  end.

Definition call_onResult (transcript : string) (confidence : number)
  : M World unit :=
  w <- get ;;
  match onResult (options (this w)) with
  | Some f => effect (Call_onResult transcript confidence) ;;;
              set_client (f transcript confidence)
  | None => ret tt
  end.

Definition hasNativeSupport (p : Page) : bool :=
  window_SpeechRecognition (browser p)
  || window_webkitSpeechRecognition (browser p).

Definition hasMediaRecorderSupport (p : Page) : bool :=
  navigator_mediaDevices (browser p)
  && mediaDevices_getUserMedia (browser p)
  && MediaRecorder_in_window (browser p).

Definition detectBestMode : M World unit :=
  w <- get ;;
  if hasNativeSupport (page w) then
    set_this (set_fallbackMode native) ;;;
    effect (ConsoleLog "Using native Web Speech API")
  else if hasMediaRecorderSupport (page w) then
    set_this (set_fallbackMode server) ;;;
    effect (ConsoleLog "Using server-side speech recognition")
  else
    set_this (set_fallbackMode annyang) ;;;
    effect (ConsoleLog "Using annyang.js polyfill").

(** The field initialisers; [opts] already has the defaults merged in. *)
Definition fresh (opts : Options) : Adapter :=
  {| options := opts; recognition := None; mediaRecorder := None;
     isListening := false; fallbackMode := native |}.

(** [new SpeechRecognitionPolyfill(opts)] on a page, for a client. *)
Definition construct (opts : Options) (p : Page) (c : S) (log : list Effect)
  : World :=
  exec detectBestMode
       {| page := p; this := fresh opts; client := c; effects := log |}.

Definition startNativeRecognition : M World unit :=
  w <- get ;;
  (if hasNativeSupport (page w) then ret tt
   else throw "TypeError: SpeechRecognition is not a constructor") ;;;
  effect NewSpeechRecognition ;;;
  set_this (set_recognition
              (Some {| rec_continuous := continuous (options (this w));
                       rec_interimResults := interimResults (options (this w));
                       rec_lang := lang (options (this w)) |})) ;;;
  effect RecognitionStart ;;;
  match recognition_start_fails (page w) with
  | Some e => throw e
  | None => ret tt
  end.

Definition annyang_src : string :=
  "https://cdnjs.cloudflare.com/ajax/libs/annyang/2.6.1/annyang.min.js".

Definition loadAnnyangScript : M World unit :=
  w <- get ;;
  if annyang_script_tag (page w) then ret tt
  else
    effect (AppendScript annyang_src) ;;;
    match script_request (page w) with
    | ScriptLoaded defines =>
        set_page (fun p =>
          {| browser := browser p;
             window_annyang := window_annyang p || defines;
             annyang_script_tag := true;
             script_request := script_request p;
             recognition_start_fails := recognition_start_fails p;
             backend_stop_fails := backend_stop_fails p |})
    | ScriptError =>
        set_page (fun p =>
          {| browser := browser p;
             window_annyang := window_annyang p;
             annyang_script_tag := true;
             script_request := script_request p;
             recognition_start_fails := recognition_start_fails p;
             backend_stop_fails := backend_stop_fails p |}) ;;;
        throw "Error: Failed to load annyang.js"
    end.

Definition startAnnyangRecognition : M World unit :=
  w <- get ;;
  when (negb (window_annyang (page w))) loadAnnyangScript ;;;
  w <- get ;;
  if window_annyang (page w) then
    effect (AnnyangSetLanguage
              (if nonempty (lang (options (this w)))
               then lang (options (this w)) else "en-US")) ;;;
    effect (AnnyangAddCallback "result") ;;;
    effect (AnnyangAddCallback "error") ;;;
    effect (AnnyangStart (continuous (options (this w))))
  else throw "Error: Failed to load annyang.js polyfill".

(** [start()].  The [switch] has a case for ['native'] and one for
    ['annyang']; in ['server'] mode no case applies and control falls
    through to the two statements after it. *)
Definition start : M World unit :=
  w <- get ;;
  if isListening (this w) then ret tt
  else
    try_catch
      (match fallbackMode (this w) with
       | native => startNativeRecognition
       | annyang => startAnnyangRecognition
       | server => ret tt
       end ;;;
       set_this (set_isListening true) ;;;
       call_onStart)
      (fun error =>
         call_onError ("Failed to start speech recognition: " ++ error)).

(** The stop call of a backend: the call is made, and throws when the
    page says so. *)
Definition backend_stop (call : Effect) : M World unit :=
  effect call ;;;
  w <- get ;;
  match backend_stop_fails (page w) with
  | Some error => throw error
  | None => ret tt
  end.

Definition stop : M World unit :=
  w <- get ;;
  if negb (isListening (this w)) then ret tt
  else
    try_catch
      (match fallbackMode (this w) with
       | native =>
           match recognition (this w) with
           | Some _ => backend_stop RecognitionStop
           | None => ret tt
           end
       | server =>
           match mediaRecorder (this w) with
           | Some _ => backend_stop MediaRecorderStop
           | None => ret tt
           end
       | annyang => when (window_annyang (page w)) (backend_stop AnnyangPause)
       end ;;;
       set_this (set_isListening false) ;;;
       call_onEnd)
      (fun error =>
         call_onError ("Failed to stop speech recognition: " ++ error)).

(** The handlers installed on the native recognition object. *)
Definition recognition_onresult (transcript : string) (confidence : number)
  : M World unit :=
  call_onResult transcript (or_default confidence (of_Z 1)).

Definition recognition_onerror (error : string) : M World unit :=
  call_onError ("Speech recognition error: " ++ error).

Definition recognition_onend : M World unit :=
  set_this (set_isListening false) ;;; call_onEnd.

Definition getCurrentMode (a : Adapter) : string := mode_name (fallbackMode a).
Definition isCurrentlyListening (a : Adapter) : bool := isListening a.

(** [stop()] on this adapter gets to the stop call of a backend: the
    object its mode stops is there. *)
Definition has_backend_to_stop (p : Page) (a : Adapter) : bool :=
  match fallbackMode a with
  | native => match recognition a with Some _ => true | None => false end
  | server => match mediaRecorder a with Some _ => true | None => false end
  | annyang => window_annyang p
  end.

(** The effects that create, configure or feed a recognition backend. *)
Definition backend_effect (e : Effect) : bool :=
  match e with
  | NewSpeechRecognition | RecognitionStart | GetUserMedia
  | NewMediaRecorder | StreamAudioToText | AppendScript _
  | AnnyangSetLanguage _ | AnnyangAddCallback _ | AnnyangStart _ => true
  | _ => false
  end.

End Adapter.

Arguments Options : clear implicits.
Arguments Adapter : clear implicits.
Arguments World : clear implicits.

End SpeechRecognitionPolyfill.

(* ================================================================== *)
(** * The hook [useVoiceControl] *)
(* ================================================================== *)

Module UseVoiceControl.

Import SpeechRecognitionPolyfill.
Open Scope string_scope.
Open Scope exn_scope.

(** The React state of the hook, the console, and the state of the
    component that receives the commands. *)
Record Hook (P : Type) := {
  hook_isListening : bool;
  hook_error : option string;
  currentMode : string;
  console : list string;
  owner : P
}.
Arguments hook_isListening {P} h.
Arguments hook_error {P} h.
Arguments currentMode {P} h.
Arguments console {P} h.
Arguments owner {P} h.

Section Hook.

Context {P : Type}.
Variable onCommand : string -> P -> P.
Variable language : string.

Definition setIsListening (b : bool) (h : Hook P) : Hook P :=
  {| hook_isListening := b; hook_error := hook_error h;
     currentMode := currentMode h; console := console h; owner := owner h |}.

Definition setError (e : option string) (h : Hook P) : Hook P :=
  {| hook_isListening := hook_isListening h; hook_error := e;
     currentMode := currentMode h; console := console h; owner := owner h |}.

Definition setCurrentMode (m : string) (h : Hook P) : Hook P :=
  {| hook_isListening := hook_isListening h; hook_error := hook_error h;
     currentMode := m; console := console h; owner := owner h |}.

Definition console_log (s : string) (h : Hook P) : Hook P :=
  {| hook_isListening := hook_isListening h; hook_error := hook_error h;
     currentMode := currentMode h; console := console h ++ [s]; owner := owner h |}.

Definition to_owner (f : P -> P) (h : Hook P) : Hook P :=
  {| hook_isListening := hook_isListening h; hook_error := hook_error h;
     currentMode := currentMode h; console := console h; owner := f (owner h) |}.

(** The options object passed to the adapter's constructor. *)
Definition hook_options : Options (Hook P) :=
  {| continuous := true;
     interimResults := false;
     lang := if nonempty language then language else "en-US";
     onResult := Some (fun transcript _ h =>
       to_owner (onCommand (toLowerCase transcript))
                (console_log "Speech recognized" h));
     onError := Some (fun errorMessage h =>
       setIsListening false
         (setError (Some errorMessage)
            (console_log "Speech recognition error:" h)));
     onStart := Some (fun h =>
       console_log "Speech recognition started"
         (setError None (setIsListening true h)));
     onEnd := Some (fun h =>
       console_log "Speech recognition ended" (setIsListening false h)) |}.

(** What the hook holds between renders: the page, the adapter in
    [speechRecognitionRef] (null before the effect has run), the React
    state, and the effects the adapter has had. *)
Record Mounted := {
  m_page : Page;
  speechRecognitionRef : option (Adapter (Hook P));
  m_hook : Hook P;
  m_effects : list Effect
}.

Definition initial_hook (o : P) : Hook P :=
  {| hook_isListening := false; hook_error := None;
     currentMode := "detecting..."; console := []; owner := o |}.

(** The body of the mount effect: [initializeSpeechRecognition].  The
    effect runs it at the first render and again, after its cleanup,
    at every render whose [onCommand] or language is not the one of
    the render before. *)
Definition initializeSpeechRecognition (m : Mounted) : Mounted :=
  let w := construct hook_options (m_page m) (m_hook m) (m_effects m) in
  {| m_page := page w;
     speechRecognitionRef := Some (this w);
     m_hook := setCurrentMode (getCurrentMode (this w)) (client w);
     m_effects := effects w |}.

(** Runs a method of the adapter held in the ref. *)
Definition on_adapter (a : Adapter (Hook P)) (f : M (World (Hook P)) unit)
           (m : Mounted) : Exn.result unit * Mounted :=
  let '(r, w) := f {| page := m_page m; this := a; client := m_hook m;
                      effects := m_effects m |} in
  (r, {| m_page := page w; speechRecognitionRef := Some (this w);
         m_hook := client w; m_effects := effects w |}).

Definition with_hook (f : Hook P -> Hook P) (m : Mounted) : Mounted :=
  {| m_page := m_page m; speechRecognitionRef := speechRecognitionRef m;
     m_hook := f (m_hook m); m_effects := m_effects m |}.

Definition startListening (m : Mounted) : Mounted :=
  match speechRecognitionRef m with
  | None => with_hook (setError (Some "Speech recognition not initialized")) m
  | Some a =>
      if hook_isListening (m_hook m)
      then with_hook (console_log "Speech recognition already active") m
      else
        match on_adapter a start m with
        | (Exn.Ok _, m') => m'
        | (Exn.Throw e, m') =>
            with_hook (fun h =>
              console_log "Failed to start speech recognition:"
                (setError (Some ("Failed to start speech recognition: " ++ e)) h)) m'
        end
  end.

Definition stopListening (m : Mounted) : Mounted :=
  match speechRecognitionRef m with
  | None => m
  | Some a =>
      match on_adapter a stop m with
      | (Exn.Ok _, m') => m'
      | (Exn.Throw e, m') =>
          with_hook (console_log "Failed to stop speech recognition:") m'
      end
  end.

Definition toggleListening (m : Mounted) : Mounted :=
  if hook_isListening (m_hook m) then stopListening m else startListening m.

(** The session, as the component sees it. *)
Definition same_session (m m' : Mounted) : Prop :=
  m_page m' = m_page m
  /\ speechRecognitionRef m' = speechRecognitionRef m
  /\ hook_isListening (m_hook m') = hook_isListening (m_hook m)
  /\ hook_error (m_hook m') = hook_error (m_hook m)
  /\ currentMode (m_hook m') = currentMode (m_hook m)
  /\ owner (m_hook m') = owner (m_hook m)
  /\ m_effects m' = m_effects m.

End Hook.

End UseVoiceControl.

(* ================================================================== *)
(** * The transcription service: class [SpeechRecognitionService] *)
(* ================================================================== *)

(** [for (let i = start; i < start + count; i++) body(i)]. *)
Fixpoint for_loop {W} (start count : nat) (body : nat -> M W unit) : M W unit :=
  match count with
  | O => Exn.ret tt
  | S count' => Exn.bind (body start) (fun _ => for_loop (S start) count' body)
  end.

(** A [DataView] over an [ArrayBuffer]: the bytes, each in [0, 256).  A
    write that does not fit inside the buffer throws a [RangeError] and
    writes nothing.  All multi-byte writes below are little-endian, the
    only byte order the code asks for. *)
Module DataView.

Open Scope string_scope.

Abbreviation Buffer := (list Z) (only parsing).

Definition ArrayBuffer (size : nat) : Buffer := replicate size 0.

Definition RangeError : string :=
  "RangeError: Offset is outside the bounds of the DataView".

(** Byte [k] of the little-endian form of [v]. *)
Definition byte_of (k : Z) (v : Z) : Z := Z.shiftr v (8 * k) mod 256.

Definition setUint8 (offset : nat) (v : Z) : M Buffer unit :=
  fun buf =>
    if (offset + 1 <=? length buf)%nat
    then (Exn.Ok tt, <[offset := byte_of 0 v]> buf)
    else (Exn.Throw RangeError, buf).

Definition setUint16 (offset : nat) (v : Z) : M Buffer unit :=
  fun buf =>
    if (offset + 2 <=? length buf)%nat
    then (Exn.Ok tt,
          <[offset + 1 := byte_of 1 v]> (<[offset := byte_of 0 v]> buf))%nat
    else (Exn.Throw RangeError, buf).

(** The two's-complement bytes of a signed value are the bytes of the
    value reduced modulo 2^16, which [byte_of] already takes. *)
Definition setInt16 (offset : nat) (v : Z) : M Buffer unit :=
  setUint16 offset (wrap 16 v).

Definition setUint32 (offset : nat) (v : Z) : M Buffer unit :=
  fun buf =>
    if (offset + 4 <=? length buf)%nat
    then (Exn.Ok tt,
          <[offset + 3 := byte_of 3 v]>
            (<[offset + 2 := byte_of 2 v]>
               (<[offset + 1 := byte_of 1 v]>
                  (<[offset := byte_of 0 v]> buf))))%nat
    else (Exn.Throw RangeError, buf).

(** Reading back, for stating what a header field holds. *)
Definition getUint16 (offset : nat) (buf : Buffer) : Z :=
  (buf !!! offset + 256 * buf !!! (offset + 1)%nat).

Definition getInt16 (offset : nat) (buf : Buffer) : Z :=
  let u := getUint16 offset buf in if (32768 <=? u)%Z then u - 65536 else u.

Definition getUint32 (offset : nat) (buf : Buffer) : Z :=
  (buf !!! offset + 256 * buf !!! (offset + 1)%nat
   + 65536 * buf !!! (offset + 2)%nat + 16777216 * buf !!! (offset + 3)%nat).

Definition getString (offset len : nat) (buf : Buffer) : list Z :=
  take len (drop offset buf).

End DataView.

(** The content of a [Blob]: its bytes. *)
Abbreviation Blob := (list Z) (only parsing).

(** How a request to the transcription endpoint ends. *)
Inductive TranscribeReply :=
| FetchRejected (error : string)
| ReplyNotOk (detail : option string)
| ReplyNotOkUnparsable (error : string)
| ReplyOk (text : string) (confidence : number)
| ReplyOkUnparsable (error : string).

Record TranscriptionResponse := {
  text : string;
  confidence : number
}.

Module SpeechRecognitionService.

Import DataView.
Open Scope string_scope.
Open Scope exn_scope.

Definition SAMPLE_RATE : number := of_Z 16000.
Definition BUFFER_SIZE : nat := 4096.
Definition CHANNELS : nat := 1.

(** [transcribeAudio], once the request has ended with [reply]. *)
Definition transcribeAudio {W} (reply : TranscribeReply) : M W TranscriptionResponse :=
  match reply with
  | FetchRejected e => throw e
  | ReplyNotOk (Some detail) =>
      throw ("Error: " ++ (if nonempty detail then detail else "Failed to transcribe audio"))
  | ReplyNotOk None => throw "Error: Failed to transcribe audio"
  | ReplyNotOkUnparsable e => throw e
  | ReplyOk t c => ret {| text := t; confidence := c |}
  | ReplyOkUnparsable e => throw e
  end.

(** The body of the first loop: clamp to [-1, 1], then scale. *)
Definition clamp (x : number) : number :=
  Math_max (of_Z (-1)) (Math_min (of_Z 1) x).

Definition quantize (x : number) : number :=
  let s := clamp x in
  if lt s (of_Z 0) then mul s (of_Z 32768) else mul s (of_Z 32767).

(** [pcmData]: an [Int16Array], zero-filled, then written at each index;
    a store converts the number with ToInt16. *)
Definition Int16Array (size : nat) : list Z := replicate size 0.

Fixpoint fill_pcm (audioData : list number) (i : nat) (pcmData : list Z) : list Z :=
  match audioData with
  | [] => pcmData
  | x :: rest => fill_pcm rest (S i) (<[i := ToInt16 (quantize x)]> pcmData)
  end.

Definition charCodes (s : string) : list Z :=
  map (fun c => Z.of_N (N_of_ascii c)) (list_ascii_of_string s).

Definition writeString (offset : nat) (s : string) : M Buffer unit :=
  for_loop 0 (String.length s)
    (fun i => setUint8 (offset + i) (charCodes s !!! i)).

(** [convertToWav]: the bytes of the blob it resolves to. *)
Definition convertToWav (audioData : list number) (sampleRate : number)
  : Exn.result Blob :=
  let pcmData := fill_pcm audioData 0 (Int16Array (length audioData)) in
  let n := length pcmData in
  let buffer := ArrayBuffer (44 + n * 2) in
  let '(r, view) :=
    (writeString 0 "RIFF" ;;;
     setUint32 4 (36 + Z.of_nat n * 2) ;;;
     writeString 8 "WAVE" ;;;
     writeString 12 "fmt " ;;;
     setUint32 16 16 ;;;
     setUint16 20 1 ;;;
     setUint16 22 1 ;;;
     setUint32 24 (truncate sampleRate) ;;;
     setUint32 28 (truncate (mul sampleRate (of_Z 2))) ;;;
     setUint16 32 2 ;;;
     setUint16 34 16 ;;;
     writeString 36 "data" ;;;
     setUint32 40 (Z.of_nat n * 2) ;;;
     for_loop 0 n (fun i => setInt16 (44 + i * 2) (pcmData !!! i))) buffer in
  match r with
  | Exn.Ok _ => Exn.Ok view
  | Exn.Throw e => Exn.Throw e
  end.

(** ** [streamAudioToText]

    The variables the [onaudioprocess] handler closes over, the requests
    sent to the endpoint and not yet ended (oldest first), and what the
    handler has reported. *)
Record Stream := {
  isProcessing : bool;
  audioChunks : list Blob;
  in_flight : list Blob;
  transcriptions : list string;
  errors_logged : list string
}.

Definition initial : Stream :=
  {| isProcessing := false; audioChunks := []; in_flight := [];
     transcriptions := []; errors_logged := [] |}.

Definition set_isProcessing (b : bool) (s : Stream) : Stream :=
  {| isProcessing := b; audioChunks := audioChunks s; in_flight := in_flight s;
     transcriptions := transcriptions s; errors_logged := errors_logged s |}.

Definition set_audioChunks (c : list Blob) (s : Stream) : Stream :=
  {| isProcessing := isProcessing s; audioChunks := c; in_flight := in_flight s;
     transcriptions := transcriptions s; errors_logged := errors_logged s |}.

Definition set_in_flight (f : list Blob) (s : Stream) : Stream :=
  {| isProcessing := isProcessing s; audioChunks := audioChunks s; in_flight := f;
     transcriptions := transcriptions s; errors_logged := errors_logged s |}.

Definition onTranscription (t : string) (s : Stream) : Stream :=
  {| isProcessing := isProcessing s; audioChunks := audioChunks s;
     in_flight := in_flight s; transcriptions := transcriptions s ++ [t];
     errors_logged := errors_logged s |}.

Definition console_error (e : string) (s : Stream) : Stream :=
  {| isProcessing := isProcessing s; audioChunks := audioChunks s;
     in_flight := in_flight s; transcriptions := transcriptions s;
     errors_logged := errors_logged s ++ [e] |}.

(** [catch] and [finally] of the handler. *)
Definition handler_end {A} (r : Exn.result A * Stream) : Stream :=
  match r with
  | (Exn.Ok _, s) => set_isProcessing false s
  | (Exn.Throw e, s) => set_isProcessing false (console_error e s)
  end.

(** What happens on the event loop: the processor delivers a buffer of
    samples, or the oldest request in flight ends with a reply.  A
    request that never ends is a run in which its [RequestEnds] never
    comes. *)
Inductive Event :=
| AudioProcess (inputData : list number)
| RequestEnds (reply : TranscribeReply).

(** The handler up to its second [await].  [await convertToWav] resumes
    in a microtask, before any other event is delivered, so the stretch
    from the test of the flag to the sending of the request (or to
    [finally], when fewer than two chunks are held) is one step. *)
Definition onaudioprocess (inputData : list number) (s : Stream) : Stream :=
  if negb (isProcessing s) then
    let s := set_isProcessing true s in
    match convertToWav inputData SAMPLE_RATE with
    | Exn.Throw e => handler_end (Exn.Throw (A:=unit) e, s)
    | Exn.Ok wavBlob =>
        let s := set_audioChunks (audioChunks s ++ [wavBlob]) s in
        if (2 <=? length (audioChunks s))%nat then
          let audioBlob := concat (audioChunks s) in
          set_in_flight (in_flight s ++ [audioBlob]) s
        else handler_end (Exn.Ok tt, s)
    end
  else s.

(** The rest of the handler, resumed when its request ends. *)
Definition resume (reply : TranscribeReply) : M Stream unit :=
  result <- transcribeAudio reply ;;
  when (nonempty (trim (text result)))
       (modify (onTranscription (toLowerCase (trim (text result))))) ;;;
  modify (set_audioChunks []).

Definition step (s : Stream) (e : Event) : Stream :=
  match e with
  | AudioProcess inputData => onaudioprocess inputData s
  | RequestEnds reply =>
      match in_flight s with
      | [] => s
      | _ :: others => handler_end (resume reply (set_in_flight others s))
      end
  end.

Definition run (s : Stream) (events : list Event) : Stream :=
  fold_left step events s.

(** The flag is set exactly while one request is in flight, and there
    is never more than one. *)
Inductive guarded (s : Stream) : Prop :=
| guarded_idle : isProcessing s = false -> in_flight s = [] -> guarded s
| guarded_busy (audioBlob : Blob) :
    isProcessing s = true -> in_flight s = [audioBlob] -> guarded s.

(** Some of the buffers delivered from [s] on, with no request ending
    meanwhile, is processed: the handler does something with it. *)
Definition some_chunk_processed (s : Stream) : Prop :=
  exists buffers : list (list number), run s (map AudioProcess buffers) <> s.

(** The reading of "a hung submission never prevents subsequent chunks
    from being processed": with a request in flight that does not end,
    the handler still gets to process a later chunk. *)
Definition hung_request_does_not_block (s : Stream) : Prop :=
  in_flight s <> [] -> some_chunk_processed s.

(** ** The wire format, written from the RIFF/WAVE layout

    The 44 bytes of the header for [n] samples at [rate] Hz, mono, 16
    bits, and the two bytes of a sample. *)
Definition le16 (v : Z) : list Z := [byte_of 0 v; byte_of 1 v].
Definition le32 (v : Z) : list Z := [byte_of 0 v; byte_of 1 v; byte_of 2 v; byte_of 3 v].

Definition header_bytes (riff rate byteRate data : Z) : list Z :=
  [82; 73; 70; 70] ++ le32 riff
  ++ [87; 65; 86; 69] ++ [102; 109; 116; 32] ++ le32 16
  ++ le16 1 ++ le16 1 ++ le32 rate ++ le32 byteRate ++ le16 2 ++ le16 16
  ++ [100; 97; 116; 97] ++ le32 data.

Definition wav_header (rate : Z) (n : nat) : list Z :=
  header_bytes (36 + 2 * Z.of_nat n) rate (rate * 2) (2 * Z.of_nat n).

Definition wav_data (samples : list Z) : list Z := flat_map le16 samples.

Definition is_int16 (v : Z) : Prop := -32768 <= v <= 32767.
Definition is_byte (v : Z) : Prop := 0 <= v < 256.

End SpeechRecognitionService.

(* ================================================================== *)
(** * Movies and content: [fetchMovies], [mapMovieToContent] *)
(* ================================================================== *)

Record Movie := {
  title : string;
  videoURL : string;
  year : number;
  rating : number;
  duration : string;
  cast : list string;
  thumbnail : string;
  subtitleUrl : option string;
  description : string
}.

Inductive ContentType := movie | series.

Record Content := {
  id : string;
  c_title : string;
  c_description : string;
  imageUrl : string;
  videoUrl : string;
  type : ContentType;
  c_year : number;
  c_rating : option number;
  genres : option (list string)
}.

(** How the request to [/api/movies] ends. *)
Inductive MoviesReply :=
| MoviesFetchRejected (error : string)
| MoviesNotOk (status statusText : string)
| MoviesUnparsable (error : string)
| MoviesNotArray
| MoviesArray (movies : list Movie).

Module MoviesApi.

Open Scope string_scope.
Open Scope exn_scope.

(** [fetchMovies], over the console, once the request has ended. *)
Definition fetchMovies (reply : MoviesReply) : M (list string) (list Movie) :=
  try_catch
    (match reply with
     | MoviesFetchRejected e => throw e
     | MoviesNotOk status statusText =>
         throw ("Error: Failed to fetch movies: " ++ status ++ " " ++ statusText)
     | MoviesUnparsable e => throw e
     | MoviesNotArray =>
         throw "Error: Invalid response format: expected an array of movies"
     | MoviesArray movies => ret movies
     end)
    (fun error =>
       modify (fun console => app console ["Failed to fetch movies: " ++ error]) ;;;
       ret []).

Definition mapMovieToContent (m : Movie) : Content :=
  {| id := replace_space_runs "-" (toLowerCase (title m));
     c_title := title m;
     c_description := description m;
     imageUrl := thumbnail m;
     videoUrl := videoURL m;
     type := movie;
     c_year := year m;
     c_rating := Some (rating m);
     genres := Some [] |}.

(** The list [fetchMovies] resolves to. *)
Definition movies_of (reply : MoviesReply) : list Movie :=
  match reply with MoviesArray movies => movies | _ => [] end.


End MoviesApi.

(* ================================================================== *)
(** * The component [ContentCarousel] *)
(* ================================================================== *)

(** [Array.prototype.sort] with a comparison function.  The sort is
    stable, and [x] goes after [y] exactly when the function returns a
    number above zero; a NaN counts as zero.  For a consistent comparison
    function every stable algorithm gives the same array; this one
    inserts from the right. *)
Fixpoint sort_insert {A} (compareFn : A -> A -> number) (x : A) (l : list A) : list A :=
  match l with
  | [] => [x]
  | y :: r => if gt (compareFn x y) (of_Z 0) then y :: sort_insert compareFn x r
              else x :: y :: r
  end.

Fixpoint Array_sort {A} (compareFn : A -> A -> number) (l : list A) : list A :=
  match l with
  | [] => []
  | x :: r => sort_insert compareFn x (Array_sort compareFn r)
  end.

(** [slice(0, n)]. *)
Definition slice0 {A} (n : nat) (l : list A) : list A := take n l.

(** The React state of the carousel, the retry timers set and not yet
    fired, and the console. *)
Record Carousel := {
  items : list Content;
  isLoading : bool;
  error : option string;
  retryCount : nat;
  retry_timers : nat;
  carousel_console : list string
}.

(** What the component renders. *)
Inductive View :=
| Skeleton
| ErrorBox (message : string) (retryButton : bool)
| Nothing
| Cards (shown : list Content).

Module ContentCarousel.

Import MoviesApi.
Open Scope string_scope.
Open Scope exn_scope.

Definition initial : Carousel :=
  {| items := []; isLoading := true; error := None; retryCount := 0%nat;
     retry_timers := 0%nat; carousel_console := [] |}.

Definition setItems (l : list Content) (c : Carousel) : Carousel :=
  {| items := l; isLoading := isLoading c; error := error c;
     retryCount := retryCount c; retry_timers := retry_timers c;
     carousel_console := carousel_console c |}.

Definition setIsLoading (b : bool) (c : Carousel) : Carousel :=
  {| items := items c; isLoading := b; error := error c;
     retryCount := retryCount c; retry_timers := retry_timers c;
     carousel_console := carousel_console c |}.

Definition setError (e : option string) (c : Carousel) : Carousel :=
  {| items := items c; isLoading := isLoading c; error := e;
     retryCount := retryCount c; retry_timers := retry_timers c;
     carousel_console := carousel_console c |}.

Definition setRetryCount (f : nat -> nat) (c : Carousel) : Carousel :=
  {| items := items c; isLoading := isLoading c; error := error c;
     retryCount := f (retryCount c); retry_timers := retry_timers c;
     carousel_console := carousel_console c |}.

Definition setTimeout_retry (c : Carousel) : Carousel :=
  {| items := items c; isLoading := isLoading c; error := error c;
     retryCount := retryCount c; retry_timers := S (retry_timers c);
     carousel_console := carousel_console c |}.

Definition timer_done (c : Carousel) : Carousel :=
  {| items := items c; isLoading := isLoading c; error := error c;
     retryCount := retryCount c; retry_timers := pred (retry_timers c);
     carousel_console := carousel_console c |}.

Definition set_console (l : list string) (c : Carousel) : Carousel :=
  {| items := items c; isLoading := isLoading c; error := error c;
     retryCount := retryCount c; retry_timers := retry_timers c;
     carousel_console := l |}.

(** [await fetchMovies()], writing to the carousel's console. *)
Definition await_fetchMovies (reply : MoviesReply) : M Carousel (list Movie) :=
  fun c =>
    let '(r, console) := fetchMovies reply (carousel_console c) in
    (r, set_console console c).

(** The console after [fetchMovies] has run. *)
Definition console_after (reply : MoviesReply) (c : Carousel) : list string :=
  snd (fetchMovies reply (carousel_console c)).

Definition by_rating (a b : Content) : number :=
  sub (or_default (default (of_Z 0) (c_rating b)) (of_Z 0))
      (or_default (default (of_Z 0) (c_rating a)) (of_Z 0)).

Definition by_year (a b : Content) : number := sub (c_year b) (c_year a).

(** The filtering step of [fetchContent]. *)
Definition filterContent (query : string) (allContent : list Content) : list Content :=
  if nonempty query then
    let searchTerms := split_char " " (toLowerCase query) in
    if String.eqb query "trending" then
      slice0 10 (Array_sort by_rating allContent)
    else if String.eqb query "popular shows" then
      slice0 10 (Array_sort by_rating allContent)
    else if String.eqb query "new releases" then
      slice0 10 (Array_sort by_year allContent)
    else if String.eqb query "action movies" then
      allContent
    else
      filter (fun content =>
                forallb (fun term =>
                           includes (toLowerCase (c_title content)) term
                           || includes (toLowerCase (c_description content)) term)
                        searchTerms = true)
             allContent
  else allContent.

(** One run of the effect, once its request has ended with [reply].
    The [return] statements inside [try] leave through [finally]. *)
Definition fetchContent (query : string) (reply : MoviesReply) : M Carousel unit :=
  finally
    (try_catch
       (modify (setIsLoading true) ;;;
        modify (setError None) ;;;
        movies <- await_fetchMovies reply ;;
        c <- get ;;
        if (length movies =? 0)%nat then
          if (retryCount c <? 3)%nat then modify setTimeout_retry
          else modify (setError (Some "No movies available.")) ;;;
               modify (setItems [])
        else
          let allContent := map mapMovieToContent movies in
          let filteredContent := filterContent query allContent in
          if (length filteredContent =? 0)%nat then
            modify (setError (Some "No results found for this category.")) ;;;
            modify (setItems [])
          else modify (setItems filteredContent))
       (fun err =>
          modify (fun c => set_console (app (carousel_console c) ["Error loading content:"]) c) ;;;
          modify (setError (Some ("Failed to load content: " ++ err)))))
    (setIsLoading false).

Definition run_effect (query : string) (reply : MoviesReply) (c : Carousel) : Carousel :=
  exec (fetchContent query reply) c.

Definition render (c : Carousel) : View :=
  if isLoading c then Skeleton
  else match error c with
       | Some e =>
           if nonempty e then ErrorBox e (retryCount c <? 3)%nat
           else if (length (items c) =? 0)%nat then Nothing else Cards (items c)
       | None => if (length (items c) =? 0)%nat then Nothing else Cards (items c)
       end.

(** A retry timer fires: the count goes up, and the effect, which
    depends on it, runs again. *)
Definition timer_fires (query : string) (reply : MoviesReply) (c : Carousel) : Carousel :=
  match retry_timers c with
  | O => c
  | S _ => run_effect query reply (setRetryCount S (timer_done c))
  end.

(** The Retry button is pressed; it exists only in the error box, and
    there only while the count is below 3. *)
Definition click_retry (query : string) (reply : MoviesReply) (c : Carousel) : Carousel :=
  match render c with
  | ErrorBox _ true => run_effect query reply (setRetryCount S c)
  | _ => c
  end.




Definition movie_of_year (y : Z) : Movie :=
  {| title := "Film"; videoURL := "/film.mp4"; year := of_Z y;
     rating := of_Z 7; duration := "2h"; cast := []; thumbnail := "/film.jpg";
     subtitleUrl := None; description := "A film" |}.

End ContentCarousel.

(* ================================================================== *)
(** * The mode detector: [getBrowserCompatibilityMessage] *)
(* ================================================================== *)

Module BrowserMessages.

Import BrowserSupport.
Open Scope string_scope.

Definition unknown_message : string :=
  "Your browser will automatically select the best available speech recognition method.".

(** The object literal [messages], read at one of the names that
    [detectBrowserName] can give; no other key is ever looked up. *)
Definition messages (key : string) : option string :=
  if String.eqb key "Chrome" then
    Some "Chrome provides the best speech recognition experience with native Web Speech API support."
  else if String.eqb key "Firefox" then
    Some "Firefox will use our server-side speech recognition or JavaScript polyfill for voice commands."
  else if String.eqb key "Safari" then
    Some "Safari has limited speech recognition support. Server-side processing will be used when possible."
  else if String.eqb key "Edge" then
    Some "Edge supports speech recognition through our compatibility layer."
  else if String.eqb key "Opera" then
    Some "Opera will use our fallback speech recognition methods."
  else if String.eqb key "Unknown" then Some unknown_message
  else None.

(** [messages[support.browserName] || messages.Unknown]. *)
Definition getBrowserCompatibilityMessage (w : Browser) : string :=
  let support := detectBrowserSupport w in
  match messages (browserName support) with
  | Some m => if nonempty m then m else unknown_message
  | None => unknown_message
  end.

Definition browser_names : list string :=
  ["Chrome"; "Firefox"; "Safari"; "Edge"; "Opera"; "Unknown"].

End BrowserMessages.

(* ================================================================== *)
(** * The hook [useVoiceControl]: the cleanup of its mount effect *)
(* ================================================================== *)

Module VoiceSession.

Import SpeechRecognitionPolyfill UseVoiceControl.
Open Scope string_scope.

Section Events.

Context {P : Type}.

(** The cleanup of the mount effect. *)
Definition unmount (m : @Mounted P) : @Mounted P :=
  match speechRecognitionRef m with
  | Some a => if isCurrentlyListening a then snd (on_adapter a stop m) else m
  | None => m
  end.

(** The adapter in the ref counts as listening. *)
Definition adapter_listening (m : @Mounted P) : bool :=
  match speechRecognitionRef m with
  | Some a => isListening a
  | None => false
  end.

End Events.

(** A page with the native constructor, on which [recognition.start()]
    succeeds. *)
Definition native_page : Page :=
  {| browser := BrowserSupport.browser_with true false true;
     window_annyang := false; annyang_script_tag := false;
     script_request := ScriptError; recognition_start_fails := None;
     backend_stop_fails := None |}.

(** A page with neither the native constructor nor media recording,
    whose request for the annyang script fails. *)
Definition offline_page : Page :=
  {| browser := BrowserSupport.browser_with false false true;
     window_annyang := false; annyang_script_tag := false;
     script_request := ScriptError; recognition_start_fails := None;
     backend_stop_fails := None |}.

Definition plain_options : Options unit :=
  {| continuous := true; interimResults := false; lang := "en-US";
     onResult := None; onError := Some (fun _ u => u);
     onStart := Some (fun u => u); onEnd := Some (fun u => u) |}.


Definition is_AppendScript (e : Effect) : bool :=
  match e with AppendScript _ => true | _ => false end.


End VoiceSession.

(* ================================================================== *)
(** * The player: the subtitle effect *)
(* ================================================================== *)

Module Subtitles.

Open Scope string_scope.

Inductive TextTrackMode := disabled | hidden | showing.

Record TextTrack := {
  label : string;
  mode : TextTrackMode
}.

(** [Array.from(video.textTracks).find(track => track.label === 'English')]
    followed by the assignment to the [mode] of the track found. *)
Fixpoint set_first_English (m : TextTrackMode) (tracks : list TextTrack)
  : list TextTrack :=
  match tracks with
  | [] => []
  | t :: r =>
      if String.eqb (label t) "English"
      then {| label := label t; mode := m |} :: r
      else t :: set_first_English m r
  end.

(** The effect that depends on [showSubtitles]; [textTracks] is absent
    when the element has no such property. *)
Definition subtitleEffect (p : Player) (textTracks : option (list TextTrack))
  : option (list TextTrack) :=
  match videoRef p, textTracks with
  | Some _, Some tracks =>
      if (length tracks =? 0)%nat then textTracks
      else Some (set_first_English (if showSubtitles p then showing else hidden) tracks)
  | _, _ => textTracks
  end.

Definition is_English (t : TextTrack) : bool := String.eqb (label t) "English".

End Subtitles.

(* ================================================================== *)
(** * The carousel: retries by timer and by button, scrolling *)
(* ================================================================== *)

(** [Math.max] and [Math.min] of two numbers: NaN if either is NaN; of
    the two zeros, [+0] is the larger. *)
Module JsMath.

Definition is_zero (s : bool) (x : number) : bool :=
  match x with S754_zero s' => Bool.eqb s s' | _ => false end.

Definition Math_max2 (a b : number) : number :=
  if is_nan a || is_nan b then S754_nan
  else if is_zero false b && is_zero true a then b
  else if gt b a then b else a.

Definition Math_min2 (a b : number) : number :=
  if is_nan a || is_nan b then S754_nan
  else if is_zero true b && is_zero false a then b
  else if lt b a then b else a.

(** Two numbers are the same value of the format (NaN being one value,
    [0] and [-0] two). *)
Definition same_number (x y : number) : bool :=
  match x, y with
  | S754_zero s, S754_zero s' => Bool.eqb s s'
  | S754_infinity s, S754_infinity s' => Bool.eqb s s'
  | S754_nan, S754_nan => true
  | S754_finite s m e, S754_finite s' m' e' =>
      Bool.eqb s s' && (m =? m')%positive && (e =? e')%Z
  | _, _ => false
  end.

(** [f] holds of the [n] integers from [z] on. *)
Fixpoint all_from (f : Z -> bool) (z : Z) (n : nat) : bool :=
  match n with
  | O => true
  | S k => f z && all_from f (z + 1) k
  end.

End JsMath.

Module CarouselSession.

Import ContentCarousel JsMath.
Open Scope string_scope.

(** What happens to a mounted carousel after the first run of its
    effect: a retry timer fires, or the Retry button is pressed; either
    starts a run of the effect, whose request ends with [reply]. *)
Inductive CarouselEvent :=
| TimerFires (reply : MoviesReply)
| RetryClicked (reply : MoviesReply).

Definition react (query : string) (c : Carousel) (e : CarouselEvent) : Carousel :=
  match e with
  | TimerFires reply => timer_fires query reply c
  | RetryClicked reply => click_retry query reply c
  end.

Definition session (query : string) (first : MoviesReply) (events : list CarouselEvent)
  : Carousel :=
  fold_left (react query) events (run_effect query first initial).

(** The retry count is at most 3, at most one timer is pending, and
    one is pending only below 3 retries and with no error shown. *)
Definition retries_bounded (c : Carousel) : Prop :=
  (retryCount c <= 3)%nat
  /\ (retry_timers c <= 1)%nat
  /\ (retry_timers c = 1%nat -> (retryCount c < 3)%nat /\ error c = None)
  /\ isLoading c = false.

(** A query of [n] spaces. *)
Fixpoint blanks (n : nat) : string :=
  match n with
  | O => EmptyString
  | S k => String " " (blanks k)
  end.

(** An error on display is one of the two of the [try] block, and
    comes with an empty list of items. *)
Definition shows_known_error (c : Carousel) : Prop :=
  forall e : string, error c = Some e ->
    (e = "No movies available." \/ e = "No results found for this category.")
    /\ items c = [].

(** While items are held no retry timer is pending and no error is
    set. *)
Definition cards_are_quiet (c : Carousel) : Prop :=
  items c <> [] -> retry_timers c = 0%nat /\ error c = None.

(** The part of the scroll container the code reads. *)
Record Container := {
  clientWidth : number;
  scrollWidth : number
}.

Inductive Direction := to_left | to_right.

(** The state [scrollPosition] and the calls of [container.scrollTo]. *)
Record Scroller := {
  scrollPosition : number;
  scrolledTo : list number
}.

(** The literal [0.8]: the binary64 number nearest to it. *)
Definition eight_tenths : number := S754_finite false 7205759403792794 (-53).

Definition scroll (direction : Direction) (container : option Container)
           (s : Scroller) : Scroller :=
  match container with
  | None => s
  | Some container =>
      let scrollAmount := mul (clientWidth container) eight_tenths in
      let newPosition :=
        match direction with
        | to_left => Math_max2 (of_Z 0) (sub (scrollPosition s) scrollAmount)
        | to_right =>
            Math_min2 (sub (scrollWidth container) (clientWidth container))
                      (add (scrollPosition s) scrollAmount)
        end in
      {| scrollPosition := newPosition;
         scrolledTo := scrolledTo s ++ [newPosition] |}
  end.

End CarouselSession.

(* ================================================================== *)
(** * The watch page: [getMovieById] *)
(* ================================================================== *)

Module WatchPage.

Open Scope string_scope.

(** How the page function ends: with the movie to render, with the 404
    page of [notFound()], or with an error for the error boundary (on
    a document that is not an array it is the [TypeError] of the call
    of [find]). *)
Inductive Outcome :=
| Renders (m : Movie)
| NotFound
| Fails (error : string).

Definition generated_id (m : Movie) : string :=
  replace_space_runs "-" (toLowerCase (title m)).

Definition getMovieById (id : string) (reply : MoviesReply) : Outcome :=
  match reply with
  | MoviesFetchRejected e => Fails e
  | MoviesNotOk status statusText =>
      Fails ("Error: Failed to fetch movies: " ++ status ++ " " ++ statusText)
  | MoviesUnparsable e => Fails e
  | MoviesNotArray => Fails "TypeError"
  | MoviesArray movies =>
      match find (fun m => String.eqb (generated_id m) id) movies with
      | Some m => Renders m
      | None => NotFound
      end
  end.

End WatchPage.

(* ================================================================== *)
(** * The route [/api/movies]: [fetchMoviesData] and [GET] *)
(* ================================================================== *)

Module MoviesRoute.

Open Scope string_scope.
Open Scope exn_scope.

Section Route.

(** The JSON values. *)
Context {J : Type}.

(** How the request to the bucket ends; the body of an answer with an
    ok status is parsed only after [fetchMoviesData] has returned. *)
Inductive Remote :=
| RemoteRejected (error : string)
| RemoteNotOk (status : string)
| RemoteOk (body : Exn.result J).

(** The local [movies.json]: unreadable, or read and parsed. *)
Inductive LocalFile :=
| Unreadable (error : string)
| FileContent (parsed : Exn.result J).

Record Server := {
  MOVIES_API_URL : option string;
  remote : Remote;
  localFile : LocalFile
}.

(** What the handler does besides answering. *)
Inductive Did :=
| FetchedRemote
| Warned (message : string)
| ReadLocalFile
| LoggedError (message : string).

(** A response made by [NextResponse.json]: the status and the body,
    which is the document or the object [{ error }]. *)
Inductive Body :=
| Document (j : J)
| ErrorObject (error : string).

Record Response := {
  status : nat;
  body : Body
}.

Definition did (d : Did) : M (list Did) unit := modify (fun log => app log [d]).

Definition of_result {A} (r : Exn.result A) : M (list Did) A :=
  match r with
  | Exn.Ok a => ret a
  | Exn.Throw e => throw e
  end.

Definition read_local (srv : Server) : M (list Did) J :=
  did ReadLocalFile ;;;
  match localFile srv with
  | Unreadable e => throw e
  | FileContent parsed => of_result parsed
  end.

(** [fetchMoviesData].  Inside [try] the function returns the promise
    of [response.json()] without awaiting it, so a body that does not
    parse is not caught there: the promise returned is rejected. *)
Definition fetchMoviesData (srv : Server) : M (list Did) J :=
  match MOVIES_API_URL srv with
  | Some url =>
      if nonempty url then
        returned <-
          try_catch
            (did FetchedRemote ;;;
             match remote srv with
             | RemoteRejected e => throw e
             | RemoteNotOk status =>
                 did (Warned ("Remote movies.json returned " ++ status
                              ++ ". Falling back to local file.")) ;;;
                 ret None
             | RemoteOk body => ret (Some body)
             end)
            (fun err =>
               did (Warned "Failed to fetch remote movies.json. Falling back to local file.") ;;;
               ret None) ;;
        match returned with
        | Some body => of_result body
        | None => read_local srv
        end
      else read_local srv
  | None => read_local srv
  end.

(** [GET]; the request is not looked at. *)
Definition GET (request : string) (srv : Server) : Response * list Did :=
  match fetchMoviesData srv [] with
  | (Exn.Ok movies, log) => ({| status := 200; body := Document movies |}, log)
  | (Exn.Throw e, log) =>
      ({| status := 500; body := ErrorObject "Failed to process request" |},
       app log [LoggedError "Error in GET handler:"])
  end.

Definition read_local_file (d : Did) : bool :=
  match d with ReadLocalFile => true | _ => false end.

Definition warned (d : Did) : bool :=
  match d with Warned _ => true | _ => false end.

(** ** The client of the route: [fetchMovieByVideoUrl] *)

(** [encodeURIComponent], and the text [`${response.status}
    ${response.statusText}`] of a response. *)
Variable encodeURIComponent : string -> string.
Variable status_line : Response -> string.

Definition ok (response : Response) : bool :=
  ((200 <=? status response) && (status response <=? 299))%nat.

(** [fetchMovieByVideoUrl], over the console; [fetch] answers a URL
    with a response of the kind above, whose body always parses, or
    rejects. *)
Definition fetchMovieByVideoUrl (fetch : string -> Exn.result Response)
           (videoURL : string) : M (list string) (option Body) :=
  try_catch
    (match fetch ("/api/movies?video=" ++ encodeURIComponent videoURL) with
     | Exn.Throw e => throw e
     | Exn.Ok response =>
         if negb (ok response) then
           if (status response =? 404)%nat then ret None
           else throw ("Error: Failed to fetch movie: " ++ status_line response)
         else ret (Some (body response))
     end)
    (fun error =>
       modify (fun console => app console ["Failed to fetch movie:"]) ;;;
       ret None).

(** The network when the URL is served by [GET] on [srv]. *)
Definition served_by (srv : Server) (url : string) : Exn.result Response :=
  Exn.Ok (fst (GET url srv)).

End Route.

Arguments Remote : clear implicits.
Arguments LocalFile : clear implicits.
Arguments Server : clear implicits.
Arguments Body : clear implicits.
Arguments Response : clear implicits.

End MoviesRoute.

(* ================================================================== *)
(** * Sessions of [streamAudioToText] *)
(* ================================================================== *)

Module StreamSession.

Import SpeechRecognitionService.
Open Scope string_scope.

(** The blob [convertToWav] makes of a buffer at the fixed rate. *)
Definition wav_of (inputData : list number) : Blob :=
  wav_header 16000 (length inputData)
  ++ wav_data (map (fun x => ToInt16 (quantize x)) inputData).

(** The request did not bring a transcription. *)
Definition failed (reply : TranscribeReply) : bool :=
  match reply with ReplyOk _ _ => false | _ => true end.

(** Rounds of one buffer delivered and the request it starts ending. *)
Definition rounds_events (rounds : list (list number * TranscribeReply))
  : list Event :=
  flat_map (fun r => [AudioProcess (fst r); RequestEnds (snd r)]) rounds.

(** What [onTranscription] is meant to receive: text that is not
    empty, has no white space at either end and no capital. *)
Definition forwarded_form (t : string) : Prop :=
  nonempty t = true /\ trim t = t /\ toLowerCase t = t.

End StreamSession.

(* ================================================================== *)
(** * Properties *)
(* ================================================================== *)

(** ** Strings *)

Section StringFacts.

Open Scope string_scope.

Lemma startsWith_spec (s p : string) :
  startsWith s p = true <-> exists rest, s = p ++ rest.
Proof.
  revert s; induction p as [|a p IH]; intros s; simpl.
  - split; [intros _; exists s; reflexivity | reflexivity].
  - destruct s as [|b s]; simpl.
    + split; [discriminate | intros [r Hr]; discriminate].
    + destruct (Ascii.eqb_spec a b) as [->|Hne].
      * rewrite IH. split; intros [r Hr]; exists r; congruence.
      * split; [discriminate | intros [r Hr]; congruence].
Qed.

(** [includes] is containment as a contiguous substring. *)
Lemma includes_spec (s sub : string) :
  includes s sub = true <-> exists before rest, s = before ++ sub ++ rest.
Proof.
  induction s as [|c s IH]; simpl.
  - destruct (startsWith "" sub) eqn:E.
    + apply startsWith_spec in E as [r Hr].
      split; [intros _; exists "", r; exact Hr | reflexivity].
    + split; [discriminate|].
      intros [[|b before] [r Hr]]; [|discriminate].
      simpl in Hr. assert (startsWith "" sub = true) as E'
        by (apply startsWith_spec; eauto). congruence.
  - destruct (startsWith (String c s) sub) eqn:E.
    + apply startsWith_spec in E as [r Hr].
      split; [intros _; exists "", r; exact Hr | reflexivity].
    + rewrite IH. split.
      * intros (before & r & ->). exists (String c before), r. reflexivity.
      * intros ([|b before] & r & Hr); simpl in Hr.
        -- assert (startsWith (String c s) sub = true) as E'
             by (apply startsWith_spec; eauto). congruence.
        -- injection Hr as -> ->. eauto.
Qed.

Lemma lower_char_idem (c : ascii) : lower_char (lower_char c) = lower_char c.
Proof.
  destruct c as [[] [] [] [] [] [] [] []]; vm_compute; reflexivity.
Qed.

Lemma lower_char_not_space (c : ascii) :
  is_space c = false -> is_space (lower_char c) = false.
Proof.
  destruct c as [[] [] [] [] [] [] [] []]; vm_compute; congruence.
Qed.

Lemma toLowerCase_idem (s : string) : toLowerCase (toLowerCase s) = toLowerCase s.
Proof.
  induction s as [|c s IH]; simpl; [reflexivity|].
  now rewrite lower_char_idem, IH.
Qed.

Lemma toLowerCase_app (s t : string) :
  toLowerCase (s ++ t) = toLowerCase s ++ toLowerCase t.
Proof. induction s as [|c s IH]; simpl; congruence. Qed.

Lemma no_space_app (s t : string) :
  no_space (s ++ t) = no_space s && no_space t.
Proof.
  induction s as [|c s IH]; simpl; [reflexivity|].
  rewrite IH. now rewrite andb_assoc.
Qed.

Lemma replace_space_runs_from_no_space (b : bool) (rep s : string) :
  no_space rep = true -> no_space (replace_space_runs_from b rep s) = true.
Proof.
  intros Hrep. revert b; induction s as [|c s IH]; intros b; simpl; [reflexivity|].
  destruct (is_space c) eqn:Ec.
  - destruct b; [apply IH|]. rewrite no_space_app, Hrep. apply IH.
  - simpl. rewrite Ec. apply IH.
Qed.

(** Lower-casing commutes with the replacement when the replacement
    text is in lower case already. *)
Lemma replace_space_runs_from_lower (b : bool) (rep s : string) :
  toLowerCase rep = rep ->
  toLowerCase (replace_space_runs_from b rep (toLowerCase s))
  = replace_space_runs_from b rep (toLowerCase s).
Proof.
  intros Hrep. revert b; induction s as [|c s IH]; intros b; simpl; [reflexivity|].
  destruct (is_space (lower_char c)) eqn:Ec.
  - destruct b; [apply IH|]. now rewrite toLowerCase_app, Hrep, IH.
  - simpl. now rewrite lower_char_idem, IH.
Qed.

Lemma is_space_lower_char (c : ascii) : is_space (lower_char c) = is_space c.
Proof.
  destruct c as [[] [] [] [] [] [] [] []]; vm_compute; reflexivity.
Qed.

Lemma no_space_lower (s : string) : no_space (toLowerCase s) = no_space s.
Proof.
  induction s as [|c s IH]; simpl; [reflexivity|].
  now rewrite is_space_lower_char, IH.
Qed.

Lemma all_space_lower (s : string) : all_space (toLowerCase s) = all_space s.
Proof.
  induction s as [|c s IH]; simpl; [reflexivity|].
  now rewrite is_space_lower_char, IH.
Qed.

Lemma starts_with_space_lower (s : string) :
  starts_with_space (toLowerCase s) = starts_with_space s.
Proof. destruct s; simpl; [reflexivity | apply is_space_lower_char]. Qed.

Lemma append_empty_r (s : string) : s ++ "" = s.
Proof. induction s as [|c s IH]; simpl; [reflexivity | now rewrite IH]. Qed.

(** A stretch without white space is copied. *)
Lemma replace_space_runs_word (rep w t : string) :
  no_space w = true ->
  replace_space_runs_from false rep (w ++ t)
  = w ++ replace_space_runs_from false rep t.
Proof.
  induction w as [|c w IH]; simpl; [reflexivity|].
  destruct (is_space c); simpl; [discriminate|].
  intros H. now rewrite IH.
Qed.

(** Inside a run, further white space adds nothing. *)
Lemma replace_space_runs_spaces (rep sp t : string) :
  all_space sp = true ->
  replace_space_runs_from true rep (sp ++ t) = replace_space_runs_from true rep t.
Proof.
  induction sp as [|c sp IH]; simpl; [reflexivity|].
  destruct (is_space c); simpl; [exact IH | discriminate].
Qed.

(** A run ends where the text goes on without white space or ends. *)
Lemma replace_space_runs_head (rep t : string) :
  starts_with_space t = false ->
  replace_space_runs_from true rep t = replace_space_runs_from false rep t.
Proof.
  destruct t as [|c t]; simpl; [reflexivity|]. now intros ->.
Qed.

(** The replacement, run by run: a stretch without white space, then a
    whole run of white space, then the rest. *)
Lemma replace_space_runs_run (rep w sp rest : string) :
  no_space w = true -> all_space sp = true -> sp <> "" ->
  starts_with_space rest = false ->
  replace_space_runs rep (w ++ sp ++ rest)
  = w ++ rep ++ replace_space_runs rep rest.
Proof.
  intros Hw Hsp Hne Hrest. unfold replace_space_runs.
  rewrite replace_space_runs_word by exact Hw. f_equal.
  destruct sp as [|c sp]; [now contradiction Hne|].
  simpl in Hsp |- *. destruct (is_space c); [|discriminate]. simpl in Hsp.
  f_equal. rewrite replace_space_runs_spaces by exact Hsp.
  now apply replace_space_runs_head.
Qed.

End StringFacts.

(** ** The mode detector *)

Section BrowserSupportFacts.

Import BrowserSupport.
Open Scope string_scope.

Lemma append_cancel (p a b : string) : p ++ a = p ++ b -> a = b.
Proof. induction p as [|c p IH]; simpl; [auto | intros H; injection H; auto]. Qed.

Lemma browser_with_flags (hasNative hasRecorder secure : bool) :
  let r := detectBrowserSupport (browser_with hasNative hasRecorder secure) in
  hasNativeSpeechRecognition r = hasNative
  /\ hasMediaRecorder r = hasRecorder
  /\ canUsePolyfill r = secure.
Proof. destruct hasNative, hasRecorder, secure; vm_compute; auto. Qed.

(** C1.  Whatever the browser shows, [detectBrowserSupport] returns a
    record (it is a total function) whose [recommendedMode] is the one
    the priority policy picks from the record's own three flags: native
    when the native constructor is there; otherwise server when media
    recording and a secure context are both there; otherwise polyfill,
    and with the degraded message when the context is not secure.
    Every one of the eight combinations of the flags is shown by some
    browser, and the mode is one of the three. *)
Theorem detectBrowserSupport_follows_policy :
  (forall w : Browser,
      let r := detectBrowserSupport w in
      recommendedMode r
      = policy (hasNativeSpeechRecognition r) (hasMediaRecorder r) (canUsePolyfill r)
      /\ (recommendedMode r = native \/ recommendedMode r = server
          \/ recommendedMode r = polyfill)
      /\ (hasNativeSpeechRecognition r = true -> recommendedMode r = native)
      /\ (hasNativeSpeechRecognition r = false -> hasMediaRecorder r = true ->
          canUsePolyfill r = true -> recommendedMode r = server)
      /\ (hasNativeSpeechRecognition r = false -> hasMediaRecorder r = false ->
          canUsePolyfill r = true ->
          recommendedMode r = polyfill
          /\ supportMessage r <> degraded_message (browserName r))
      /\ (hasNativeSpeechRecognition r = false -> canUsePolyfill r = false ->
          recommendedMode r = polyfill
          /\ supportMessage r = degraded_message (browserName r)))
  /\ (forall hasNative hasRecorder secure : bool,
         let r := detectBrowserSupport (browser_with hasNative hasRecorder secure) in
         hasNativeSpeechRecognition r = hasNative
         /\ hasMediaRecorder r = hasRecorder
         /\ canUsePolyfill r = secure
         /\ recommendedMode r = policy hasNative hasRecorder secure).
Proof.
  split.
  - intros w r. subst r. unfold detectBrowserSupport, policy, degraded_message.
    destruct (window_SpeechRecognition w || window_webkitSpeechRecognition w) eqn:En;
      destruct (navigator_mediaDevices w && mediaDevices_getUserMedia w
                && MediaRecorder_in_window w) eqn:Em;
      destruct (String.eqb (location_protocol w) "https:"
                || String.eqb (location_hostname w) "localhost"
                || String.eqb (location_hostname w) "127.0.0.1") eqn:Es;
      cbn [hasNativeSpeechRecognition hasMediaRecorder canUsePolyfill browserName
           recommendedMode supportMessage andb];
      repeat split; auto; try discriminate; try congruence.
    all: try (intros _ _ _; split; [reflexivity|]).
    all: try (intro Habs; apply append_cancel in Habs; discriminate).
  - intros a b c r. subst r.
    destruct (browser_with_flags a b c) as (H1 & H2 & H3).
    repeat split; auto.
    destruct a, b, c; reflexivity.
Qed.

Lemma detectBrowserSupport_follows_policy_witness :
  recommendedMode (detectBrowserSupport (browser_with false true true)) = server.
Proof.
  destruct (proj1 detectBrowserSupport_follows_policy (browser_with false true true))
    as (_ & _ & _ & Hserver & _).
  apply Hserver; reflexivity.
Defined.

End BrowserSupportFacts.

(** ** The command dispatcher *)

Section DispatcherFacts.

Import VideoPlayer.
Open Scope string_scope.
Open Scope list_scope.

Lemma note_matches_app (l1 l2 : list string) (p : Player) :
  note_matches l2 (note_matches l1 p) = note_matches (l1 ++ l2) p.
Proof. unfold note_matches; simpl. now rewrite app_assoc. Qed.

Lemma note_matches_nil (p : Player) : note_matches [] p = p.
Proof. destruct p; unfold note_matches; simpl. now rewrite app_nil_r. Qed.

(** When no predicate of [l] holds, [some] visits all of [l] and runs
    no action. *)
Lemma Array_some_no_match (command : string) (l : list VoiceCommand) (p : Player) :
  Forall (fun c => matches c command = false) l ->
  Array_some (try_command command) l p = (false, note_matches (map name l) p).
Proof.
  intros H; revert p; induction H as [|c l Hc _ IH]; intros p; simpl.
  - now rewrite note_matches_nil.
  - unfold try_command at 1. rewrite Hc. rewrite IH.
    unfold note_match. now rewrite note_matches_app.
Qed.

(** First match wins: the predicates before the first one that holds
    are evaluated, then that one, its action runs, and nothing after it
    is looked at. *)
Lemma Array_some_first_match (command : string) (before after : list VoiceCommand)
      (c : VoiceCommand) (p : Player) :
  Forall (fun c' => matches c' command = false) before ->
  matches c command = true ->
  Array_some (try_command command) (before ++ c :: after) p
  = (true, action c (note_action (name c)
                       (note_matches (map name before ++ [name c]) p))).
Proof.
  intros H Hc; revert p; induction H as [|c' l Hc' _ IH]; intros p; simpl.
  - unfold try_command. now rewrite Hc.
  - unfold try_command at 1. rewrite Hc'. rewrite IH.
    unfold note_match. now rewrite note_matches_app.
Qed.

(** C2.  With a mounted media element, dispatching "please play the
    movie" evaluates the predicate of play only, invokes the action of
    play once and no other action: the element gets one [play()], the
    playing flag is set, the subtitle flag and the position stay.  In
    general, when [c] is the first entry of the ordered list
    [play; pause; skipIntro; subtitlesOn; subtitlesOff] whose predicate
    holds on the transcript, the dispatch evaluates the predicates up
    to [c] and no later one, and runs the action of [c] alone. *)
Theorem handleCommand_first_match_wins :
  (forall (v : Video) (playing subs : bool),
      handleCommand "please play the movie" (mounted v playing subs)
      = {| videoRef := Some {| paused := false; currentTime := currentTime v;
                               mediaOps := mediaOps v ++ [MediaPlay] |};
           isPlaying := true; showSubtitles := subs;
           matchEvaluated := ["play"]; actionsInvoked := ["play"] |})
  /\ VOICE_COMMANDS = [play; pause; skipIntro; subtitlesOn; subtitlesOff]
  /\ (forall (command : string) (p : Player) (v : Video)
             (before after : list VoiceCommand) (c : VoiceCommand),
         videoRef p = Some v ->
         VOICE_COMMANDS = before ++ c :: after ->
         Forall (fun c' => matches c' command = false) before ->
         matches c command = true ->
         let q := handleCommand command p in
         q = action c (note_action (name c)
                         (note_matches (map name before ++ [name c]) p))
         /\ matchEvaluated q = matchEvaluated p ++ map name before ++ [name c]
         /\ actionsInvoked q = actionsInvoked p ++ [name c]).
Proof.
  split; [|split]; [reflexivity | reflexivity |].
  intros command p v before after c Hv Hlist Hbefore Hc q. subst q.
  unfold handleCommand. rewrite Hv, Hlist.
  rewrite (Array_some_first_match command before after c p Hbefore Hc). simpl.
  split; [reflexivity|].
  assert (In c VOICE_COMMANDS) as Hin by (rewrite Hlist; apply in_elt).
  simpl in Hin.
  destruct Hin as [<-|[<-|[<-|[<-|[<-|[]]]]]]; simpl; auto.
Qed.

Lemma handleCommand_first_match_wins_witness :
  let p := mounted {| paused := false; currentTime := of_Z 10; mediaOps := [] |}
                   true false in
  actionsInvoked (handleCommand "pause it" p) = ["pause"]
  /\ matchEvaluated (handleCommand "pause it" p) = ["play"; "pause"].
Proof.
  intros p.
  destruct (proj2 (proj2 handleCommand_first_match_wins) "pause it" p
              {| paused := false; currentTime := of_Z 10; mediaOps := [] |}
              [play] [skipIntro; subtitlesOn; subtitlesOff] pause)
    as (_ & Hm & Ha).
  - reflexivity.
  - reflexivity.
  - repeat constructor.
  - reflexivity.
  - split; [exact Ha | exact Hm].
Defined.

(** C8.  A transcript that contains none of "play", "pause",
    "skip intro", "subtitles on", "subtitles off" leaves the playback
    state as it was: the media element (its flags, its position and
    the operations invoked on it), the playing flag and the subtitle
    flag are unchanged, and no action was invoked. *)
Theorem handleCommand_no_match_unchanged (command : string) (p : Player) :
  includes command "play" = false ->
  includes command "pause" = false ->
  includes command "skip intro" = false ->
  includes command "subtitles on" = false ->
  includes command "subtitles off" = false ->
  playback_unchanged p (handleCommand command p).
Proof.
  intros H1 H2 H3 H4 H5. unfold handleCommand.
  destruct (videoRef p) eqn:Hv; [|repeat split; reflexivity].
  rewrite Array_some_no_match by (repeat constructor; assumption).
  repeat split; simpl; congruence.
Qed.

Lemma handleCommand_no_match_unchanged_witness :
  playback_unchanged
    (mounted {| paused := false; currentTime := of_Z 10; mediaOps := [MediaPlay] |}
             true true)
    (handleCommand "what is the weather"
       (mounted {| paused := false; currentTime := of_Z 10; mediaOps := [MediaPlay] |}
                true true)).
Proof. apply handleCommand_no_match_unchanged; reflexivity. Defined.

End DispatcherFacts.

(** ** Movies and the content carousel *)

Section MoviesFacts.

Import MoviesApi ContentCarousel.
Open Scope string_scope.
Open Scope list_scope.

(** C10.  The id of the content made from a movie is its title in
    lower case with every run of white space replaced by one hyphen:
    it is a function of the title alone, it holds no white space and
    no capital letter, and the titles "Foo Bar" and "foo-bar" both
    give "foo-bar".  [mapMovieToContent] is total: it returns a record
    for every movie, whatever the title.  Run by run: a title without
    white space gives its lower case; and when a title is a stretch
    without white space, then a whole run of white space, then a rest,
    its id is the lower case of the stretch, one hyphen, and what the
    rest gives.  So a run at the start or at the end of the title
    gives a hyphen too: " Foo Bar" gives "-foo-bar" and "Foo   Bar "
    gives "foo-bar-". *)
Theorem mapMovieToContent_id :
  (forall m : Movie,
      id (mapMovieToContent m) = replace_space_runs "-" (toLowerCase (title m))
      /\ no_space (id (mapMovieToContent m)) = true
      /\ toLowerCase (id (mapMovieToContent m)) = id (mapMovieToContent m))
  /\ (forall m1 m2 : Movie,
         title m1 = title m2 -> id (mapMovieToContent m1) = id (mapMovieToContent m2))
  /\ (forall m1 m2 : Movie,
         title m1 = "Foo Bar" -> title m2 = "foo-bar" ->
         id (mapMovieToContent m1) = "foo-bar"
         /\ id (mapMovieToContent m2) = "foo-bar")
  /\ (forall m : Movie,
         no_space (title m) = true ->
         id (mapMovieToContent m) = toLowerCase (title m))
  /\ (forall (m rest : Movie) (word spaces : string),
         title m = (word ++ spaces ++ title rest)%string ->
         no_space word = true ->
         all_space spaces = true -> spaces <> "" ->
         starts_with_space (title rest) = false ->
         id (mapMovieToContent m)
         = (toLowerCase word ++ "-" ++ id (mapMovieToContent rest))%string)
  /\ (forall m1 m2 : Movie,
         title m1 = " Foo Bar" -> title m2 = "Foo   Bar " ->
         id (mapMovieToContent m1) = "-foo-bar"
         /\ id (mapMovieToContent m2) = "foo-bar-").
Proof.
  split; [|split; [|split; [|split; [|split]]]].
  - intros m. simpl. split; [reflexivity|]. split.
    + apply replace_space_runs_from_no_space. reflexivity.
    + apply replace_space_runs_from_lower. reflexivity.
  - intros m1 m2 H. simpl. now rewrite H.
  - intros m1 m2 H1 H2. simpl. rewrite H1, H2. split; reflexivity.
  - intros m Hns. cbn [id mapMovieToContent]. unfold replace_space_runs.
    pose proof (replace_space_runs_word "-" (toLowerCase (title m)) "") as Hw.
    rewrite append_empty_r in Hw. rewrite Hw by now rewrite no_space_lower.
    apply append_empty_r.
  - intros m rest word spaces Ht Hw Hsp Hne Hrest. cbn [id mapMovieToContent].
    rewrite Ht, !toLowerCase_app.
    apply replace_space_runs_run.
    + now rewrite no_space_lower.
    + now rewrite all_space_lower.
    + destruct spaces; [now contradiction Hne | discriminate].
    + now rewrite starts_with_space_lower.
  - intros m1 m2 H1 H2. simpl. rewrite H1, H2. split; reflexivity.
Qed.

Lemma mapMovieToContent_id_witness :
  let a := {| title := "Foo Bar"; videoURL := "/a.mp4"; year := of_Z 2020;
              rating := of_Z 8; duration := "1h"; cast := []; thumbnail := "/a.jpg";
              subtitleUrl := None; description := "first" |} in
  let b := {| title := "foo-bar"; videoURL := "/b.mp4"; year := of_Z 1999;
              rating := of_Z 5; duration := "2h"; cast := ["x"]; thumbnail := "/b.jpg";
              subtitleUrl := Some "/b.vtt"; description := "second" |} in
  let c := {| title := "Bar"; videoURL := "/c.mp4"; year := of_Z 2001;
              rating := of_Z 6; duration := "3h"; cast := []; thumbnail := "/c.jpg";
              subtitleUrl := None; description := "third" |} in
  id (mapMovieToContent a) = id (mapMovieToContent b)
  /\ id (mapMovieToContent a) = ("foo" ++ "-" ++ id (mapMovieToContent c))%string
  /\ id (mapMovieToContent c) = "bar".
Proof.
  intros a b c.
  destruct mapMovieToContent_id as (_ & _ & Hex & Hword & Hrun & _).
  destruct (Hex a b eq_refl eq_refl) as [H1 H2].
  split; [now rewrite H1, H2|]. split.
  - apply (Hrun a c "Foo" " "); try reflexivity. discriminate.
  - apply (Hword c). reflexivity.
Defined.

Lemma sort_insert_length {A} (f : A -> A -> number) (x : A) (l : list A) :
  length (sort_insert f x l) = S (length l).
Proof.
  induction l as [|y r IH]; cbn [sort_insert]; [reflexivity|].
  destruct (gt (f x y) (of_Z 0)); cbn [length]; [now rewrite IH | reflexivity].
Qed.

Lemma Array_sort_length {A} (f : A -> A -> number) (l : list A) :
  length (Array_sort f l) = length l.
Proof.
  induction l as [|x r IH]; simpl; [reflexivity|].
  now rewrite sort_insert_length, IH.
Qed.

(** Sorting rearranges: every element stays, as often as before. *)
Lemma sort_insert_perm {A} (f : A -> A -> number) (x : A) (l : list A) :
  sort_insert f x l ≡ₚ x :: l.
Proof.
  induction l as [|y r IH]; cbn [sort_insert]; [reflexivity|].
  destruct (gt (f x y) (of_Z 0)); [|reflexivity].
  rewrite IH. apply Permutation_swap.
Qed.

Lemma Array_sort_perm {A} (f : A -> A -> number) (l : list A) :
  Array_sort f l ≡ₚ l.
Proof.
  induction l as [|x r IH]; simpl; [reflexivity|].
  now rewrite sort_insert_perm, IH.
Qed.

Lemma filterContent_new_releases (allContent : list Content) :
  filterContent "new releases" allContent
  = slice0 10 (Array_sort by_year allContent).
Proof. reflexivity. Qed.

Lemma new_releases_at_most_10 (allContent : list Content) :
  (length (filterContent "new releases" allContent) <= 10)%nat.
Proof.
  rewrite filterContent_new_releases. unfold slice0. rewrite length_take. lia.
Qed.

Lemma new_releases_sublist (allContent : list Content) :
  filterContent "new releases" allContent ⊆ allContent.
Proof.
  rewrite filterContent_new_releases. unfold slice0.
  intros c Hc. apply (subseteq_take 10) in Hc.
  now rewrite Array_sort_perm in Hc.
Qed.

(** [fetchMovies] never throws: it resolves to the movies of a
    well-formed answer and to the empty list otherwise. *)
Lemma fetchMovies_result (reply : MoviesReply) (console : list string) :
  fst (fetchMovies reply console) = Exn.Ok (movies_of reply).
Proof. destruct reply; reflexivity. Qed.

(** What a run of the effect leaves, by the list [fetchMovies] gave. *)
Lemma run_effect_no_movies (query : string) (reply : MoviesReply) (c : Carousel) :
  movies_of reply = [] ->
  run_effect query reply c
  = if (retryCount c <? 3)%nat
    then {| items := items c; isLoading := false; error := None;
            retryCount := retryCount c; retry_timers := S (retry_timers c);
            carousel_console := console_after reply c |}
    else {| items := []; isLoading := false; error := Some "No movies available.";
            retryCount := retryCount c; retry_timers := retry_timers c;
            carousel_console := console_after reply c |}.
Proof.
  intros H. unfold run_effect, exec, fetchContent, finally, try_catch, console_after.
  unfold Exn.bind at 1. unfold modify at 1. unfold Exn.bind at 1. unfold modify at 1.
  unfold Exn.bind at 1. unfold await_fetchMovies.
  pose proof (fetchMovies_result reply (carousel_console (setError None (setIsLoading true c)))) as Hr.
  cbn [carousel_console setError setIsLoading] in *.
  destruct (fetchMovies reply (carousel_console c)) as [r console]. simpl in Hr. subst r.
  rewrite H. cbn.
  change (retryCount c <? 3)%nat with (retryCount c <=? 2)%nat.
  destruct (retryCount c <=? 2)%nat; reflexivity.
Qed.

Lemma run_effect_movies (query : string) (m : Movie) (movies : list Movie) (c : Carousel) :
  run_effect query (MoviesArray (m :: movies)) c
  = let filteredContent := filterContent query (map mapMovieToContent (m :: movies)) in
    if (length filteredContent =? 0)%nat
    then {| items := []; isLoading := false;
            error := Some "No results found for this category.";
            retryCount := retryCount c; retry_timers := retry_timers c;
            carousel_console := carousel_console c |}
    else {| items := filteredContent; isLoading := false; error := None;
            retryCount := retryCount c; retry_timers := retry_timers c;
            carousel_console := carousel_console c |}.
Proof.
  unfold run_effect, exec, fetchContent, finally, try_catch.
  cbn -[filterContent mapMovieToContent].
  destruct (length (filterContent query (mapMovieToContent m :: map mapMovieToContent movies)) =? 0)%nat;
    reflexivity.
Qed.



Lemma sort_by_year_three (c1 c2 c3 : Content) :
  c_year c1 = of_Z 2020 -> c_year c2 = of_Z 2023 -> c_year c3 = of_Z 1999 ->
  Array_sort by_year [c1; c2; c3] = [c2; c1; c3].
Proof.
  destruct c1, c2, c3; simpl; intros -> -> ->. reflexivity.
Qed.

(** C9.  For the query "new releases", movies of the years 2020, 2023,
    1999 (in this order) are shown in the order 2023, 2020, 1999; and
    whatever the movies, the result of the query has at most 10 items,
    and so has what the carousel holds after the run when it held at
    most 10 before (it holds none at first). *)
Theorem new_releases_sorted_and_capped :
  (forall (m1 m2 m3 : Movie) (c : Carousel),
      year m1 = of_Z 2020 -> year m2 = of_Z 2023 -> year m3 = of_Z 1999 ->
      let c' := run_effect "new releases" (MoviesArray [m1; m2; m3]) c in
      items c' = map mapMovieToContent [m2; m1; m3]
      /\ map c_year (items c') = map of_Z [2023; 2020; 1999]%Z
      /\ render c' = Cards (map mapMovieToContent [m2; m1; m3]))
  /\ (forall movies : list Movie,
         (length (filterContent "new releases" (map mapMovieToContent movies)) <= 10)%nat)
  /\ (forall (movies : list Movie) (c : Carousel),
         (length (items c) <= 10)%nat ->
         (length (items (run_effect "new releases" (MoviesArray movies) c)) <= 10)%nat).
Proof.
  split; [|split].
  - intros m1 m2 m3 c H1 H2 H3 c'. subst c'.
    rewrite run_effect_movies. rewrite filterContent_new_releases.
    cbn [map].
    rewrite (sort_by_year_three (mapMovieToContent m1) (mapMovieToContent m2)
               (mapMovieToContent m3) H1 H2 H3).
    cbn. rewrite H1, H2, H3. repeat split; reflexivity.
  - intros movies. apply new_releases_at_most_10.
  - intros [|m movies] c Hc.
    + rewrite run_effect_no_movies by reflexivity.
      destruct (retryCount c <? 3)%nat; simpl; [exact Hc | lia].
    + rewrite run_effect_movies. cbv zeta.
      pose proof (new_releases_at_most_10 (map mapMovieToContent (m :: movies))).
      destruct (length _ =? 0)%nat; simpl; [lia | assumption].
Qed.

Lemma new_releases_sorted_and_capped_witness :
  map (fun c => truncate (c_year c))
      (items (run_effect "new releases"
                (MoviesArray [movie_of_year 2020; movie_of_year 2023; movie_of_year 1999])
                initial))
  = [2023; 2020; 1999]%Z.
Proof.
  destruct (proj1 new_releases_sorted_and_capped
              (movie_of_year 2020) (movie_of_year 2023) (movie_of_year 1999) initial
              eq_refl eq_refl eq_refl) as (H & _ & _).
  rewrite H. reflexivity.
Defined.




End MoviesFacts.

(** ** The recognition adapter and the hook *)

Section AdapterFacts.

Import SpeechRecognitionPolyfill UseVoiceControl.
Open Scope string_scope.
Open Scope list_scope.

Context {S : Type}.

(** [start] on an adapter that is listening returns at its first
    statement. *)
Lemma start_when_listening (w : World S) :
  isListening (this w) = true -> start w = (Exn.Ok tt, w).
Proof.
  intros H. unfold start, Exn.bind, get. now rewrite H.
Qed.

Lemma construct_server (opts : Options S) (pg : Page) (c : S) (log : list Effect) :
  hasNativeSupport pg = false -> hasMediaRecorderSupport pg = true ->
  construct opts pg c log
  = {| page := pg;
       this := {| options := opts; recognition := None; mediaRecorder := None;
                  isListening := false; fallbackMode := server |};
       client := c;
       effects := log ++ [ConsoleLog "Using server-side speech recognition"] |}.
Proof.
  intros Hn Hm. unfold construct, exec, detectBestMode, Exn.bind, get. cbn.
  rewrite Hn, Hm. reflexivity.
Qed.

(** In server mode [start] reaches the two statements after the
    [switch] without having done anything. *)
Lemma start_server (w : World S) :
  isListening (this w) = false -> fallbackMode (this w) = server ->
  start w
  = (Exn.Ok tt,
     {| page := page w;
        this := set_isListening true (this w);
        client := match onStart (options (this w)) with
                  | Some f => f (client w)
                  | None => client w
                  end;
        effects := effects w ++ match onStart (options (this w)) with
                                | Some _ => [Call_onStart]
                                | None => []
                                end |}).
Proof.
  intros Hl Hm. unfold start, Exn.bind at 1, get. rewrite Hl.
  unfold try_catch. rewrite Hm. unfold call_onStart. cbn.
  destruct (onStart (options (this w))); cbn.
  - reflexivity.
  - destruct w; cbn. now rewrite app_nil_r.
Qed.

End AdapterFacts.

Section SessionFacts.

Import SpeechRecognitionPolyfill UseVoiceControl.
Open Scope string_scope.
Open Scope list_scope.

(** C3.  On a page without native speech recognition and with media
    recording the adapter is built in server mode, and its [start()]
    sets up no recognition backend: no recognition object and no media
    recorder exist afterwards, the page is untouched, and the only
    effect is the call of [onStart] (when one was supplied): no
    microphone stream is asked for, no recorder is made, no audio is
    sent.  Yet [isListening] is now true and [onStart] has run: asked
    through [isCurrentlyListening] and [getCurrentMode], the adapter
    answers that it is listening, in mode "server". *)
Theorem start_in_server_mode_has_no_backend
        (S : Type) (opts : Options S) (pg : Page) (c : S) (log : list Effect) :
  hasNativeSupport pg = false -> hasMediaRecorderSupport pg = true ->
  let w0 := construct opts pg c log in
  fallbackMode (this w0) = server
  /\ isListening (this w0) = false
  /\ exists w1 new,
      start w0 = (Exn.Ok tt, w1)
      /\ isListening (this w1) = true
      /\ recognition (this w1) = None
      /\ mediaRecorder (this w1) = None
      /\ page w1 = pg
      /\ effects w1 = effects w0 ++ new
      /\ Forall (fun e => backend_effect e = false) new
      /\ (forall f, onStart opts = Some f ->
                    new = [Call_onStart] /\ client w1 = f c)
      /\ isCurrentlyListening (this w1) = true
      /\ getCurrentMode (this w1) = "server".
Proof.
  intros Hn Hm w0. subst w0.
  rewrite (construct_server opts pg c log Hn Hm). cbn [this fallbackMode isListening].
  split; [reflexivity|]. split; [reflexivity|].
  eexists. eexists. rewrite start_server by reflexivity.
  split; [reflexivity|]. cbn.
  repeat (split; [reflexivity|]). split.
  - destruct (onStart opts); repeat constructor.
  - split; [|split; reflexivity]. intros f Hf. rewrite Hf. auto.
Qed.

Lemma start_in_server_mode_has_no_backend_witness :
  let w0 := construct (S:=unit)
              {| continuous := true; interimResults := false; lang := "en-US";
                 onResult := None; onError := None;
                 onStart := Some (fun u => u); onEnd := None |}
              recorder_only_page tt [] in
  fallbackMode (this w0) = server
  /\ exists w1, start w0 = (Exn.Ok tt, w1)
                /\ isListening (this w1) = true
                /\ recognition (this w1) = None
                /\ mediaRecorder (this w1) = None
                /\ effects w1 = effects w0 ++ [Call_onStart].
Proof.
  intros w0.
  destruct (start_in_server_mode_has_no_backend unit
              {| continuous := true; interimResults := false; lang := "en-US";
                 onResult := None; onError := None;
                 onStart := Some (fun u => u); onEnd := None |}
              recorder_only_page tt [] eq_refl eq_refl)
    as (Hmode & _ & w1 & new & Hs & Hl & Hr & Hmr & _ & He & _ & Hon & _).
  split; [exact Hmode|]. exists w1.
  destruct (Hon (fun u => u) eq_refl) as [Hnew _]. rewrite Hnew in He.
  repeat (split; [assumption|]). exact He.
Defined.

(** C6.  [start()] on an adapter that is listening changes nothing and
    raises nothing: the world (page, adapter, client, effects) is the
    same, so no backend is created a second time; in particular a
    [start()] right after one that left the adapter listening leaves
    the state as that first one left it.  [startListening] of the
    hook, called while the hook or its adapter is listening, likewise
    leaves the session as it is. *)
Theorem start_twice_is_noop :
  (forall (S : Type) (w : World S),
      isListening (this w) = true -> start w = (Exn.Ok tt, w))
  /\ (forall (S : Type) (w w1 : World S) (r : Exn.result unit),
         start w = (r, w1) -> isListening (this w1) = true ->
         start w1 = (Exn.Ok tt, w1))
  /\ (forall (P : Type) (m : @Mounted P) (a : Adapter (Hook P)),
         speechRecognitionRef m = Some a ->
         hook_isListening (m_hook m) = true \/ isListening a = true ->
         same_session m (startListening m)).
Proof.
  split; [|split].
  - intros S w H. now apply start_when_listening.
  - intros S w w1 r _ H. now apply start_when_listening.
  - intros P m a Hr H. unfold startListening. rewrite Hr.
    destruct (hook_isListening (m_hook m)) eqn:Hh.
    + repeat split; reflexivity.
    + destruct H as [H|H]; [discriminate|].
      unfold on_adapter. rewrite start_when_listening by exact H.
      cbn. repeat split; auto.
Qed.

Lemma start_twice_is_noop_witness :
  let w0 := construct (S:=unit)
              {| continuous := true; interimResults := false; lang := "en-US";
                 onResult := None; onError := None; onStart := Some (fun u => u);
                 onEnd := None |}
              recorder_only_page tt [] in
  let w1 := snd (start w0) in
  isListening (this w1) = true /\ start w1 = (Exn.Ok tt, w1).
Proof.
  intros w0 w1. split; [reflexivity|].
  apply (proj1 start_twice_is_noop). reflexivity.
Defined.

End SessionFacts.

(** ** Rounding of binary64 products *)

Section RoundingFacts.

Open Scope Z_scope.

Lemma digits2_pos_log2 (p : positive) :
  Zpos (digits2_pos p) = Z.log2 (Zpos p) + 1.
Proof.
  induction p as [p IH|p IH|]; cbn [digits2_pos].
  - rewrite Pos2Z.inj_succ, IH.
    rewrite (Pos2Z.inj_xI p), Z.log2_succ_double by lia. lia.
  - rewrite Pos2Z.inj_succ, IH.
    rewrite (Pos2Z.inj_xO p), Z.log2_double by lia. lia.
  - reflexivity.
Qed.

(** A mantissa below [2^k] has at most [k] digits. *)
Lemma digits2_pos_le (p : positive) (k : Z) :
  0 <= k -> Zpos p < 2 ^ k -> Zpos (digits2_pos p) <= k.
Proof.
  intros Hk H. rewrite digits2_pos_log2.
  apply Z.log2_lt_pow2 in H; lia.
Qed.

Lemma digits2_pos_lt_pow2 (p : positive) :
  Zpos p < 2 ^ Zpos (digits2_pos p).
Proof.
  rewrite digits2_pos_log2. apply Z.log2_lt_pow2; lia.
Qed.

(** One step of the right shift halves a mantissa that is not negative. *)
Lemma shr_1_m (r : shr_record) :
  0 <= shr_m r -> shr_m (shr_1 r) = shr_m r / 2.
Proof.
  destruct r as [m b s]; cbn [shr_m]. intros Hm.
  destruct m as [|[p|p|]|p]; cbn [shr_1 shr_m]; try lia.
  - reflexivity.
  - rewrite (Pos2Z.inj_xI p). apply Z.div_unique with 1; lia.
  - rewrite (Pos2Z.inj_xO p). apply Z.div_unique with 0; lia.
  - reflexivity.
Qed.

Lemma iter_shr_1_m (p : positive) :
  forall r : shr_record,
    0 <= shr_m r ->
    shr_m (SpecFloat.iter_pos shr_1 p r) = shr_m r / 2 ^ Zpos p.
Proof.
  assert (forall q : positive, 0 < 2 ^ Zpos q) as Hpow
    by (intros q; apply Z.pow_pos_nonneg; lia).
  induction p as [p IH|p IH|]; intros r Hr; cbn [SpecFloat.iter_pos].
  - pose proof (shr_1_m r Hr) as H1.
    assert (0 <= shr_m (shr_1 r)) as Hr1 by (rewrite H1; apply Z.div_pos; lia).
    pose proof (IH _ Hr1) as H2.
    assert (0 <= shr_m (SpecFloat.iter_pos shr_1 p (shr_1 r))) as Hr2
      by (rewrite H2; apply Z.div_pos; [lia | apply Hpow]).
    rewrite (IH _ Hr2), H2, H1.
    pose proof (Hpow p).
    rewrite !Z.div_div by lia.
    rewrite (Pos2Z.inj_xI p).
    replace (2 * Zpos p + 1) with (1 + Zpos p + Zpos p) by lia.
    rewrite !Z.pow_add_r by lia. f_equal. change (2 ^ 1) with 2. lia.
  - pose proof (IH _ Hr) as H1.
    assert (0 <= shr_m (SpecFloat.iter_pos shr_1 p r)) as Hr1
      by (rewrite H1; apply Z.div_pos; [lia | apply Hpow]).
    rewrite (IH _ Hr1), H1.
    pose proof (Hpow p).
    rewrite Z.div_div by lia.
    rewrite (Pos2Z.inj_xO p).
    replace (2 * Zpos p) with (Zpos p + Zpos p) by lia.
    rewrite Z.pow_add_r by lia. reflexivity.
  - rewrite shr_1_m by exact Hr. reflexivity.
Qed.

(** [shr] divides the mantissa by [2^n] and moves the exponent up by
    [n] when [n] is positive, and does nothing otherwise. *)
Lemma shr_spec (r : shr_record) (e n : Z) :
  0 <= shr_m r ->
  (0 < n -> shr_m (fst (shr r e n)) = shr_m r / 2 ^ n /\ snd (shr r e n) = e + n)
  /\ (n <= 0 -> shr r e n = (r, e)).
Proof.
  intros Hr. split; intros Hn.
  - destruct n as [|p|p]; try lia. cbn [shr fst snd].
    split; [now apply iter_shr_1_m | reflexivity].
  - destruct n as [|p|p]; try lia; reflexivity.
Qed.

Lemma round_nearest_even_bounds (m : Z) (l : location) :
  m <= round_nearest_even m l <= m + 1.
Proof.
  destruct l as [|[]]; cbn [round_nearest_even]; try lia.
  destruct (Z.even m); lia.
Qed.

(** The integer part of a magnitude does not grow when low bits of the
    mantissa are dropped. *)
Lemma shiftl_shr_le (m n e : Z) :
  0 <= m -> 0 < n -> e < 0 ->
  Z.shiftl (m / 2 ^ n) (e + n) <= Z.shiftl m e.
Proof.
  intros Hm Hn He.
  assert (0 < 2 ^ n) by (apply Z.pow_pos_nonneg; lia).
  assert (0 < 2 ^ (- e)) by (apply Z.pow_pos_nonneg; lia).
  rewrite (Z.shiftl_div_pow2 m e) by lia.
  destruct (Z_le_gt_dec (e + n) 0) as [Hle|Hgt].
  - rewrite Z.shiftl_div_pow2 by lia.
    assert (0 < 2 ^ (- (e + n))) by (apply Z.pow_pos_nonneg; lia).
    rewrite Z.div_div by lia.
    rewrite <- Z.pow_add_r by lia.
    replace (n + - (e + n)) with (- e) by lia. lia.
  - rewrite Z.shiftl_mul_pow2 by lia.
    assert (0 < 2 ^ (e + n)) by (apply Z.pow_pos_nonneg; lia).
    replace n with (- e + (e + n)) at 1 by lia.
    rewrite Z.pow_add_r by lia.
    rewrite <- Z.div_div by lia.
    rewrite Z.mul_comm. apply Z.mul_div_le. lia.
Qed.

(** The product of a magnitude below 1 and a constant of at most
    [K <= 2^15], rounded to binary64: its integer part is at most [K].
    The product is given exactly by mantissa [M] and exponent [E]. *)
Lemma binary_round_aux_bound (sx : bool) (M : positive) (E K : Z) :
  E < 0 -> 0 < K <= 32768 -> Zpos M < K * 2 ^ (- E) ->
  match binary_round_aux prec emax sx (Zpos M) E loc_Exact with
  | S754_finite s m e => s = sx /\ Z.shiftl (Zpos m) e <= K
  | _ => True
  end.
Proof.
  intros HE HK HM.
  assert (0 < 2 ^ (- E)) as HpowE by (apply Z.pow_pos_nonneg; lia).
  assert (Zpos (digits2_pos M) <= 15 - E) as Hdig.
  { apply digits2_pos_le; [lia|].
    replace (15 - E) with (15 + - E) by lia.
    rewrite Z.pow_add_r by lia. change (2 ^ 15) with 32768. nia. }
  unfold binary_round_aux, shr_fexp. cbn [Zdigits2 shr_record_of_loc].
  set (f := fexp prec emax (Zpos (digits2_pos M) + E)).
  assert (f < 0 /\ E <= f \/ f < E) as Hf by (unfold f, fexp, emin, prec, emax; lia).
  assert (f < 0) as Hf0 by (unfold f, fexp, emin, prec, emax; lia).
  assert (0 < 2 ^ (- f)) as Hpowf by (apply Z.pow_pos_nonneg; lia).
  pose proof (shr_spec {| shr_m := Zpos M; shr_r := false; shr_s := false |} E (f - E)
                ltac:(cbn; lia)) as [Hshift Hkeep].
  destruct (Z_lt_le_dec 0 (f - E)) as [Hn|Hn].
  - (* the product has more than 53 digits and is rounded *)
    destruct (Hshift Hn) as [Hm0 He1]. clear Hshift Hkeep.
    destruct (shr _ E (f - E)) as [r1 e1]. cbn [fst snd shr_m] in Hm0, He1.
    replace (E + (f - E)) with f in He1 by lia. subst e1.
    pose proof (round_nearest_even_bounds (shr_m r1) (loc_of_shr_record r1)) as Hrnd.
    set (m1 := round_nearest_even (shr_m r1) (loc_of_shr_record r1)) in *.
    assert (shr_m r1 < K * 2 ^ (- f)) as Hm0lt.
    { rewrite Hm0. apply Z.div_lt_upper_bound; [apply Z.pow_pos_nonneg; lia|].
      replace (2 ^ (f - E) * (K * 2 ^ (- f))) with (K * 2 ^ (- E)); [exact HM|].
      replace (- E) with ((f - E) + - f) by lia.
      rewrite Z.pow_add_r by lia. lia. }
    assert (0 <= shr_m r1)
      by (rewrite Hm0; apply Z.div_pos; [lia | apply Z.pow_pos_nonneg; lia]).
    assert (0 <= m1) as Hm1 by lia.
    assert (Z.shiftl m1 f <= K) as Hmag.
    { rewrite Z.shiftl_div_pow2 by lia.
      apply Z.div_le_upper_bound; [exact Hpowf | lia]. }
    pose proof (shr_spec {| shr_m := m1; shr_r := false; shr_s := false |} f
                  (fexp prec emax (Zdigits2 m1 + f) - f) ltac:(cbn; lia))
      as [Hshift2 Hkeep2].
    cbn [shr_record_of_loc].
    destruct (Z_lt_le_dec 0 (fexp prec emax (Zdigits2 m1 + f) - f)) as [Hn2|Hn2].
    + destruct (Hshift2 Hn2) as [Hm2 He2].
      destruct (shr _ f _) as [r2 e2]. cbn [fst snd shr_m] in Hm2, He2.
      destruct (shr_m r2) as [|m2|m2] eqn:Hr2; [exact I | | exact I].
      destruct (e2 <=? emax - prec)%Z; [|exact I].
      split; [reflexivity|]. rewrite Hm2, He2.
      etransitivity; [apply shiftl_shr_le; lia | exact Hmag].
    + rewrite (Hkeep2 Hn2). cbn [shr_m].
      destruct m1 as [|m|m] eqn:Em1; [exact I | | exact I].
      destruct (f <=? emax - prec)%Z; [|exact I].
      split; [reflexivity | exact Hmag].
  - (* the product fits: the result is the product itself *)
    rewrite (Hkeep Hn). cbn [shr_m loc_of_shr_record round_nearest_even Zdigits2
                             shr_record_of_loc].
    fold f. rewrite (Hkeep Hn). cbn [shr_m].
    destruct (E <=? emax - prec)%Z; [|exact I].
    split; [reflexivity|].
    rewrite Z.shiftl_div_pow2 by lia.
    apply Z.lt_le_incl, Z.div_lt_upper_bound; [exact HpowE | lia].
Qed.

End RoundingFacts.

Section QuantizeFacts.

Import SpeechRecognitionService.
Open Scope Z_scope.

Lemma clamp_cases (x : number) :
  is_nan x = false ->
  (clamp x = x /\ lt x (of_Z 1) = true /\ gt x (of_Z (-1)) = true)
  \/ clamp x = of_Z 1 \/ clamp x = of_Z (-1).
Proof.
  intros Hx. unfold clamp, Math_min. rewrite Hx.
  destruct (lt x (of_Z 1)) eqn:H1.
  - unfold Math_max. rewrite Hx.
    destruct (gt x (of_Z (-1))) eqn:H2; auto.
  - right; left. reflexivity.
Qed.

(** Comparing the other way round gives the opposite answer. *)
Lemma SFcompare_antisym (x y : number) :
  SFcompare y x = option_map CompOpp (SFcompare x y).
Proof.
  destruct x as [s|s| |s m e], y as [s'|s'| |s' m' e']; cbn;
    try reflexivity; try (destruct s; reflexivity);
    try (destruct s'; reflexivity); try (destruct s, s'; reflexivity).
  destruct s, s'; try reflexivity;
    rewrite (Z.compare_antisym e e');
    destruct (e ?= e') eqn:He; cbn; try reflexivity;
    rewrite (Pos.compare_cont_antisym m m' Eq); reflexivity.
Qed.

Lemma lt_gt_false (x y : number) : lt x y = true -> gt x y = false.
Proof.
  unfold lt, gt, SFltb. rewrite (SFcompare_antisym x y).
  destruct (SFcompare x y) as [[]|]; cbn; congruence.
Qed.

(** Two numbers that compare equal, one of them finite and not zero,
    are the same value. *)
Lemma SFcompare_Eq_finite (x : number) (s : bool) (m : positive) (e : Z) :
  SFcompare x (S754_finite s m e) = Some Eq -> x = S754_finite s m e.
Proof.
  destruct x as [s'|s'| |s' m' e']; cbn; try discriminate;
    try (destruct s; discriminate); try (destruct s'; discriminate).
  destruct s', s; try discriminate;
    destruct (e' ?= e) eqn:He; try discriminate;
    apply Z.compare_eq in He; subst e'; intros H;
    (assert (Pos.compare_cont Eq m' m = Eq) as Hm
       by (destruct (Pos.compare_cont Eq m' m); cbn in H; congruence));
    apply Pos.compare_eq in Hm; now subst.
Qed.

(** The clamp, case by case: a number between -1 and 1 is kept as it
    is, one below -1 becomes -1, one above 1 becomes 1, and NaN stays
    NaN. *)
Lemma clamp_inside (x : number) :
  le (of_Z (-1)) x = true -> le x (of_Z 1) = true -> clamp x = x.
Proof.
  intros Hlo Hhi.
  assert (is_nan x = false) as Hn by (destruct x; try reflexivity; discriminate Hhi).
  unfold clamp, Math_min. rewrite Hn.
  unfold le, lt, SFleb, SFltb in *.
  destruct (SFcompare x (of_Z 1)) as [[]|] eqn:H1; try discriminate Hhi.
  - apply SFcompare_Eq_finite in H1. subst x. reflexivity.
  - unfold Math_max. rewrite Hn. unfold gt, SFltb.
    destruct (SFcompare (of_Z (-1)) x) as [[]|] eqn:H2; try discriminate Hlo;
      [|reflexivity].
    rewrite SFcompare_antisym in H2.
    destruct (SFcompare x (of_Z (-1))) as [[]|] eqn:H3; try discriminate H2.
    apply SFcompare_Eq_finite in H3. now subst x.
Qed.

Lemma clamp_below (x : number) :
  lt x (of_Z (-1)) = true -> clamp x = of_Z (-1).
Proof.
  intros Hlt.
  assert (is_nan x = false) as Hn by (destruct x; try reflexivity; discriminate Hlt).
  assert (lt x (of_Z 1) = true) as H1.
  { destruct x as [s|s| |s m e]; try discriminate Hlt;
      destruct s; try discriminate Hlt; reflexivity. }
  unfold clamp, Math_min. rewrite Hn, H1.
  unfold Math_max. rewrite Hn. now rewrite (lt_gt_false _ _ Hlt).
Qed.

Lemma clamp_above (x : number) :
  gt x (of_Z 1) = true -> clamp x = of_Z 1.
Proof.
  intros Hgt.
  assert (is_nan x = false) as Hn by (destruct x; try reflexivity; discriminate Hgt).
  assert (lt x (of_Z 1) = false) as H1.
  { apply (lt_gt_false (of_Z 1) x) in Hgt. exact Hgt. }
  unfold clamp, Math_min. rewrite Hn, H1. reflexivity.
Qed.

Lemma clamp_nan (x : number) : is_nan x = true -> clamp x = S754_nan.
Proof. destruct x; try discriminate. reflexivity. Qed.

(** A valid binary64 number strictly between -1 and 1 has a magnitude
    [m * 2^e] with [m < 2^(-e)]. *)
Lemma below_one_mantissa (s : bool) (m : positive) (e : Z) :
  valid_binary prec emax (S754_finite s m e) = true ->
  lt (S754_finite s m e) (of_Z 1) = true ->
  gt (S754_finite s m e) (of_Z (-1)) = true ->
  e <= -52 /\ Zpos m < 2 ^ (- e).
Proof.
  intros Hv H1 H2.
  assert (Zpos (digits2_pos m) <= 53) as Hdig.
  { cbn [valid_binary] in Hv. unfold bounded, canonical_mantissa in Hv.
    apply andb_prop in Hv as [Hc _]. apply Z.eqb_eq in Hc.
    unfold fexp, emin, prec, emax in Hc. lia. }
  pose proof (digits2_pos_lt_pow2 m) as Hm.
  assert (Zpos m < 2 ^ 53) as Hm53.
  { eapply Z.lt_le_trans; [exact Hm|]. apply Z.pow_le_mono_r; lia. }
  assert (match (e ?= -52) with
          | Lt => True
          | Eq => Zpos m < 4503599627370496
          | Gt => False
          end) as Hcmp.
  { destruct s.
    - change (of_Z (-1)) with (S754_finite true 4503599627370496 (-52)) in H2.
      unfold gt, SFltb, SFcompare in H2.
      rewrite (Z.compare_antisym e (-52)) in H2.
      destruct (e ?= -52); cbn [CompOpp] in *; try discriminate; auto.
      rewrite Pos.compare_cont_spec in H2. cbn [Pos.switch_Eq] in H2.
      rewrite (Pos.compare_antisym m) in H2.
      apply Pos2Z.pos_lt_pos. unfold Pos.lt.
      destruct (m ?= 4503599627370496)%positive; cbn in H2; try discriminate; auto.
    - change (of_Z 1) with (S754_finite false 4503599627370496 (-52)) in H1.
      unfold lt, SFltb, SFcompare in H1.
      destruct (e ?= -52); try discriminate; auto.
      rewrite Pos.compare_cont_spec in H1. cbn [Pos.switch_Eq] in H1.
      apply Pos2Z.pos_lt_pos. unfold Pos.lt.
      destruct (m ?= 4503599627370496)%positive; try discriminate; auto. }
  destruct (Z.compare_spec e (-52)) as [->|Hlt|Hgt]; [| |contradiction].
  - split; [lia|]. exact Hcmp.
  - split; [lia|]. eapply Z.lt_le_trans; [exact Hm53|].
    apply Z.pow_le_mono_r; lia.
Qed.

Lemma ToInt16_of_int16 (x : number) :
  is_int16 (truncate x) -> ToInt16 x = truncate x.
Proof.
  unfold is_int16, ToInt16. intros H.
  destruct (Z.leb_spec 32768 (truncate x mod 65536)); Z.div_mod_to_equations; lia.
Qed.

Ltac eval_sample :=
  match goal with
  | |- is_int16 ?t => let v := eval vm_compute in t in
                      change t with v; unfold is_int16; lia
  end.

(** For a sample that is a binary64 value, the scaled value already
    lies within the Int16 range: its integer part needs no reduction
    modulo 2^16 when it is stored. *)
Lemma quantize_no_wrap (x : number) :
  valid_binary prec emax x = true -> is_int16 (truncate (quantize x)).
Proof.
  intros Hv. destruct (is_nan x) eqn:Hn.
  { destruct x; try discriminate. eval_sample. }
  destruct (clamp_cases x Hn) as [(Hc & H1 & H2) | [Hc | Hc]];
    unfold quantize; rewrite Hc; [|eval_sample|eval_sample].
  destruct x as [s|s| |s m e].
  - destruct s; eval_sample.
  - destruct s; vm_compute in H1, H2; discriminate.
  - discriminate.
  - destruct (below_one_mantissa s m e Hv H1 H2) as [He Hm].
    assert (0 < 2 ^ (- e)) by (apply Z.pow_pos_nonneg; lia).
    destruct s.
    + change (lt (S754_finite true m e) (of_Z 0)) with true. cbv iota.
      change (mul (S754_finite true m e) (of_Z 32768))
        with (binary_round_aux prec emax true (Zpos (m * 4503599627370496))
                               (e + -37) loc_Exact).
      pose proof (binary_round_aux_bound true (m * 4503599627370496) (e + -37) 32768)
        as Hb.
      destruct (binary_round_aux _ _ _ _ _ _) as [s'|s'| |s' m' e'];
        cbn [truncate]; try (unfold is_int16; lia).
      destruct Hb as [-> Hb]; [lia | lia | |].
      * rewrite Pos2Z.inj_mul.
        replace (- (e + -37)) with (37 + - e) by lia.
        rewrite Z.pow_add_r by lia. change (2 ^ 37) with 137438953472. nia.
      * pose proof (proj2 (Z.shiftl_nonneg (Zpos m') e') ltac:(lia)).
        unfold is_int16. lia.
    + change (lt (S754_finite false m e) (of_Z 0)) with false. cbv iota.
      change (mul (S754_finite false m e) (of_Z 32767))
        with (binary_round_aux prec emax false (Zpos (m * 9006924376834048))
                               (e + -38) loc_Exact).
      pose proof (binary_round_aux_bound false (m * 9006924376834048) (e + -38) 32767)
        as Hb.
      destruct (binary_round_aux _ _ _ _ _ _) as [s'|s'| |s' m' e'];
        cbn [truncate]; try (unfold is_int16; lia).
      destruct Hb as [-> Hb]; [lia | lia | |].
      * rewrite Pos2Z.inj_mul.
        replace (- (e + -38)) with (38 + - e) by lia.
        rewrite Z.pow_add_r by lia. change (2 ^ 38) with 274877906944. nia.
      * pose proof (proj2 (Z.shiftl_nonneg (Zpos m') e') ltac:(lia)).
        unfold is_int16. lia.
Qed.

End QuantizeFacts.

(** ** The WAV container *)

Section WavFacts.

Import DataView SpeechRecognitionService.
Open Scope string_scope.
Open Scope list_scope.

Lemma byte_of_range (k v : Z) : is_byte (byte_of k v).
Proof. unfold is_byte, byte_of. apply Z.mod_pos_bound. lia. Qed.

(** The low two bytes of a value do not see its reduction modulo 2^16. *)
Lemma byte_of_wrap16 (k v : Z) :
  0 <= k <= 1 -> byte_of k (wrap 16 v) = byte_of k v.
Proof.
  intros Hk. unfold byte_of, wrap.
  assert (k = 0 \/ k = 1) as [-> | ->] by lia.
  - rewrite !Z.shiftr_0_r. change (2 ^ 16) with 65536.
    Z.div_mod_to_equations. lia.
  - change (8 * 1) with 8. rewrite !Z.shiftr_div_pow2 by lia.
    change (2 ^ 16) with 65536. change (2 ^ 8) with 256.
    Z.div_mod_to_equations. lia.
Qed.

Lemma ToInt16_range (x : number) : is_int16 (ToInt16 x).
Proof.
  unfold is_int16, ToInt16.
  pose proof (Z.mod_pos_bound (truncate x) 65536 ltac:(lia)) as H.
  destruct (32768 <=? truncate x mod 65536)%Z eqn:E.
  - apply Z.leb_le in E. lia.
  - apply Z.leb_gt in E. lia.
Qed.

(** The first loop fills the array with the converted samples. *)
Lemma fill_pcm_spec (audioData : list number) (filled : list Z) :
  fill_pcm audioData (length filled) (filled ++ Int16Array (length audioData))
  = filled ++ map (fun x => ToInt16 (quantize x)) audioData.
Proof.
  revert filled; induction audioData as [|x rest IH]; intros filled.
  - reflexivity.
  - cbn [fill_pcm length Int16Array replicate map].
    rewrite insert_app_r_alt by lia. rewrite Nat.sub_diag. cbn [insert list_insert].
    specialize (IH (filled ++ [ToInt16 (quantize x)])).
    rewrite length_app, Nat.add_1_r, <- !app_assoc in IH. exact IH.
Qed.

Lemma fill_pcm_map (audioData : list number) :
  fill_pcm audioData 0 (Int16Array (length audioData))
  = map (fun x => ToInt16 (quantize x)) audioData.
Proof. exact (fill_pcm_spec audioData []). Qed.

(** The header writes fall inside the first 44 bytes of the zeroed
    buffer, and leave there what the layout prescribes; [k] is what
    runs after them. *)
Lemma header_writes (riff rate byteRate data : Z) (tail : list Z)
      (k : M Buffer unit) :
  Exn.bind (writeString 0 "RIFF") (fun _ =>
  Exn.bind (setUint32 4 riff) (fun _ =>
  Exn.bind (writeString 8 "WAVE") (fun _ =>
  Exn.bind (writeString 12 "fmt ") (fun _ =>
  Exn.bind (setUint32 16 16) (fun _ =>
  Exn.bind (setUint16 20 1) (fun _ =>
  Exn.bind (setUint16 22 1) (fun _ =>
  Exn.bind (setUint32 24 rate) (fun _ =>
  Exn.bind (setUint32 28 byteRate) (fun _ =>
  Exn.bind (setUint16 32 2) (fun _ =>
  Exn.bind (setUint16 34 16) (fun _ =>
  Exn.bind (writeString 36 "data") (fun _ =>
  Exn.bind (setUint32 40 data) (fun _ => k)))))))))))))
    (replicate 44 0 ++ tail)
  = k (header_bytes riff rate byteRate data ++ tail).
Proof.
  unfold Exn.bind, writeString, setUint32, setUint16, setUint8.
  cbn -[byte_of]. reflexivity.
Qed.

(** The second loop writes the samples, two bytes each, after what
    has been written so far. *)
Lemma sample_writes (pcmData : list Z) :
  forall (todo done written : list Z),
    pcmData = done ++ todo ->
    length written = (44 + length done * 2)%nat ->
    for_loop (length done) (length todo)
             (fun i => setInt16 (44 + i * 2) (pcmData !!! i))
             (written ++ replicate (length todo * 2) 0)
    = (Exn.Ok tt, written ++ wav_data todo).
Proof.
  induction todo as [|v rest IH]; intros done written Hpcm Hlen.
  - reflexivity.
  - cbn [length for_loop]. unfold Exn.bind.
    unfold setInt16 at 1, setUint16 at 1.
    assert (pcmData !!! length done = v) as ->.
    { rewrite Hpcm. apply list_lookup_total_middle. reflexivity. }
    destruct (_ <=? _)%nat eqn:Hfit;
      [|apply Nat.leb_gt in Hfit; rewrite length_app, length_replicate in Hfit; lia].
    rewrite <- Hlen.
    change (replicate (S (length rest) * 2)%nat 0)
      with (0 :: 0 :: replicate (length rest * 2)%nat 0).
    rewrite (insert_app_r_alt written _ (length written)) by lia.
    rewrite Nat.sub_diag. cbn [insert list_insert].
    rewrite (insert_app_r_alt written _ (length written + 1)) by lia.
    replace (length written + 1 - length written)%nat with 1%nat by lia.
    cbn [insert list_insert]. rewrite !byte_of_wrap16 by lia.
    specialize (IH (done ++ [v]) (written ++ [byte_of 0 v; byte_of 1 v])).
    rewrite !length_app in IH. cbn [length] in IH.
    rewrite Nat.add_1_r in IH.
    rewrite <- !app_assoc in IH. cbn [app] in IH.
    apply IH; [exact Hpcm | lia].
Qed.

Lemma header_bytes_length (riff rate byteRate data : Z) :
  length (header_bytes riff rate byteRate data) = 44%nat.
Proof. reflexivity. Qed.

(** The blob is the header followed by the samples; no write is out
    of range, so the conversion always succeeds. *)
Lemma convertToWav_bytes (audioData : list number) (sampleRate : number) :
  let samples := map (fun x => ToInt16 (quantize x)) audioData in
  convertToWav audioData sampleRate
  = Exn.Ok (header_bytes (36 + Z.of_nat (length samples) * 2)
                         (truncate sampleRate)
                         (truncate (mul sampleRate (of_Z 2)))
                         (Z.of_nat (length samples) * 2)
            ++ wav_data samples).
Proof.
  intros samples. unfold convertToWav. rewrite fill_pcm_map. fold samples.
  unfold ArrayBuffer. rewrite replicate_add.
  unfold Exn.bind at 1 2 3 4 5 6 7 8 9 10 11 12 13.
  pose proof (header_writes (36 + Z.of_nat (length samples) * 2)
                (truncate sampleRate) (truncate (mul sampleRate (of_Z 2)))
                (Z.of_nat (length samples) * 2)
                (replicate (length samples * 2) 0)
                (for_loop 0 (length samples)
                   (fun i => setInt16 (44 + i * 2) (samples !!! i)))) as Hh.
  unfold Exn.bind in Hh. rewrite Hh. clear Hh.
  rewrite (sample_writes samples samples [] _ eq_refl (header_bytes_length _ _ _ _)).
  reflexivity.
Qed.

Lemma convertToWav_at_16kHz (audioData : list number) :
  let samples := map (fun x => ToInt16 (quantize x)) audioData in
  convertToWav audioData SAMPLE_RATE
  = Exn.Ok (wav_header 16000 (length audioData) ++ wav_data samples).
Proof.
  intros samples. rewrite convertToWav_bytes. fold samples.
  unfold wav_header, samples. rewrite length_map.
  change (truncate SAMPLE_RATE) with 16000.
  change (truncate (mul SAMPLE_RATE (of_Z 2))) with (16000 * 2).
  now rewrite !(Z.mul_comm _ 2).
Qed.

(** The conversion on a few samples: 0.5, -0.5, values outside [-1, 1],
    NaN, the infinities, -0 and the two ends.  None of them needs the
    reduction modulo 2^16 of the Int16 store. *)
Lemma quantize_examples :
  let samples :=
    [binary_normalize prec emax 1 (-1) false; binary_normalize prec emax (-1) (-1) false;
     of_Z 2; of_Z (-3); S754_nan; S754_infinity true; S754_infinity false;
     S754_zero true; of_Z 1; of_Z (-1)] in
  map (fun x => ToInt16 (quantize x)) samples
  = [16383; -16384; 32767; -32768; 0; -32768; 32767; 0; 32767; -32768]
  /\ map (fun x => truncate (quantize x)) samples
     = map (fun x => ToInt16 (quantize x)) samples.
Proof. split; vm_compute; reflexivity. Qed.

Lemma clamp_range (x : number) :
  is_nan x = false ->
  le (of_Z (-1)) (clamp x) = true /\ le (clamp x) (of_Z 1) = true.
Proof.
  intros Hx. unfold clamp, Math_min. rewrite Hx.
  destruct (lt x (of_Z 1)) eqn:Hlt.
  - unfold Math_max. rewrite Hx. destruct (gt x (of_Z (-1))) eqn:Hgt.
    + unfold le, gt, lt, SFleb, SFltb in *.
      destruct (SFcompare (of_Z (-1)) x) as [[]|]; try discriminate;
        destruct (SFcompare x (of_Z 1)) as [[]|]; try discriminate; auto.
    + split; reflexivity.
  - split; reflexivity.
Qed.

Lemma le16_decode (v : Z) :
  byte_of 0 v + 256 * byte_of 1 v = v mod 65536.
Proof.
  unfold byte_of. rewrite Z.shiftr_0_r. change (8 * 1) with 8.
  rewrite Z.shiftr_div_pow2 by lia. change (2 ^ 8) with 256.
  Z.div_mod_to_equations. lia.
Qed.

Lemma le32_decode (v : Z) :
  byte_of 0 v + 256 * byte_of 1 v + 65536 * byte_of 2 v + 16777216 * byte_of 3 v
  = v mod 2 ^ 32.
Proof.
  unfold byte_of. rewrite Z.shiftr_0_r.
  change (8 * 1) with 8. change (8 * 2) with 16. change (8 * 3) with 24.
  rewrite !Z.shiftr_div_pow2 by lia.
  change (2 ^ 8) with 256. change (2 ^ 16) with 65536.
  change (2 ^ 24) with 16777216. change (2 ^ 32) with 4294967296.
  Z.div_mod_to_equations. lia.
Qed.

Lemma wav_data_length (samples : list Z) :
  length (wav_data samples) = (length samples * 2)%nat.
Proof. induction samples as [|v r IH]; simpl; [reflexivity | now rewrite IH]. Qed.

Lemma wav_data_lookup (samples : list Z) (i : nat) (v : Z) :
  samples !! i = Some v ->
  wav_data samples !!! (i * 2)%nat = byte_of 0 v
  /\ wav_data samples !!! (i * 2 + 1)%nat = byte_of 1 v.
Proof.
  revert i; induction samples as [|u r IH]; intros i H; [discriminate|].
  destruct i as [|i]; simpl in H.
  - injection H as ->. split; reflexivity.
  - apply IH in H as [H0 H1]. split; [exact H0 | exact H1].
Qed.

Lemma wav_data_bytes (samples : list Z) : Forall is_byte (wav_data samples).
Proof.
  induction samples as [|v r IH]; simpl; [constructor|].
  repeat (constructor; [apply byte_of_range|]). exact IH.
Qed.

Lemma header_bytes_bytes (riff rate byteRate data : Z) :
  Forall is_byte (header_bytes riff rate byteRate data).
Proof.
  unfold header_bytes, le32, le16. cbn [app].
  repeat (constructor; [first [apply byte_of_range | unfold is_byte; lia]|]).
  constructor.
Qed.

(** C7.  For every array of samples [convertToWav], called with the
    service's sample rate, succeeds, and its bytes are the 44-byte
    RIFF/WAVE header (format tag 1, one channel, 16000 Hz, byte rate
    32000, block align 2, 16 bits per sample, the two size fields
    [36 + 2n] and [2n] as 32-bit values) followed by the [n] samples
    as 16-bit little-endian integers.  A sample is clamped (for a
    sample that is a number, not NaN, the clamped value lies between
    -1 and 1), then scaled by 0x8000 when negative and by 0x7FFF when
    not, then stored as an Int16; every stored value lies in
    [-32768, 32767], and for a sample that is a binary64 value the
    scaled value lies in that range before it is stored, so the store
    keeps its integer part as it is.  The clamp keeps a sample between
    -1 and 1 as it is, turns one below -1 into -1 and one above 1 into
    1, and leaves NaN; so 0.5 is stored as 16383, -0.5 as -16384, 2 as
    32767, -3 as -32768 and NaN as 0. *)
Theorem convertToWav_wire_format (audioData : list number) :
  let n := length audioData in
  let samples := map (fun x => ToInt16 (quantize x)) audioData in
  exists blob : Blob,
    convertToWav audioData SAMPLE_RATE = Exn.Ok blob
    /\ blob = wav_header 16000 n ++ wav_data samples
    /\ length (wav_header 16000 n) = 44%nat
    /\ length blob = (44 + n * 2)%nat
    /\ Forall is_byte blob
    /\ getString 0 4 blob = charCodes "RIFF"
    /\ getString 8 4 blob = charCodes "WAVE"
    /\ getString 12 4 blob = charCodes "fmt "
    /\ getUint32 16 blob = 16
    /\ getUint16 20 blob = 1
    /\ getUint16 22 blob = 1
    /\ getUint32 24 blob = 16000
    /\ getUint32 28 blob = 16000 * 1 * 2
    /\ getUint16 32 blob = 2
    /\ getUint16 34 blob = 16
    /\ getString 36 4 blob = charCodes "data"
    /\ getUint32 4 blob = (36 + 2 * Z.of_nat n) mod 2 ^ 32
    /\ getUint32 40 blob = (2 * Z.of_nat n) mod 2 ^ 32
    /\ (36 + 2 * Z.of_nat n < 2 ^ 32 ->
        getUint32 4 blob = 36 + 2 * Z.of_nat n
        /\ getUint32 40 blob = 2 * Z.of_nat n)
    /\ (forall (i : nat) (v : Z),
           samples !! i = Some v -> getInt16 (44 + i * 2) blob = v)
    /\ Forall is_int16 samples
    /\ Forall (fun x =>
                 quantize x
                 = (if lt (clamp x) (of_Z 0) then mul (clamp x) (of_Z 32768)
                    else mul (clamp x) (of_Z 32767))
                 /\ (is_nan x = false ->
                     le (of_Z (-1)) (clamp x) = true
                     /\ le (clamp x) (of_Z 1) = true)
                 /\ (valid_binary prec emax x = true ->
                     is_int16 (truncate (quantize x))
                     /\ ToInt16 (quantize x) = truncate (quantize x))
                 /\ (le (of_Z (-1)) x = true -> le x (of_Z 1) = true ->
                     clamp x = x)
                 /\ (lt x (of_Z (-1)) = true -> clamp x = of_Z (-1))
                 /\ (gt x (of_Z 1) = true -> clamp x = of_Z 1)
                 /\ (is_nan x = true -> clamp x = S754_nan))
              audioData
    /\ map (fun x => ToInt16 (quantize x))
           [binary_normalize prec emax 1 (-1) false;
            binary_normalize prec emax (-1) (-1) false;
            of_Z 2; of_Z (-3); S754_nan; S754_infinity true; S754_infinity false;
            S754_zero true; of_Z 1; of_Z (-1)]
       = [16383; -16384; 32767; -32768; 0; -32768; 32767; 0; 32767; -32768].
Proof.
  intros n samples. eexists. split; [apply convertToWav_at_16kHz|].
  fold samples. fold n.
  assert (Forall is_int16 samples) as Hint.
  { unfold samples. apply Forall_map, Forall_true. intros x. apply ToInt16_range. }
  split; [reflexivity|]. split; [reflexivity|].
  split; [rewrite length_app, wav_data_length; unfold samples, n;
          now rewrite length_map|].
  split; [apply Forall_app; split;
          [apply header_bytes_bytes | apply wav_data_bytes]|].
  do 11 (split; [reflexivity|]).
  assert (getUint32 4 (wav_header 16000 n ++ wav_data samples)
          = (36 + 2 * Z.of_nat n) mod 2 ^ 32) as H4
    by (unfold wav_header, getUint32; cbn -[byte_of Z.of_nat Z.pow];
        apply le32_decode).
  assert (getUint32 40 (wav_header 16000 n ++ wav_data samples)
          = (2 * Z.of_nat n) mod 2 ^ 32) as H40
    by (unfold wav_header, getUint32; cbn -[byte_of Z.of_nat Z.pow];
        apply le32_decode).
  split; [exact H4|]. split; [exact H40|].
  split; [intros Hn; rewrite H4, H40; rewrite !Z.mod_small by lia; auto|].
  split.
  - intros i v Hv. unfold getInt16, getUint16.
    assert (length (wav_header 16000 n) = 44%nat) as Hlen by reflexivity.
    rewrite !lookup_total_app_r by (rewrite Hlen; lia).
    rewrite Hlen.
    replace (44 + i * 2 - 44)%nat with (i * 2)%nat by lia.
    replace (44 + i * 2 + 1 - 44)%nat with (i * 2 + 1)%nat by lia.
    destruct (wav_data_lookup samples i v Hv) as [-> ->].
    rewrite le16_decode.
    assert (is_int16 v) as Hr
      by (eapply Forall_forall; [exact Hint | eapply list_elem_of_lookup_2, Hv]).
    unfold is_int16 in Hr.
    destruct (Z.leb_spec 32768 (v mod 65536)); Z.div_mod_to_equations; lia.
  - split; [exact Hint|]. split; [|apply (proj1 quantize_examples)].
    apply Forall_true. intros x. split; [reflexivity|].
    split; [apply clamp_range|].
    split; [|split; [apply clamp_inside|split; [apply clamp_below|
             split; [apply clamp_above | apply clamp_nan]]]].
    intros Hv. pose proof (quantize_no_wrap x Hv) as Hq.
    split; [exact Hq | now apply ToInt16_of_int16].
Qed.

Lemma convertToWav_wire_format_witness :
  let half := binary_normalize prec emax 1 (-1) false in
  let minus_half := binary_normalize prec emax (-1) (-1) false in
  convertToWav [half; minus_half; of_Z (-3)] SAMPLE_RATE
  = Exn.Ok (wav_header 16000 3 ++ wav_data [16383; -16384; -32768])
  /\ getUint32 4 (wav_header 16000 3 ++ wav_data [16383; -16384; -32768]) = 42
  /\ clamp minus_half = minus_half
  /\ clamp (of_Z (-3)) = of_Z (-1).
Proof.
  intros half minus_half.
  destruct (convertToWav_wire_format [half; minus_half; of_Z (-3)])
    as (blob & Hb & -> & H).
  split; [exact Hb|].
  destruct H as (_ & _ & _ & _ & _ & _ & _ & _ & _ & _ & _ & _ & _ & _ & _ & _
                 & Hsize & _ & _ & Hall & _).
  split; [apply Hsize; reflexivity|].
  apply Forall_cons in Hall as [_ Hall].
  apply Forall_cons in Hall as [Hmh Hall].
  apply Forall_cons in Hall as [Hm3 _].
  destruct Hmh as (_ & _ & _ & Hinside & _).
  destruct Hm3 as (_ & _ & _ & _ & Hbelow & _).
  split; [apply Hinside; reflexivity | apply Hbelow; reflexivity].
Defined.

End WavFacts.

(** ** The audio stream *)

Section StreamFacts.

Import SpeechRecognitionService.
Open Scope string_scope.
Open Scope list_scope.

Lemma onaudioprocess_busy (inputData : list number) (s : Stream) :
  isProcessing s = true -> onaudioprocess inputData s = s.
Proof. intros H. unfold onaudioprocess. now rewrite H. Qed.

Lemma onaudioprocess_idle (inputData : list number) (s : Stream) :
  isProcessing s = false ->
  exists wavBlob,
    convertToWav inputData SAMPLE_RATE = Exn.Ok wavBlob
    /\ onaudioprocess inputData s
       = if (2 <=? length (audioChunks s ++ [wavBlob]))%nat
         then {| isProcessing := true;
                 audioChunks := audioChunks s ++ [wavBlob];
                 in_flight := in_flight s ++ [concat (audioChunks s ++ [wavBlob])];
                 transcriptions := transcriptions s;
                 errors_logged := errors_logged s |}
         else {| isProcessing := false;
                 audioChunks := audioChunks s ++ [wavBlob];
                 in_flight := in_flight s;
                 transcriptions := transcriptions s;
                 errors_logged := errors_logged s |}.
Proof.
  intros H. pose proof (convertToWav_at_16kHz inputData) as Hw. cbv zeta in Hw.
  eexists. split; [exact Hw|].
  unfold onaudioprocess. rewrite H, Hw. cbn [negb].
  cbn [set_isProcessing set_audioChunks audioChunks in_flight isProcessing
       transcriptions errors_logged set_in_flight handler_end].
  destruct (2 <=? length _)%nat; reflexivity.
Qed.

Lemma handler_end_resets {A} (r : Exn.result A * Stream) :
  isProcessing (handler_end r) = false
  /\ in_flight (handler_end r) = in_flight (snd r).
Proof. destruct r as [[a|e] s]; split; reflexivity. Qed.

Lemma resume_in_flight (reply : TranscribeReply) (s : Stream) :
  in_flight (snd (resume reply s)) = in_flight s.
Proof.
  unfold resume, Exn.bind.
  destruct reply as [e|[d|]|e|t c|e]; cbn; try reflexivity.
  destruct (nonempty _); reflexivity.
Qed.

Lemma step_guarded (s : Stream) (e : Event) : guarded s -> guarded (step s e).
Proof.
  intros G. destruct e as [inputData|reply]; cbn [step].
  - destruct G as [Hp Hf|b Hp Hf].
    + destruct (onaudioprocess_idle inputData s Hp) as (w & _ & ->).
      destruct (2 <=? _)%nat.
      * apply guarded_busy with (concat (audioChunks s ++ [w])); cbn; [reflexivity|].
        now rewrite Hf.
      * apply guarded_idle; cbn; auto.
    + rewrite onaudioprocess_busy by exact Hp. now apply guarded_busy with b.
  - destruct G as [Hp Hf|b Hp Hf]; rewrite Hf.
    + now apply guarded_idle.
    + destruct (handler_end_resets (resume reply (set_in_flight [] s))) as [H1 H2].
      apply guarded_idle; [exact H1|]. now rewrite H2, resume_in_flight.
Qed.

Lemma run_app (s : Stream) (l1 l2 : list Event) :
  run s (l1 ++ l2) = run (run s l1) l2.
Proof. apply fold_left_app. Qed.

Lemma run_guarded (events : list Event) (s : Stream) :
  guarded s -> guarded (run s events).
Proof.
  revert s; induction events as [|e l IH]; intros s G; [exact G|].
  apply IH, step_guarded, G.
Qed.

Lemma initial_guarded : guarded initial.
Proof. now apply guarded_idle. Qed.

(** While the flag is set and no request ends, the callbacks change
    nothing, however many buffers are delivered. *)
Lemma run_audio_busy (s : Stream) (buffers : list (list number)) :
  isProcessing s = true -> run s (map AudioProcess buffers) = s.
Proof.
  intros H. induction buffers as [|b l IH]; [reflexivity|].
  cbn [map run fold_left step]. rewrite onaudioprocess_busy by exact H. exact IH.
Qed.

(** Against C4 as it is worded for a request that hangs.  Two buffers
    have been delivered, so a request is in flight; it never ends.
    Whatever buffers are delivered after that, none is processed. *)
Lemma hung_request_blocks_next_chunk :
  ~ hung_request_does_not_block
      (run initial [AudioProcess [of_Z 1]; AudioProcess [of_Z 0]]).
Proof.
  intros H. destruct H as [buffers Hb]; [vm_compute; discriminate|].
  apply Hb. apply run_audio_busy. reflexivity.
Qed.

(** C4, as the code has it.  In every run of the handler at most one
    transcription request is in flight, and one is in flight exactly
    while the flag is set.  A callback that finds the flag set leaves
    everything as it is: its chunk is neither kept nor queued.  When
    the request ends, with a transcription or with a failure, the
    flag is reset, and the next callback converts its chunk and adds
    it to the chunks held.  While the request has not ended, and so
    for ever when it never ends, every callback is skipped. *)
Theorem in_flight_guard :
  (forall events : list Event,
      let s := run initial events in
      (length (in_flight s) <= 1)%nat
      /\ (isProcessing s = true <-> in_flight s <> []))
  /\ (forall (s : Stream) (inputData : list number),
         isProcessing s = true -> step s (AudioProcess inputData) = s)
  /\ (forall (events : list Event) (reply : TranscribeReply),
         let s := run initial (events ++ [RequestEnds reply]) in
         isProcessing s = false /\ in_flight s = [])
  /\ (forall (s : Stream) (inputData : list number),
         isProcessing s = false ->
         exists wavBlob,
           convertToWav inputData SAMPLE_RATE = Exn.Ok wavBlob
           /\ audioChunks (step s (AudioProcess inputData))
              = audioChunks s ++ [wavBlob])
  /\ (forall (s : Stream) (buffers : list (list number)),
         isProcessing s = true -> run s (map AudioProcess buffers) = s).
Proof.
  split; [|split; [|split; [|split]]].
  - intros events s.
    destruct (run_guarded events initial initial_guarded) as [Hp Hf|b Hp Hf];
      fold s in Hp, Hf; rewrite Hp, Hf; cbn; split; try lia;
      split; congruence.
  - intros s inputData H. now apply onaudioprocess_busy.
  - intros events reply s. subst s. rewrite run_app. cbn [run fold_left step].
    destruct (run_guarded events initial initial_guarded) as [Hp Hf|b Hp Hf];
      rewrite Hf.
    + auto.
    + destruct (handler_end_resets
                  (resume reply (set_in_flight [] (run initial events))))
        as [H1 H2].
      split; [exact H1|]. now rewrite H2, resume_in_flight.
  - intros s inputData H.
    destruct (onaudioprocess_idle inputData s H) as (w & Hw & Hs).
    exists w. split; [exact Hw|]. cbn [step]. rewrite Hs.
    destruct (2 <=? _)%nat; reflexivity.
  - intros s buffers H. now apply run_audio_busy.
Qed.

Lemma in_flight_guard_witness :
  let s := run initial [AudioProcess [of_Z 1]; AudioProcess [of_Z 0]] in
  isProcessing s = true
  /\ step s (AudioProcess [of_Z (-1)]) = s
  /\ isProcessing (step s (RequestEnds (FetchRejected "TypeError: Failed to fetch"))) = false.
Proof.
  intros s.
  assert (isProcessing s = true) as Hp by reflexivity.
  split; [exact Hp|]. split.
  - apply (proj1 (proj2 in_flight_guard)). exact Hp.
  - reflexivity.
Defined.

End StreamFacts.

(* ================================================================== *)
(** * Further properties *)
(* ================================================================== *)

(** ** The recognition adapter *)

Section AdapterMore.

Import SpeechRecognitionPolyfill UseVoiceControl VoiceSession.
Open Scope string_scope.
Open Scope list_scope.










(** X3.  Starting and then stopping brings the adapter back, provided
    the stop call of the backend does not throw: the adapter is not
    listening, and outside the native mode, where the recognition
    object made by [start()] is kept, every field of the adapter is what
    it was before [start()], whether the start succeeded or failed.
    The same holds whenever [start()] has left no backend object to
    stop.  But when [start()] has left the adapter listening with a
    backend object and the stop call throws, [stop()] changes nothing
    of the adapter: it stays listening. *)
Theorem start_then_stop_restores (S : Type) (w : World S) :
  isListening (this w) = false ->
  let w1 := exec start w in
  let w2 := exec stop w1 in
  backend_stop_fails (page w1) = backend_stop_fails (page w)
  /\ (backend_stop_fails (page w) = None
      \/ has_backend_to_stop (page w1) (this w1) = false ->
      isListening (this w2) = false
      /\ (fallbackMode (this w) <> native -> this w2 = this w))
  /\ (forall error : string,
        backend_stop_fails (page w) = Some error ->
        isListening (this w1) = true ->
        has_backend_to_stop (page w1) (this w1) = true ->
        this w2 = this w1 /\ isListening (this w2) = true).
Proof.
  intros Hl w1 w2. subst w1 w2.
  destruct w as [[[ua sr wsr nm gum mrw proto host] ann tag req fails stopf]
                 [[ct ir lg oR oE oS oN] rcg mr lst mode] c log].
  cbn in Hl. subst lst.
  destruct mode;
    [ destruct sr, wsr, fails, stopf, oE, oS, oN
    | destruct stopf, oE, oS, oN, mr
    | destruct ann, tag, req as [[]|], stopf, oE, oS, oN ];
    (split; [reflexivity|]; split;
     [ intros [Hb|Hb]; try discriminate Hb;
       (split; [reflexivity
               | first [intros _; reflexivity | intros Hne; now contradiction Hne]])
     | intros error He Hl1 Hb; first [discriminate He | discriminate Hl1 | discriminate Hb
                                      | split; reflexivity] ]).
Qed.

Lemma start_then_stop_restores_witness :
  let w := construct plain_options recorder_only_page tt [] in
  this (exec stop (exec start w)) = this w.
Proof.
  intros w.
  destruct (start_then_stop_restores unit w eq_refl) as (_ & H & _).
  destruct (H (or_introl eq_refl)) as [_ Hsame].
  apply Hsame. discriminate.
Defined.

(** X4.  A failed load of the annyang script is never retried.  In
    annyang mode, when [window.annyang] is missing and the script tag
    is already in the page, [start()] requests nothing, whatever the
    network would answer: it leaves the page and the adapter as they
    were and reports "Failed to load annyang.js polyfill" to [onError]
    when there is one.  And a [start()] whose request for the script
    fails, or brings a script that does not define [window.annyang],
    leaves the page in exactly that state: the tag is in the page and
    [window.annyang] is still missing. *)
Theorem annyang_failed_load_is_final (S : Type) (w : World S) :
  fallbackMode (this w) = annyang ->
  isListening (this w) = false ->
  window_annyang (page w) = false ->
  (annyang_script_tag (page w) = true ->
   exists w' : World S,
     start w = (Exn.Ok tt, w')
     /\ page w' = page w /\ this w' = this w
     /\ effects w' = effects w ++
         match onError (options (this w)) with
         | Some _ => [Call_onError "Failed to start speech recognition: Error: Failed to load annyang.js polyfill"]
         | None => []
         end)
  /\ (annyang_script_tag (page w) = false ->
      script_request (page w) <> ScriptLoaded true ->
      let w1 := exec start w in
      fallbackMode (this w1) = annyang
      /\ isListening (this w1) = false
      /\ window_annyang (page w1) = false
      /\ annyang_script_tag (page w1) = true
      /\ filter (fun e => is_AppendScript e) (drop (length (effects w)) (effects w1))
         = [AppendScript annyang_src]).
Proof.
  destruct w as [[br ann tag req fails stopf]
                 [[ct ir lg oR oE oS oN] rcg mr lst mode] c log].
  cbn. intros -> -> ->. split.
  - intros ->. destruct oE; eexists; (split; [reflexivity|]); cbn;
      rewrite ?app_nil_r; auto.
  - intros -> Hreq. unfold exec.
    destruct req as [[]|]; [now contradiction Hreq| |];
      destruct oE; cbn; do 4 (split; [reflexivity|]);
      rewrite <- ?app_assoc, drop_app_length; reflexivity.
Qed.

Lemma annyang_failed_load_is_final_witness :
  let w := construct plain_options offline_page tt [] in
  let w1 := exec start w in
  existsb is_AppendScript (effects w1) = true
  /\ effects (exec start w1)
     = effects w1 ++ [Call_onError "Failed to start speech recognition: Error: Failed to load annyang.js polyfill"].
Proof.
  intros w w1. split; [reflexivity|].
  destruct (annyang_failed_load_is_final unit w1 eq_refl eq_refl eq_refl)
    as [Htag _].
  destruct (Htag eq_refl) as (w' & Hs & _ & _ & He).
  unfold exec. rewrite Hs. exact He.
Defined.

End AdapterMore.

(** ** The hook and the player behind it *)

Section HookMore.

Import SpeechRecognitionPolyfill UseVoiceControl VoiceSession VideoPlayer.
Open Scope string_scope.
Open Scope list_scope.

(** X5.  The handlers the adapter puts on the native recognition
    object.  The handler of the error event calls [onError] and
    nothing else: the adapter is left as it was, so an adapter that
    was listening goes on answering that it is listening, and a
    further [start()] on it does nothing.  With the callbacks the hook
    supplies, that [onError] turns the hook's own listening flag off
    and sets the error to show, so the two flags differ from then on.
    Only the handler of the end event resets the adapter's flag; it
    then calls [onEnd]. *)
Theorem native_error_leaves_adapter_listening
        (P : Type) (onCommand : string -> P -> P) (language : string)
        (w : World (Hook P)) (e : string) :
  options (this w) = hook_options onCommand language ->
  isListening (this w) = true ->
  let w1 := exec (recognition_onerror e) w in
  let w2 := exec recognition_onend w1 in
  (this w1 = this w
   /\ page w1 = page w
   /\ isCurrentlyListening (this w1) = true
   /\ hook_isListening (client w1) = false
   /\ hook_error (client w1) = Some ("Speech recognition error: " ++ e)%string
   /\ owner (client w1) = owner (client w)
   /\ effects w1 = effects w ++ [Call_onError ("Speech recognition error: " ++ e)%string])
  /\ start w1 = (Exn.Ok tt, w1)
  /\ (isCurrentlyListening (this w2) = false
      /\ hook_isListening (client w2) = false
      /\ recognition (this w2) = recognition (this w)
      /\ effects w2 = effects w1 ++ [Call_onEnd]).
Proof.
  destruct w as [pg [opts rcg mr lst mode] [hl he hm hc ho] log].
  cbn [options isListening this]. intros -> ->. cbv zeta.
  repeat match goal with |- _ /\ _ => split end; reflexivity.
Qed.

Lemma native_error_leaves_adapter_listening_witness :
  let w := exec start
             (construct (hook_options (fun (_ : string) (u : unit) => u) "en-US")
                        native_page (initial_hook tt) []) in
  let w1 := exec (recognition_onerror "no-speech") w in
  isCurrentlyListening (this w1) = true
  /\ hook_isListening (client w) = true
  /\ hook_isListening (client w1) = false
  /\ start w1 = (Exn.Ok tt, w1).
Proof.
  intros w w1.
  destruct (native_error_leaves_adapter_listening unit (fun _ u => u) "en-US"
              w "no-speech" eq_refl eq_refl)
    as ((_ & _ & Ha & Hh & _) & Hs & _).
  split; [exact Ha|]. split; [reflexivity|]. split; [exact Hh | exact Hs].
Defined.

(** The handler of a result event, with the callbacks of the hook:
    the lower-cased transcript goes to [onCommand], one line goes to
    the console, and nothing else changes. *)
Lemma recognition_onresult_dispatches
      (P : Type) (onCommand : string -> P -> P) (language : string)
      (w : World (Hook P)) (transcript : string) (confidence : number) :
  options (this w) = hook_options onCommand language ->
  exec (recognition_onresult transcript confidence) w
  = {| page := page w; this := this w;
       client := to_owner (onCommand (toLowerCase transcript))
                          (console_log "Speech recognized" (client w));
       effects := effects w
                  ++ [Call_onResult transcript (or_default confidence (of_Z 1))] |}.
Proof.
  destruct w as [pg [opts rcg mr lst mode] c log].
  cbn [options this]. intros ->. reflexivity.
Qed.

(** X6.  From a result event to the media element.  When the handler
    of the result event runs on an adapter built by the hook of the
    player, and the transcript contains "play" in any mix of upper and
    lower case, the video plays: the element gets one [play()], the
    playing flag is set, the position and the subtitle flag stay.  The
    confidence of the result plays no part, and the handler itself
    changes neither the adapter nor the hook's listening flag and
    error. *)
Theorem spoken_play_plays
        (language : string) (w : World (Hook Player)) (v : Video)
        (transcript : string) (confidence : number) :
  options (this w) = hook_options handleCommand language ->
  videoRef (owner (client w)) = Some v ->
  includes (toLowerCase transcript) "play" = true ->
  let w1 := exec (recognition_onresult transcript confidence) w in
  videoRef (owner (client w1)) = Some (video_play v)
  /\ isPlaying (owner (client w1)) = true
  /\ showSubtitles (owner (client w1)) = showSubtitles (owner (client w))
  /\ actionsInvoked (owner (client w1)) = actionsInvoked (owner (client w)) ++ ["play"]
  /\ hook_isListening (client w1) = hook_isListening (client w)
  /\ hook_error (client w1) = hook_error (client w)
  /\ this w1 = this w
  /\ page w1 = page w
  /\ effects w1
     = effects w ++ [Call_onResult transcript (or_default confidence (of_Z 1))].
Proof.
  intros Ho Hv Hplay w1. subst w1.
  rewrite (recognition_onresult_dispatches Player handleCommand language w
             transcript confidence Ho).
  cbn [client this page effects to_owner console_log owner hook_isListening hook_error].
  unfold handleCommand. rewrite Hv.
  change VOICE_COMMANDS with ([] ++ play :: [pause; skipIntro; subtitlesOn; subtitlesOff]).
  rewrite (Array_some_first_match _ [] _ play _ (Forall_nil_2 _) Hplay).
  cbn [snd action play name map app setIsPlaying with_video note_action note_matches
       videoRef isPlaying showSubtitles actionsInvoked].
  rewrite Hv. repeat match goal with |- _ /\ _ => split end; reflexivity.
Qed.

Lemma spoken_play_plays_witness :
  let v := {| paused := true; currentTime := of_Z 10; mediaOps := [] |} in
  let w := exec start
             (construct (hook_options handleCommand "en-US") native_page
                        (initial_hook (mounted v false false)) []) in
  videoRef (owner (client (exec (recognition_onresult "Please PLAY the movie" (of_Z 1)) w)))
  = Some (video_play v).
Proof.
  intros v w.
  exact (proj1 (spoken_play_plays "en-US" w v "Please PLAY the movie" (of_Z 1)
                  eq_refl eq_refl eq_refl)).
Defined.

(** X7.  The cleanup of the mount effect goes by the adapter's own
    flag, not by the hook's.  A session whose adapter is not listening
    is left exactly as it was.  Otherwise the cleanup is one [stop()]:
    when the stop call of the backend does not throw, the adapter is
    not listening afterwards, whatever the hook's flag said; when it
    throws, the adapter held in the ref is unchanged and still
    listening after the cleanup. *)
Theorem unmount_stops_unless_stop_throws (P : Type) (m : @Mounted P) :
  (adapter_listening m = false -> unmount m = m)
  /\ (backend_stop_fails (m_page m) = None ->
      adapter_listening (unmount m) = false)
  /\ (forall (a : Adapter (Hook P)) (error : string),
        speechRecognitionRef m = Some a ->
        isListening a = true ->
        has_backend_to_stop (m_page m) a = true ->
        backend_stop_fails (m_page m) = Some error ->
        speechRecognitionRef (unmount m) = Some a
        /\ adapter_listening (unmount m) = true).
Proof.
  destruct m as [[br ann tag req fails stopf]
                 [[[ct ir lg oR oE oS oN] rcg mr lst mode]|] h log];
    [|repeat split; try reflexivity; intros; discriminate].
  destruct lst, mode, rcg, mr, ann, stopf, oE, oN;
    (split; [intros Hidle; first [discriminate Hidle | reflexivity]|];
     split; [intros Hnone; first [discriminate Hnone | reflexivity]|];
     intros a error Ha Hl Hb Hf; injection Ha as <-;
     first [discriminate Hl | discriminate Hb | discriminate Hf
           | split; reflexivity]).
Qed.

Lemma unmount_stops_unless_stop_throws_witness :
  let w := exec start
             (construct (hook_options (fun (_ : string) (u : unit) => u) "en-US")
                        native_page (initial_hook tt) []) in
  let m := {| m_page := page w; speechRecognitionRef := Some (this w);
              m_hook := setIsListening false (client w); m_effects := effects w |} in
  adapter_listening m = true
  /\ hook_isListening (m_hook m) = false
  /\ adapter_listening (unmount m) = false.
Proof.
  intros w m. split; [reflexivity|]. split; [reflexivity|].
  exact (proj1 (proj2 (unmount_stops_unless_stop_throws unit m)) eq_refl).
Defined.

Lemma same_number_eq (x y : number) : JsMath.same_number x y = true -> x = y.
Proof.
  destruct x as [s|s| |s m e], y as [s'|s'| |s' m' e']; cbn; try discriminate;
    try reflexivity.
  - intros H. apply Bool.eqb_prop in H. now subst.
  - intros H. apply Bool.eqb_prop in H. now subst.
  - intros H. apply andb_prop in H as [H He]. apply andb_prop in H as [Hs Hm].
    apply Bool.eqb_prop in Hs. apply Pos.eqb_eq in Hm. apply Z.eqb_eq in He.
    now subst.
Qed.

Lemma all_from_spec (f : Z -> bool) (n : nat) (z : Z) :
  JsMath.all_from f z n = true ->
  forall x : Z, (z <= x < z + Z.of_nat n)%Z -> f x = true.
Proof.
  revert z. induction n as [|k IH]; intros z H x Hx.
  - lia.
  - cbn [JsMath.all_from] in H. apply andb_prop in H as [Hz Hk].
    destruct (Z.eq_dec x z) as [->|Hne]; [exact Hz|].
    apply (IH (z + 1)%Z); [exact Hk | lia].
Qed.

(** Ninety seconds added to a whole number of seconds within a day:
    the sum of the two JS numbers is the number of the sum. *)
Lemma add_90_exact (n : Z) :
  (0 <= n <= 86400)%Z -> add (of_Z n) (of_Z 90) = of_Z (n + 90).
Proof.
  intros Hn.
  assert (JsMath.all_from (fun k => JsMath.same_number
                                      (add (of_Z k) (of_Z 90))
                                      (of_Z (k + 90)))
                          0 (Z.to_nat 86401) = true) as Hall
      by (vm_compute; reflexivity).
  pose proof (all_from_spec _ _ _ Hall n) as H.
  rewrite Z2Nat.id in H by lia.
  apply same_number_eq, H. lia.
Qed.

(** X8.  Skip intro: a transcript that contains "skip intro" and
    neither "play" nor "pause" sets the position of the element to
    its position plus 90, in the arithmetic of JS numbers, with one
    assignment to [currentTime]; whether the video plays and whether
    subtitles show is not touched.  From a position of a whole number
    of seconds up to a day the sum carries no rounding. *)
Theorem skip_intro_adds_90 (command : string) (p : Player) (v : Video) :
  videoRef p = Some v ->
  includes command "play" = false ->
  includes command "pause" = false ->
  includes command "skip intro" = true ->
  let q := handleCommand command p in
  videoRef q = Some {| paused := paused v;
                       currentTime := add (currentTime v) (of_Z 90);
                       mediaOps := mediaOps v ++ [MediaSeek (add (currentTime v) (of_Z 90))] |}
  /\ isPlaying q = isPlaying p
  /\ showSubtitles q = showSubtitles p
  /\ actionsInvoked q = actionsInvoked p ++ ["skipIntro"]
  /\ (forall n : Z, (0 <= n <= 86400)%Z -> currentTime v = of_Z n ->
        (currentTime <$> videoRef q) = Some (of_Z (n + 90))).
Proof.
  intros Hv H1 H2 H3 q. subst q.
  unfold handleCommand. rewrite Hv.
  change VOICE_COMMANDS with ([play; pause] ++ skipIntro :: [subtitlesOn; subtitlesOff]).
  rewrite (Array_some_first_match command [play; pause] _ skipIntro p)
    by (repeat constructor; assumption).
  cbn [snd action skipIntro with_video note_action note_matches videoRef isPlaying
       showSubtitles actionsInvoked name].
  rewrite Hv. cbn [fmap option_fmap option_map video_set_currentTime currentTime].
  do 4 (split; [reflexivity|]).
  intros n Hn ->. now rewrite add_90_exact.
Qed.

Lemma skip_intro_adds_90_witness :
  let p := mounted {| paused := false; currentTime := of_Z 10; mediaOps := [] |} true false in
  (currentTime <$> videoRef (handleCommand "skip intro now" p)) = Some (of_Z 100).
Proof.
  intros p.
  destruct (skip_intro_adds_90 "skip intro now" p
              {| paused := false; currentTime := of_Z 10; mediaOps := [] |}
              eq_refl eq_refl eq_refl eq_refl) as (_ & _ & _ & _ & Hn).
  apply (Hn 10%Z); [lia | reflexivity].
Defined.

End HookMore.

(** ** Subtitles *)

Section SubtitleFacts.

Import VideoPlayer Subtitles.
Open Scope string_scope.
Open Scope list_scope.

Lemma set_first_English_none (m : TextTrackMode) (tracks : list TextTrack) :
  forallb (fun t => negb (is_English t)) tracks = true ->
  set_first_English m tracks = tracks.
Proof.
  induction tracks as [|t r IH]; [reflexivity|].
  cbn [forallb set_first_English]. unfold is_English at 1.
  destruct (String.eqb (label t) "English"); [discriminate|].
  cbn. intros H. now rewrite IH.
Qed.

Lemma set_first_English_first (m : TextTrackMode) (pre post : list TextTrack)
      (t : TextTrack) :
  forallb (fun t => negb (is_English t)) pre = true ->
  is_English t = true ->
  set_first_English m (pre ++ t :: post)
  = pre ++ {| label := label t; mode := m |} :: post.
Proof.
  intros Hpre Ht. induction pre as [|u r IH].
  - cbn. unfold is_English in Ht. now rewrite Ht.
  - cbn [forallb] in Hpre. apply andb_prop in Hpre as [Hu Hr].
    cbn [app set_first_English]. unfold is_English in Hu.
    destruct (String.eqb (label u) "English"); [discriminate|].
    now rewrite IH.
Qed.

(** X9.  The subtitle effect touches one track at most: the first one
    whose label is exactly "English".  Its mode becomes [showing] or
    [hidden] after the subtitle flag; the tracks before and after it,
    a second English track among them, keep their modes, and no track
    is added, removed or relabelled.  Without a mounted element, or
    when no track is labelled "English", the tracks are left as they
    are and nothing is reported. *)
Theorem subtitleEffect_first_English_only (p : Player) (tracks : list TextTrack) :
  (videoRef p = None -> subtitleEffect p (Some tracks) = Some tracks)
  /\ (forallb (fun t => negb (is_English t)) tracks = true ->
      subtitleEffect p (Some tracks) = Some tracks)
  /\ (forall (v : Video) (pre post : list TextTrack) (t : TextTrack),
        videoRef p = Some v ->
        tracks = pre ++ t :: post ->
        forallb (fun t => negb (is_English t)) pre = true ->
        is_English t = true ->
        subtitleEffect p (Some tracks)
        = Some (pre ++ {| label := "English";
                          mode := if showSubtitles p then showing else hidden |}
                    :: post))
  /\ (exists tracks' : list TextTrack,
        subtitleEffect p (Some tracks) = Some tracks'
        /\ map label tracks' = map label tracks).
Proof.
  unfold subtitleEffect.
  split; [|split; [|split]].
  - now intros ->.
  - intros H. destruct (videoRef p); [|reflexivity].
    destruct (length tracks =? 0)%nat; [reflexivity|].
    now rewrite set_first_English_none.
  - intros v pre post t -> -> Hpre Ht.
    rewrite length_app. cbn [length].
    replace (length pre + S (length post) =? 0)%nat with false
      by (symmetry; apply Nat.eqb_neq; lia).
    rewrite set_first_English_first by assumption.
    unfold is_English in Ht. apply String.eqb_eq in Ht. now rewrite Ht.
  - destruct (videoRef p); [|eexists; split; reflexivity].
    destruct (length tracks =? 0)%nat; [eexists; split; reflexivity|].
    eexists; split; [reflexivity|].
    induction tracks as [|t r IH]; [reflexivity|].
    cbn [set_first_English].
    destruct (String.eqb (label t) "English"); cbn; [reflexivity | now rewrite IH].
Qed.

Lemma subtitleEffect_first_English_only_witness :
  let p := mounted {| paused := true; currentTime := of_Z 0; mediaOps := [] |} false true in
  subtitleEffect p (Some [ {| label := "Deutsch"; mode := showing |};
                           {| label := "English"; mode := disabled |};
                           {| label := "English"; mode := disabled |} ])
  = Some [ {| label := "Deutsch"; mode := showing |};
           {| label := "English"; mode := showing |};
           {| label := "English"; mode := disabled |} ].
Proof.
  intros p.
  exact (proj1 (proj2 (proj2 (subtitleEffect_first_English_only p _)))
           {| paused := true; currentTime := of_Z 0; mediaOps := [] |}
           [ {| label := "Deutsch"; mode := showing |} ]
           [ {| label := "English"; mode := disabled |} ]
           {| label := "English"; mode := disabled |}
           eq_refl eq_refl eq_refl eq_refl).
Defined.

(** X10.  A transcript that contains "play", "pause" or "skip intro"
    never switches the subtitles, whatever it says about them.  One
    that contains none of the three and says "subtitles on" sets the
    subtitle flag and leaves the element and the playing flag as they
    were; with "subtitles off" and no "subtitles on" it clears the
    flag. *)
Theorem subtitles_switch_only_when_nothing_else_matches
        (command : string) (p : Player) (v : Video) :
  videoRef p = Some v ->
  let q := handleCommand command p in
  (includes command "play" || includes command "pause"
   || includes command "skip intro" = true ->
   showSubtitles q = showSubtitles p)
  /\ (includes command "play" || includes command "pause"
      || includes command "skip intro" = false ->
      (includes command "subtitles on" = true ->
       showSubtitles q = true /\ videoRef q = Some v /\ isPlaying q = isPlaying p)
      /\ (includes command "subtitles on" = false ->
          includes command "subtitles off" = true ->
          showSubtitles q = false /\ videoRef q = Some v /\ isPlaying q = isPlaying p)).
Proof.
  intros Hv q. subst q. unfold handleCommand. rewrite Hv.
  destruct (includes command "play") eqn:H1.
  { split; [intros _|discriminate].
    change VOICE_COMMANDS with ([] ++ play :: [pause; skipIntro; subtitlesOn; subtitlesOff]).
    rewrite (Array_some_first_match command [] _ play p) by (repeat constructor; assumption).
    reflexivity. }
  destruct (includes command "pause") eqn:H2.
  { split; [intros _|discriminate].
    change VOICE_COMMANDS with ([play] ++ pause :: [skipIntro; subtitlesOn; subtitlesOff]).
    rewrite (Array_some_first_match command [play] _ pause p) by (repeat constructor; assumption).
    reflexivity. }
  destruct (includes command "skip intro") eqn:H3.
  { split; [intros _|discriminate].
    change VOICE_COMMANDS with ([play; pause] ++ skipIntro :: [subtitlesOn; subtitlesOff]).
    rewrite (Array_some_first_match command [play; pause] _ skipIntro p)
      by (repeat constructor; assumption).
    reflexivity. }
  split; [discriminate|intros _]. split.
  - intros H4.
    change VOICE_COMMANDS with ([play; pause; skipIntro] ++ subtitlesOn :: [subtitlesOff]).
    rewrite (Array_some_first_match command [play; pause; skipIntro] _ subtitlesOn p)
      by (repeat constructor; assumption).
    cbn. auto.
  - intros H4 H5.
    change VOICE_COMMANDS with ([play; pause; skipIntro; subtitlesOn] ++ subtitlesOff :: []).
    rewrite (Array_some_first_match command [play; pause; skipIntro; subtitlesOn] _ subtitlesOff p)
      by (repeat constructor; assumption).
    cbn. auto.
Qed.

Lemma subtitles_switch_only_when_nothing_else_matches_witness :
  let v := {| paused := true; currentTime := of_Z 0; mediaOps := [] |} in
  showSubtitles (handleCommand "display subtitles on" (mounted v false false)) = false
  /\ showSubtitles (handleCommand "turn subtitles on" (mounted v false false)) = true.
Proof.
  intros v. split.
  - exact (proj1 (subtitles_switch_only_when_nothing_else_matches
                    "display subtitles on" (mounted v false false) v eq_refl) eq_refl).
  - exact (proj1 (proj1 (proj2 (subtitles_switch_only_when_nothing_else_matches
                    "turn subtitles on" (mounted v false false) v eq_refl) eq_refl) eq_refl)).
Defined.

End SubtitleFacts.

(** ** Sessions of the audio stream *)

Section StreamMore.

Import SpeechRecognitionService StreamSession.
Open Scope string_scope.
Open Scope list_scope.

Lemma trimStart_lower (s : string) :
  trimStart (toLowerCase s) = toLowerCase (trimStart s).
Proof.
  induction s as [|c r IH]; [reflexivity|].
  cbn [toLowerCase trimStart]. rewrite is_space_lower_char.
  destruct (is_space c); [exact IH | reflexivity].
Qed.

Lemma trimEnd_lower (s : string) :
  trimEnd (toLowerCase s) = toLowerCase (trimEnd s).
Proof.
  induction s as [|c r IH]; [reflexivity|].
  cbn [toLowerCase trimEnd]. rewrite IH, is_space_lower_char.
  destruct (trimEnd r); cbn [toLowerCase]; [destruct (is_space c)|]; reflexivity.
Qed.

Lemma trim_lower (s : string) : trim (toLowerCase s) = toLowerCase (trim s).
Proof. unfold trim. now rewrite trimStart_lower, trimEnd_lower. Qed.

Lemma trimEnd_idem (s : string) : trimEnd (trimEnd s) = trimEnd s.
Proof.
  induction s as [|c r IH]; [reflexivity|].
  cbn [trimEnd]. destruct (trimEnd r) as [|d r'] eqn:Hr.
  - destruct (is_space c) eqn:Hc; [reflexivity|]. cbn. now rewrite Hc.
  - cbn [trimEnd]. cbn [trimEnd] in IH. now rewrite IH.
Qed.

(** What [trimStart] returns begins with no white space. *)
Lemma trimStart_head (s : string) :
  match trimStart s with
  | EmptyString => True
  | String c _ => is_space c = false
  end.
Proof.
  induction s as [|c r IH]; [exact I|].
  cbn [trimStart]. destruct (is_space c) eqn:Hc; [exact IH | exact Hc].
Qed.

Lemma trimStart_trimEnd (s : string) :
  match s with EmptyString => True | String c _ => is_space c = false end ->
  trimStart (trimEnd s) = trimEnd s.
Proof.
  destruct s as [|c r]; [reflexivity|]. intros Hc.
  cbn [trimEnd]. destruct (trimEnd r); [rewrite Hc|]; cbn [trimStart]; now rewrite Hc.
Qed.

Lemma trim_idem (s : string) : trim (trim s) = trim s.
Proof.
  unfold trim. rewrite trimStart_trimEnd by apply trimStart_head.
  apply trimEnd_idem.
Qed.

Lemma nonempty_lower (s : string) : nonempty (toLowerCase s) = nonempty s.
Proof. destruct s; reflexivity. Qed.

Lemma forwarded_form_of_reply (t : string) :
  nonempty (trim t) = true -> forwarded_form (toLowerCase (trim t)).
Proof.
  intros H. unfold forwarded_form.
  rewrite nonempty_lower, trim_lower, trim_idem, toLowerCase_idem. auto.
Qed.

Lemma step_transcriptions (s : Stream) (e : Event) :
  transcriptions (step s e) = transcriptions s
  \/ exists t c, e = RequestEnds (ReplyOk t c)
              /\ nonempty (trim t) = true
              /\ transcriptions (step s e) = transcriptions s ++ [toLowerCase (trim t)].
Proof.
  destruct e as [inputData|reply]; cbn [step].
  - left. destruct (isProcessing s) eqn:Hp.
    + now rewrite onaudioprocess_busy.
    + destruct (onaudioprocess_idle inputData s Hp) as (w & _ & ->).
      destruct (2 <=? _)%nat; reflexivity.
  - destruct (in_flight s) as [|b others]; [now left|].
    destruct reply as [e|[d|]|e|t c|e]; try (left; reflexivity).
    unfold resume, Exn.bind, Exn.when, Exn.modify, transcribeAudio, Exn.ret.
    cbn [text]. destruct (nonempty (trim t)) eqn:Hn.
    + right. exists t, c. auto.
    + left. reflexivity.
Qed.

(** X11.  Whatever the processor delivers and however the requests
    end, every text handed to [onTranscription] is non-empty, carries
    no white space at either end and no capital letter; a reply whose
    text is empty or all white space hands over nothing. *)
Theorem transcriptions_are_trimmed_lowercase (s : Stream) (events : list Event) :
  Forall forwarded_form (transcriptions s) ->
  Forall forwarded_form (transcriptions (run s events))
  /\ (forall (t : string) (c : number) (blob : Blob) (others : list Blob),
        in_flight s = blob :: others ->
        nonempty (trim t) = false ->
        transcriptions (step s (RequestEnds (ReplyOk t c))) = transcriptions s).
Proof.
  intros H. split.
  - revert s H. induction events as [|e l IH]; intros s H; [exact H|].
    cbn [run fold_left]. apply IH.
    destruct (step_transcriptions s e) as [->|(t & c & _ & Hn & ->)]; [exact H|].
    apply Forall_app. split; [exact H|].
    constructor; [|constructor]. now apply forwarded_form_of_reply.
  - intros t c blob others Hf Hn. cbn [step]. rewrite Hf.
    unfold resume, Exn.bind, Exn.when, Exn.modify, transcribeAudio, Exn.ret.
    cbn [text]. now rewrite Hn.
Qed.

Lemma transcriptions_are_trimmed_lowercase_witness :
  transcriptions
    (run initial [AudioProcess [of_Z 0]; AudioProcess [of_Z 1];
                  RequestEnds (ReplyOk "  Play The Movie " (of_Z 1))])
  = ["play the movie"]
  /\ Forall forwarded_form
       (transcriptions
          (run initial [AudioProcess [of_Z 0]; AudioProcess [of_Z 1];
                        RequestEnds (ReplyOk "  Play The Movie " (of_Z 1))])).
Proof.
  split; [reflexivity|].
  apply (transcriptions_are_trimmed_lowercase initial). constructor.
Defined.

Lemma wav_of_length (inputData : list number) :
  length (wav_of inputData) = (44 + 2 * length inputData)%nat.
Proof.
  unfold wav_of. rewrite length_app, wav_data_length, length_map.
  change (length (wav_header 16000 (length inputData))) with 44%nat. lia.
Qed.

Lemma onaudioprocess_submits (inputData : list number) (s : Stream) :
  isProcessing s = false ->
  audioChunks s <> [] ->
  onaudioprocess inputData s
  = {| isProcessing := true;
       audioChunks := audioChunks s ++ [wav_of inputData];
       in_flight := in_flight s ++ [concat (audioChunks s ++ [wav_of inputData])];
       transcriptions := transcriptions s;
       errors_logged := errors_logged s |}.
Proof.
  intros Hp Hc.
  destruct (onaudioprocess_idle inputData s Hp) as (w & Hw & ->).
  assert (w = wav_of inputData) as ->
      by (rewrite convertToWav_at_16kHz in Hw; now injection Hw).
  destruct (audioChunks s) as [|b r]; [now contradiction Hc|].
  rewrite length_app, Nat.add_comm. reflexivity.
Qed.

Lemma failed_request_keeps_chunks (reply : TranscribeReply) (s : Stream) :
  failed reply = true ->
  exists e : string,
    handler_end (resume reply s)
    = {| isProcessing := false; audioChunks := audioChunks s;
         in_flight := in_flight s; transcriptions := transcriptions s;
         errors_logged := errors_logged s ++ [e] |}.
Proof.
  intros Hf. destruct reply as [e|[d|]|e|t c|e]; try discriminate Hf;
    eexists; reflexivity.
Qed.

(** X12.  A failed submission drops no audio.  From an idle stream
    that already holds a chunk, after any number of rounds in which a
    buffer is delivered and the request it starts fails (the fetch is
    rejected, the reply is not OK, or its body cannot be parsed), the
    stream is idle again, holds every chunk it held plus one per
    round, has logged one error per round and has forwarded nothing;
    the next buffer is then sent together with all of them. *)
Theorem failed_submissions_accumulate
        (s : Stream) (rounds : list (list number * TranscribeReply)) :
  isProcessing s = false ->
  in_flight s = [] ->
  audioChunks s <> [] ->
  Forall (fun r => failed (snd r) = true) rounds ->
  let s' := run s (rounds_events rounds) in
  isProcessing s' = false
  /\ in_flight s' = []
  /\ audioChunks s' = audioChunks s ++ map (fun r => wav_of (fst r)) rounds
  /\ transcriptions s' = transcriptions s
  /\ length (errors_logged s') = (length (errors_logged s) + length rounds)%nat
  /\ (forall inputData : list number,
        in_flight (step s' (AudioProcess inputData))
        = [concat (audioChunks s ++ map (fun r => wav_of (fst r)) rounds
                   ++ [wav_of inputData])]).
Proof.
  intros Hp Hf Hc Hall.
  assert (let s' := run s (rounds_events rounds) in
          isProcessing s' = false /\ in_flight s' = []
          /\ audioChunks s' = audioChunks s ++ map (fun r => wav_of (fst r)) rounds
          /\ transcriptions s' = transcriptions s
          /\ length (errors_logged s') = (length (errors_logged s) + length rounds)%nat)
    as Hmain.
  { revert s Hp Hf Hc. induction Hall as [|[buf reply] l Hr _ IH]; intros s Hp Hf Hc.
    - cbn. rewrite app_nil_r, Nat.add_0_r. auto.
    - cbn [rounds_events flat_map app fst snd run fold_left step].
      rewrite (onaudioprocess_submits buf s Hp Hc). rewrite Hf.
      cbn [in_flight app].
      destruct (failed_request_keeps_chunks reply
                  (set_in_flight []
                     {| isProcessing := true;
                        audioChunks := audioChunks s ++ [wav_of buf];
                        in_flight := [concat (audioChunks s ++ [wav_of buf])];
                        transcriptions := transcriptions s;
                        errors_logged := errors_logged s |}) Hr) as (e & ->).
      cbn [set_in_flight isProcessing audioChunks in_flight transcriptions errors_logged].
      match goal with |- context [fold_left step _ ?s1] =>
        specialize (IH s1 eq_refl eq_refl) end.
      cbn [audioChunks] in IH.
      destruct IH as (H1 & H2 & H3 & H4 & H5).
      { intros Hnil. apply app_eq_nil in Hnil as [_ Hnil]. discriminate. }
      fold (rounds_events l). unfold run in *.
      rewrite H1, H2, H3, H4, H5. cbn [transcriptions errors_logged map length fst].
      rewrite <- app_assoc, length_app. cbn [length app].
      repeat split; try reflexivity. lia. }
  cbv zeta in Hmain. destruct Hmain as (H1 & H2 & H3 & H4 & H5).
  intros s'. subst s'. do 5 (split; [assumption|]).
  intros inputData. cbn [step].
  rewrite onaudioprocess_submits; [|exact H1|].
  - cbn [in_flight]. rewrite H2, H3, <- app_assoc. reflexivity.
  - rewrite H3. intros Hnil. apply app_eq_nil in Hnil as [Hnil _]. contradiction.
Qed.

Lemma failed_submissions_accumulate_witness :
  let s := run initial [AudioProcess [of_Z 0]] in
  let s' := run s (rounds_events [([of_Z 1], FetchRejected "TypeError: Failed to fetch");
                                  ([of_Z 0], ReplyNotOk None)]) in
  audioChunks s' = [wav_of [of_Z 0]; wav_of [of_Z 1]; wav_of [of_Z 0]]
  /\ transcriptions s' = [].
Proof.
  intros s s'.
  destruct (failed_submissions_accumulate s
              [([of_Z 1], FetchRejected "TypeError: Failed to fetch");
               ([of_Z 0], ReplyNotOk None)])
    as (_ & _ & Hc & Ht & _).
  - reflexivity.
  - reflexivity.
  - discriminate.
  - repeat constructor.
  - split; [exact Hc | exact Ht].
Defined.

(** X13.  What is sent for transcription is not one WAV file but the
    files of the buffers one after the other.  The first submission of
    a stream carries two buffers: its bytes are the 44-byte header and
    the samples of the first, then the header and the samples of the
    second, [88 + 2 * (n1 + n2)] bytes in all, and the data length in
    its first header counts the samples of the first buffer only.
    After a reply that is OK the chunks are dropped, so the next
    buffer alone starts no request. *)
Theorem submission_is_concatenated_wav_files (b1 b2 : list number) :
  let s := run initial [AudioProcess b1; AudioProcess b2] in
  in_flight s = [wav_of b1 ++ wav_of b2]
  /\ length (wav_of b1 ++ wav_of b2) = (88 + 2 * (length b1 + length b2))%nat
  /\ take 44 (wav_of b1 ++ wav_of b2) = wav_header 16000 (length b1)
  /\ DataView.getUint32 40 (wav_of b1 ++ wav_of b2)
     = (2 * Z.of_nat (length b1)) mod 2 ^ 32
  /\ (forall (t : string) (c : number) (b3 : list number),
        let s2 := run s [RequestEnds (ReplyOk t c); AudioProcess b3] in
        audioChunks s2 = [wav_of b3] /\ in_flight s2 = []
        /\ isProcessing s2 = false).
Proof.
  intros s.
  assert (s = {| isProcessing := true; audioChunks := [wav_of b1; wav_of b2];
                 in_flight := [wav_of b1 ++ wav_of b2];
                 transcriptions := []; errors_logged := [] |}) as Hs.
  { subst s. cbn [run fold_left step].
    destruct (onaudioprocess_idle b1 initial eq_refl) as (w & Hw & ->).
    assert (w = wav_of b1) as ->
        by (rewrite convertToWav_at_16kHz in Hw; now injection Hw).
    cbn [initial audioChunks app length Nat.leb in_flight transcriptions errors_logged].
    rewrite onaudioprocess_submits by (first [reflexivity | discriminate]).
    cbn. now rewrite app_nil_r. }
  split; [now rewrite Hs|].
  split; [rewrite length_app, !wav_of_length; lia|].
  split.
  { unfold wav_of at 1. rewrite <- app_assoc.
    now rewrite take_app_length' by reflexivity. }
  split.
  { unfold wav_of at 1. rewrite <- app_assoc.
    unfold wav_header, header_bytes, DataView.getUint32.
    cbn [app le32 le16 list_lookup_total lookup_total list_lookup Nat.add].
    rewrite <- le32_decode. cbn. lia. }
  intros t c b3 s2. subst s2. rewrite Hs.
  cbn [run fold_left step in_flight].
  unfold resume, Exn.bind, Exn.when, Exn.modify, transcribeAudio, Exn.ret.
  cbn [text]. destruct (nonempty (trim t)); cbn [handler_end fst snd];
    (match goal with |- context [onaudioprocess b3 ?s1] =>
       destruct (onaudioprocess_idle b3 s1 eq_refl) as (w & Hw & ->) end;
     assert (w = wav_of b3) as ->
         by (rewrite convertToWav_at_16kHz in Hw; now injection Hw);
     cbn [audioChunks app length Nat.leb in_flight isProcessing]; auto).
Qed.

End StreamMore.

(** ** Sessions of the carousel *)

Section CarouselMore.

Import MoviesApi ContentCarousel CarouselSession.
Open Scope string_scope.
Open Scope list_scope.

Ltac settle_run :=
  unfold retries_bounded, shows_known_error;
  cbn [retryCount retry_timers error isLoading items];
  try match goal with H : retry_timers _ = 0%nat |- _ => rewrite !H end;
  split;
  [ split; [lia|]; split; [lia|]; split; [|reflexivity];
    intros Hone; first [discriminate Hone | split; [lia | reflexivity]]
  | split; [|reflexivity];
    intros msg Hmsg;
    first [ discriminate Hmsg
          | injection Hmsg as <-;
            split; [first [now left | now right] | reflexivity] ] ].

(** A run of the effect started with no timer pending. *)
Lemma run_effect_settles (query : string) (reply : MoviesReply) (c : Carousel) :
  (retryCount c <= 3)%nat ->
  retry_timers c = 0%nat ->
  retries_bounded (run_effect query reply c)
  /\ shows_known_error (run_effect query reply c)
  /\ retryCount (run_effect query reply c) = retryCount c.
Proof.
  intros Hc Ht.
  assert (movies_of reply = [] \/ exists m l, reply = MoviesArray (m :: l)) as [Hm|(m & l & ->)].
  { destruct reply as [e|st tx|e| |[|m l]]; try (left; reflexivity).
    right. eauto. }
  - rewrite (run_effect_no_movies query reply c Hm).
    destruct (retryCount c <? 3)%nat eqn:Hlt.
    + apply Nat.ltb_lt in Hlt. settle_run.
    + settle_run.
  - rewrite run_effect_movies. cbv zeta.
    destruct (length _ =? 0)%nat; settle_run.
Qed.

Lemma react_settles (query : string) (c : Carousel) (e : CarouselEvent) :
  retries_bounded c -> shows_known_error c ->
  retries_bounded (react query c e) /\ shows_known_error (react query c e).
Proof.
  intros B K. pose proof B as (Hc & Ht & Hp & Hl).
  destruct e as [reply|reply]; cbn [react].
  - unfold timer_fires. destruct (retry_timers c) as [|n] eqn:Hn; [auto|].
    assert (n = 0%nat) as -> by lia.
    destruct (Hp eq_refl) as [Hlt _].
    destruct (run_effect_settles query reply (setRetryCount S (timer_done c)))
      as (B' & K' & _); cbn; [lia | now rewrite Hn | auto].
  - unfold click_retry, render. rewrite Hl.
    destruct (error c) as [msg|] eqn:He.
    + destruct (nonempty msg).
      * destruct (retryCount c <? 3)%nat eqn:Hlt; [|auto].
        apply Nat.ltb_lt in Hlt.
        assert (retry_timers c = 0%nat) as Ht0.
        { destruct (retry_timers c) as [|[|n]] eqn:Hn; [reflexivity| |lia].
          destruct (Hp eq_refl) as [_ Hnone]. discriminate. }
        destruct (run_effect_settles query reply (setRetryCount S c))
          as (B' & K' & _); cbn; [lia | exact Ht0 | auto].
      * destruct (length (items c) =? 0)%nat; auto.
    + destruct (length (items c) =? 0)%nat; auto.
Qed.

Lemma session_settles (query : string) (first : MoviesReply)
      (events : list CarouselEvent) :
  retries_bounded (session query first events)
  /\ shows_known_error (session query first events).
Proof.
  unfold session.
  assert (retries_bounded (run_effect query first initial)
          /\ shows_known_error (run_effect query first initial)) as H0.
  { destruct (run_effect_settles query first initial) as (B & K & _); cbn; auto. }
  revert H0. generalize (run_effect query first initial).
  induction events as [|e l IH]; intros c [B K]; [auto|].
  cbn [fold_left]. apply IH. now apply react_settles.
Qed.

(** X14.  However the requests end and whatever is clicked between
    the runs of the effect, a carousel retries at most three times in
    all, automatic and manual retries counted together: along every
    session the retry count
    stays at or below 3, at most one retry timer is pending, and none
    is pending while an error shows.  Once the count is 3 the carousel
    is final: no timer can fire, no Retry button is shown, and no
    further event changes it. *)
Theorem retries_never_exceed_three (query : string) (first : MoviesReply)
        (events : list CarouselEvent) :
  let c := session query first events in
  (retryCount c <= 3)%nat
  /\ (retry_timers c <= 1)%nat
  /\ (retry_timers c = 1%nat -> (retryCount c < 3)%nat /\ error c = None)
  /\ (retryCount c = 3%nat ->
      forall e : CarouselEvent, react query c e = c).
Proof.
  intros c. destruct (session_settles query first events) as [B _].
  fold c in B. destruct B as (Hc & Ht & Hp & Hl).
  do 3 (split; [assumption|]).
  intros H3 [reply|reply]; cbn [react].
  - unfold timer_fires. destruct (retry_timers c) as [|[|n]] eqn:Hn; [reflexivity| |lia].
    destruct (Hp eq_refl). lia.
  - unfold click_retry, render. rewrite Hl, H3.
    destruct (error c) as [e|]; [destruct (nonempty e)|];
      try reflexivity; destruct (length (items c) =? 0)%nat; reflexivity.
Qed.

(** X15.  An error and its surroundings, in every session.  After a
    run of the effect the carousel is never left loading.  Whenever an
    error is on display the list of items is empty and no retry timer
    is pending, and what is rendered is the error box with that error,
    the Retry button being offered exactly while the retry count is
    below 3.  When no error is set and items are held, the cards of
    exactly these items are rendered. *)
Theorem carousel_error_comes_without_items (query : string) (first : MoviesReply)
        (events : list CarouselEvent) :
  let c := session query first events in
  isLoading c = false
  /\ (forall e : string, error c = Some e ->
        items c = []
        /\ retry_timers c = 0%nat
        /\ render c = ErrorBox e (retryCount c <? 3)%nat)
  /\ (error c = None -> items c <> [] -> render c = Cards (items c)).
Proof.
  intros c. destruct (session_settles query first events) as [B K].
  fold c in B, K. destruct B as (_ & Ht & Hp & Hl).
  split; [exact Hl|]. split.
  - intros e He. destruct (K e He) as [Hmsg Hi].
    split; [exact Hi|]. split.
    + destruct (retry_timers c) as [|[|n]] eqn:Hn; [reflexivity| |lia].
      destruct (Hp eq_refl) as [_ Hnone]. congruence.
    + unfold render. rewrite Hl, He. now destruct Hmsg as [-> | ->].
  - intros He Hi. unfold render. rewrite Hl, He.
    destruct (items c); [contradiction|reflexivity].
Qed.

Lemma run_effect_quiet (query : string) (reply : MoviesReply) (c : Carousel) :
  items c = [] -> retry_timers c = 0%nat ->
  cards_are_quiet (run_effect query reply c).
Proof.
  intros Hi Ht. unfold cards_are_quiet.
  assert (movies_of reply = [] \/ exists m l, reply = MoviesArray (m :: l)) as [Hm|(m & l & ->)].
  { destruct reply as [e|st tx|e| |[|m l]]; try (left; reflexivity).
    right. eauto. }
  - rewrite (run_effect_no_movies query reply c Hm).
    destruct (retryCount c <? 3)%nat; cbn [items retry_timers error]; [rewrite Hi|];
      intros Hne; now contradiction Hne.
  - rewrite run_effect_movies. cbv zeta.
    destruct (length _ =? 0)%nat; cbn [items retry_timers error].
    + intros Hne; now contradiction Hne.
    + intros _. split; [exact Ht | reflexivity].
Qed.

Lemma react_quiet (query : string) (c : Carousel) (e : CarouselEvent) :
  retries_bounded c -> shows_known_error c -> cards_are_quiet c ->
  cards_are_quiet (react query c e).
Proof.
  intros (Hc & Ht & Hp & Hl) K Q.
  destruct e as [reply|reply]; cbn [react].
  - unfold timer_fires. destruct (retry_timers c) as [|n] eqn:Hn; [exact Q|].
    assert (n = 0%nat) as -> by lia.
    apply run_effect_quiet; cbn [items retry_timers setRetryCount timer_done];
      [|now rewrite Hn].
    destruct (items c) as [|x r] eqn:Hi; [reflexivity|].
    assert (items c <> []) as Hne by (rewrite Hi; discriminate).
    destruct (Q Hne) as [Q0 _]. rewrite Hn in Q0. discriminate Q0.
  - unfold click_retry, render. rewrite Hl.
    destruct (error c) as [msg|] eqn:He.
    + destruct (nonempty msg); [|destruct (length (items c) =? 0)%nat; exact Q].
      destruct (retryCount c <? 3)%nat; [|exact Q].
      apply run_effect_quiet; cbn [items retry_timers setRetryCount].
      * exact (proj2 (K msg He)).
      * destruct (retry_timers c) as [|[|n]] eqn:Hn; [reflexivity| |lia].
        destruct (Hp eq_refl) as [_ Hnone]. discriminate.
    + destruct (length (items c) =? 0)%nat; exact Q.
Qed.

Lemma session_quiet (query : string) (first : MoviesReply)
      (events : list CarouselEvent) :
  retries_bounded (session query first events)
  /\ cards_are_quiet (session query first events).
Proof.
  unfold session.
  assert (retries_bounded (run_effect query first initial)
          /\ shows_known_error (run_effect query first initial)
          /\ cards_are_quiet (run_effect query first initial)) as H0.
  { destruct (run_effect_settles query first initial) as (B & K & _); cbn; auto.
    split; [exact B|]. split; [exact K|]. now apply run_effect_quiet. }
  revert H0. generalize (run_effect query first initial).
  induction events as [|e l IH]; intros c (B & K & Q); [auto|].
  cbn [fold_left]. apply IH.
  destruct (react_settles query c e B K) as [B' K'].
  split; [exact B'|]. split; [exact K'|]. now apply react_quiet.
Qed.

(** X25.  A carousel that holds items is final.  In every session,
    once a run of the effect has left items, no error is set, no retry
    timer is pending, the cards of these items are rendered, and no
    timer or click changes the carousel again: it is never reloaded. *)
Theorem loaded_carousel_is_final (query : string) (first : MoviesReply)
        (events : list CarouselEvent) :
  let c := session query first events in
  items c <> [] ->
  error c = None
  /\ retry_timers c = 0%nat
  /\ render c = Cards (items c)
  /\ (forall e : CarouselEvent, react query c e = c).
Proof.
  intros c Hi. destruct (session_quiet query first events) as [B Q].
  fold c in B, Q. destruct B as (_ & _ & _ & Hl). destruct (Q Hi) as [Ht He].
  split; [exact He|]. split; [exact Ht|].
  assert (render c = Cards (items c)) as Hr.
  { unfold render. rewrite Hl, He. destruct (items c); [contradiction|reflexivity]. }
  split; [exact Hr|].
  intros [reply|reply]; cbn [react].
  - unfold timer_fires. now rewrite Ht.
  - unfold click_retry. now rewrite Hr.
Qed.

Lemma loaded_carousel_is_final_witness :
  let c := session "" (MoviesArray [movie_of_year 2020]) [] in
  react "" c (RetryClicked MoviesNotArray) = c
  /\ react "" c (TimerFires (MoviesArray [])) = c.
Proof.
  intros c.
  destruct (loaded_carousel_is_final "" (MoviesArray [movie_of_year 2020]) [])
    as (_ & _ & _ & H).
  - discriminate.
  - split; apply H.
Defined.

Lemma includes_empty (s : string) : includes s "" = true.
Proof. destruct s; reflexivity. Qed.

Lemma split_blanks (n : nat) :
  Forall (fun term => term = "") (split_char " " (blanks n)).
Proof.
  induction n as [|k IH]; cbn [blanks split_char].
  - repeat constructor.
  - change (Ascii.eqb " " " ") with true. cbn iota. constructor; [reflexivity | exact IH].
Qed.

Lemma toLowerCase_blanks (n : nat) : toLowerCase (blanks n) = blanks n.
Proof. induction n as [|k IH]; cbn; [reflexivity | now rewrite IH]. Qed.

Lemma filter_all {A} (P : A -> Prop) `{forall x, Decision (P x)} (l : list A) :
  Forall P l -> filter P l = l.
Proof.
  induction 1 as [|x r Hx _ IH]; [reflexivity|].
  rewrite filter_cons_True by exact Hx. now rewrite IH.
Qed.

(** X16.  Filtering never invents content: for every query, what the
    carousel keeps is made of items of the list it was given, each at
    most as often as it occurs there (the categories reorder the list,
    the text search does not), so it is never longer.  A query that
    is empty or made of spaces only keeps the whole list, in its
    order. *)
Theorem filterContent_keeps_given_items (query : string) (allContent : list Content) :
  filterContent query allContent ⊆+ allContent
  /\ (length (filterContent query allContent) <= length allContent)%nat
  /\ (forall n : nat, filterContent (blanks n) allContent = allContent).
Proof.
  assert (filterContent query allContent ⊆+ allContent) as Hsub.
  { unfold filterContent, slice0.
    destruct (nonempty query); [|reflexivity].
    repeat match goal with |- context [if String.eqb query ?k then _ else _] =>
      destruct (String.eqb query k) end;
      try reflexivity;
      try (etransitivity; [apply sublist_submseteq, sublist_take
                          | apply Permutation_submseteq, Array_sort_perm]).
    apply sublist_submseteq, sublist_filter. }
  split; [exact Hsub|]. split; [now apply submseteq_length|].
  intros [|k]; [reflexivity|].
  unfold filterContent. cbn [blanks nonempty].
  change (String.eqb (String " " (blanks k)) "trending") with false.
  change (String.eqb (String " " (blanks k)) "popular shows") with false.
  change (String.eqb (String " " (blanks k)) "new releases") with false.
  change (String.eqb (String " " (blanks k)) "action movies") with false.
  cbn iota. apply filter_all.
  change (String " " (blanks k)) with (blanks (S k)).
  rewrite toLowerCase_blanks.
  apply Forall_forall. intros content _.
  pose proof (split_blanks (S k)) as Hb.
  induction Hb as [|term terms -> _ IH]; [reflexivity|].
  cbn [forallb]. now rewrite includes_empty, IH.
Qed.

End CarouselMore.

(** ** The watch page and the movies route *)

Section WatchFacts.

Import MoviesApi WatchPage.
Open Scope string_scope.
Open Scope list_scope.

Lemma find_first {A} (f : A -> bool) (l : list A) (x : A) :
  In x l -> f x = true ->
  exists (y : A) (pre post : list A),
    find f l = Some y /\ f y = true /\ l = pre ++ y :: post
    /\ Forall (fun z => f z = false) pre.
Proof.
  induction l as [|a r IH]; [intros []|].
  intros Hin Hx. cbn [find]. destruct (f a) eqn:Ha.
  - exists a, [], r. repeat split; auto.
  - destruct Hin as [->|Hin]; [congruence|].
    destruct (IH Hin Hx) as (y & pre & post & Hf & Hy & -> & Hpre).
    exists y, (a :: pre), post. repeat split; auto.
Qed.

(** X17.  The watch page finds a movie by the id its card carries.
    Asked for the id that [mapMovieToContent] derives from a movie of
    the list, [getMovieById] renders the first movie of the list whose
    title gives that id: the movie itself when the derived ids of the
    list are all different, an earlier one when two titles collide.
    Asked for an id that no title of the list gives, it ends in the
    404 page; it never renders a movie that is not in the list. *)
Theorem getMovieById_finds_first_with_id (movies : list Movie) :
  (forall m : Movie, In m movies ->
     exists (first : Movie) (pre post : list Movie),
       getMovieById (id (mapMovieToContent m)) (MoviesArray movies) = Renders first
       /\ movies = pre ++ first :: post
       /\ id (mapMovieToContent first) = id (mapMovieToContent m)
       /\ Forall (fun x => id (mapMovieToContent x) <> id (mapMovieToContent m)) pre
       /\ (NoDup (map (fun x => id (mapMovieToContent x)) movies) -> first = m))
  /\ (forall wanted : string,
        ~ In wanted (map (fun x => id (mapMovieToContent x)) movies) ->
        getMovieById wanted (MoviesArray movies) = NotFound)
  /\ (forall (wanted : string) (m : Movie),
        getMovieById wanted (MoviesArray movies) = Renders m ->
        In m movies /\ id (mapMovieToContent m) = wanted).
Proof.
  split; [|split].
  - intros m Hin.
    destruct (find_first (fun x => String.eqb (generated_id x) (id (mapMovieToContent m)))
                movies m Hin) as (y & pre & post & Hf & Hy & Hl & Hpre).
    { apply String.eqb_refl. }
    apply String.eqb_eq in Hy.
    exists y, pre, post. unfold getMovieById. rewrite Hf.
    split; [reflexivity|]. split; [exact Hl|]. split; [exact Hy|]. split.
    + eapply Forall_impl; [exact Hpre|]. intros x Hx. cbn beta in Hx.
      now apply String.eqb_neq in Hx.
    + intros Hnd. subst movies.
      rewrite map_app in Hnd. cbn [map] in Hnd.
      apply in_app_or in Hin as [Hin|[->|Hin]]; [| reflexivity |].
      * exfalso. rewrite Forall_forall in Hpre.
        apply list_elem_of_In in Hin.
        specialize (Hpre m Hin). cbn beta in Hpre.
        unfold generated_id in Hpre. cbn [id mapMovieToContent] in Hpre.
        now rewrite String.eqb_refl in Hpre.
      * exfalso. apply NoDup_app in Hnd as (_ & _ & Hnd).
        apply NoDup_cons in Hnd as [Hnotin _]. apply Hnotin.
        change (id (mapMovieToContent y)) with (generated_id y). rewrite Hy.
        apply list_elem_of_In.
        apply (in_map (fun x => id (mapMovieToContent x)) _ _ Hin).
  - intros wanted Hnot. unfold getMovieById.
    destruct (find _ movies) as [m|] eqn:Hf; [|reflexivity].
    exfalso. apply find_some in Hf as [Hin Hm]. apply String.eqb_eq in Hm.
    apply Hnot. rewrite <- Hm. apply (in_map (fun x => id (mapMovieToContent x)) _ _ Hin).
  - intros wanted m. unfold getMovieById.
    destruct (find _ movies) as [y|] eqn:Hf; [|discriminate].
    intros [= <-]. apply find_some in Hf as [Hin Hm]. apply String.eqb_eq in Hm.
    split; [exact Hin | exact Hm].
Qed.

Lemma replace_space_runs_from_id (b : bool) (rep s : string) :
  no_space s = true -> replace_space_runs_from b rep s = s.
Proof.
  revert b. induction s as [|c r IH]; intros b; [reflexivity|].
  cbn [no_space replace_space_runs_from].
  destruct (is_space c); [discriminate|]. cbn [negb andb].
  intros H. now rewrite IH.
Qed.

(** X24.  A derived id is a fixed point of the derivation: deriving
    an id from a title that is itself the id of some movie gives that
    id back.  So a movie whose title is the id of another movie, such
    as "foo-bar" beside "Foo  Bar", always collides with it, and
    [getMovieById] then renders whichever of the two comes first. *)
Theorem derived_id_is_fixed_point (m m' : Movie) :
  title m' = id (mapMovieToContent m) ->
  id (mapMovieToContent m') = id (mapMovieToContent m)
  /\ (forall movies : list Movie, In m movies -> In m' movies ->
        exists first : Movie,
          getMovieById (id (mapMovieToContent m)) (MoviesArray movies) = Renders first
          /\ getMovieById (id (mapMovieToContent m')) (MoviesArray movies) = Renders first).
Proof.
  intros Ht.
  assert (id (mapMovieToContent m') = id (mapMovieToContent m)) as Hid.
  { cbn [id mapMovieToContent] in *. rewrite Ht. unfold replace_space_runs.
    rewrite replace_space_runs_from_lower by reflexivity.
    apply replace_space_runs_from_id.
    apply replace_space_runs_from_no_space. reflexivity. }
  split; [exact Hid|].
  intros movies Hin _.
  destruct (find_first (fun x => String.eqb (generated_id x) (id (mapMovieToContent m)))
              movies m Hin (String.eqb_refl _)) as (y & _ & _ & Hf & _).
  exists y. rewrite Hid. unfold getMovieById. rewrite Hf. split; reflexivity.
Qed.

Lemma derived_id_is_fixed_point_witness :
  let a := {| title := "Foo  Bar"; videoURL := "/a.mp4"; year := of_Z 2020;
              rating := of_Z 7; duration := "2h"; cast := []; thumbnail := "/a.jpg";
              subtitleUrl := None; description := "first" |} in
  let b := {| title := "foo-bar"; videoURL := "/b.mp4"; year := of_Z 2021;
              rating := of_Z 8; duration := "1h"; cast := []; thumbnail := "/b.jpg";
              subtitleUrl := None; description := "second" |} in
  id (mapMovieToContent b) = id (mapMovieToContent a).
Proof.
  intros a b. exact (proj1 (derived_id_is_fixed_point a b eq_refl)).
Defined.

Lemma getMovieById_finds_first_with_id_witness :
  let a := {| title := "Foo Bar"; videoURL := "/a.mp4"; year := of_Z 2020;
              rating := of_Z 7; duration := "2h"; cast := []; thumbnail := "/a.jpg";
              subtitleUrl := None; description := "first" |} in
  let b := {| title := "foo   bar"; videoURL := "/b.mp4"; year := of_Z 2021;
              rating := of_Z 8; duration := "1h"; cast := []; thumbnail := "/b.jpg";
              subtitleUrl := None; description := "second" |} in
  (exists first : Movie,
     getMovieById (id (mapMovieToContent b)) (MoviesArray [a; b]) = Renders first
     /\ id (mapMovieToContent first) = id (mapMovieToContent b))
  /\ getMovieById "foo" (MoviesArray [a; b]) = NotFound.
Proof.
  intros a b. split.
  - destruct (proj1 (getMovieById_finds_first_with_id [a; b]) b)
      as (y & pre & post & Hr & _ & Hid & _).
    + right; left; reflexivity.
    + exists y. split; [exact Hr | exact Hid].
  - apply (proj1 (proj2 (getMovieById_finds_first_with_id [a; b]))).
    vm_compute. intros [H|[H|[]]]; discriminate H.
Defined.

End WatchFacts.

Section RouteFacts.

Import MoviesRoute.
Open Scope string_scope.
Open Scope list_scope.

(** X18.  The route falls back to the local file exactly when the
    remote request itself fails.  With a bucket configured: a remote
    answer with an ok status whose body parses is served as it is and
    the local file is not read; a rejected request or a status that is
    not ok is warned about once and the answer comes from the local
    file; but a remote answer with an ok status whose body does not
    parse is neither caught nor made up for: the answer is the 500
    error and the local file is not read.  Without a bucket the local
    file is read at once.  The request is never looked at. *)
Theorem GET_falls_back_only_when_request_fails
        (J : Type) (request : string) (srv : Server J) :
  let answer := fst (GET request srv) in
  let log := snd (GET request srv) in
  (forall url : string, MOVIES_API_URL srv = Some url -> nonempty url = true ->
     (forall j : J, remote srv = RemoteOk (Exn.Ok j) ->
        answer = {| status := 200; body := Document j |}
        /\ log = [FetchedRemote])
     /\ (forall e : string, remote srv = RemoteOk (Exn.Throw e) ->
          answer = {| status := 500; body := ErrorObject "Failed to process request" |}
          /\ existsb read_local_file log = false)
     /\ ((exists e, remote srv = RemoteRejected e) \/ (exists st, remote srv = RemoteNotOk st) ->
          existsb read_local_file log = true
          /\ length (filter (fun d => warned d = true) log) = 1%nat
          /\ forall j : J, localFile srv = FileContent (Exn.Ok j) ->
                answer = {| status := 200; body := Document j |}))
  /\ (MOVIES_API_URL srv = None \/ MOVIES_API_URL srv = Some "" ->
      existsb read_local_file log = true
      /\ forall j : J, localFile srv = FileContent (Exn.Ok j) ->
            answer = {| status := 200; body := Document j |} /\ log = [ReadLocalFile])
  /\ (forall other : string, GET other srv = GET request srv).
Proof.
  destruct srv as [url rem loc]. cbn [MOVIES_API_URL remote localFile].
  split; [|split; [|reflexivity]].
  - intros u -> Hu. unfold GET, fetchMoviesData. cbn [MOVIES_API_URL remote localFile].
    rewrite Hu.
    split; [|split].
    + intros j ->. split; reflexivity.
    + intros e ->. split; reflexivity.
    + intros [[e ->]|[st ->]]; destruct loc as [e'|[j'|e']];
        (split; [reflexivity|]; split; [reflexivity|]);
        intros j Hj; try discriminate Hj; injection Hj as <-; reflexivity.
  - intros [->| ->]; unfold GET, fetchMoviesData; cbn [MOVIES_API_URL remote localFile nonempty];
      destruct loc as [e'|[j'|e']];
      (split; [reflexivity|]);
      intros j Hj; try discriminate Hj; injection Hj as <-; split; reflexivity.
Qed.

Lemma GET_falls_back_only_when_request_fails_witness :
  let srv := {| MOVIES_API_URL := Some "https://bucket.example";
                remote := RemoteOk (Exn.Throw "SyntaxError");
                localFile := FileContent (Exn.Ok 7%nat) |} in
  status (fst (GET "/api/movies" srv)) = 500%nat.
Proof.
  intros srv.
  destruct (GET_falls_back_only_when_request_fails nat "/api/movies" srv) as [H _].
  destruct (H "https://bucket.example" eq_refl eq_refl) as (_ & Hbad & _).
  destruct (Hbad "SyntaxError" eq_refl) as [-> _]. reflexivity.
Defined.

(** X19.  [fetchMovieByVideoUrl] against this route does not narrow
    anything: whatever video URL is asked for, it resolves to the
    whole document the route serves, not to one movie, and to [null]
    (after one line on the console) only when the route answers 500;
    the 404 branch is never taken. *)
Theorem fetchMovieByVideoUrl_gets_whole_document
        (J : Type) (encodeURIComponent : string -> string)
        (status_line : Response J -> string)
        (srv : Server J) (videoURL : string) (console : list string) :
  fetchMovieByVideoUrl encodeURIComponent status_line (served_by srv) videoURL console
  = match fetchMoviesData srv [] with
    | (Exn.Ok document, _) => (Exn.Ok (Some (Document document)), console)
    | (Exn.Throw _, _) => (Exn.Ok None, console ++ ["Failed to fetch movie:"])
    end.
Proof.
  unfold fetchMovieByVideoUrl, served_by, GET.
  destruct (fetchMoviesData srv []) as [[document|e] log]; reflexivity.
Qed.

End RouteFacts.

(** ** Browser support and the mode of the adapter *)

Section BrowserMore.

Import BrowserSupport BrowserMessages.
Open Scope string_scope.
Open Scope list_scope.

(** X20.  The mode the adapter picks for itself against the mode
    [detectBrowserSupport] recommends for the same browser.  They
    agree on native, and a recommendation of server is followed.  But
    the adapter does not ask for a secure context: it is in server
    mode exactly when there is no native constructor and media
    recording is there, also on a page where the recommendation is
    polyfill with the "limited support" message; and it is in annyang
    mode exactly when there is neither. *)
Theorem adapter_mode_against_recommendation
        (S : Type) (opts : SpeechRecognitionPolyfill.Options S) (pg : Page)
        (c : S) (log : list Effect) :
  let mode := SpeechRecognitionPolyfill.fallbackMode
                (SpeechRecognitionPolyfill.this
                   (SpeechRecognitionPolyfill.construct opts pg c log)) in
  let r := detectBrowserSupport (browser pg) in
  (mode = SpeechRecognitionPolyfill.native <-> recommendedMode r = native)
  /\ (recommendedMode r = server -> mode = SpeechRecognitionPolyfill.server)
  /\ (mode = SpeechRecognitionPolyfill.server
      <-> hasNativeSpeechRecognition r = false /\ hasMediaRecorder r = true)
  /\ (mode = SpeechRecognitionPolyfill.annyang
      <-> hasNativeSpeechRecognition r = false /\ hasMediaRecorder r = false)
  /\ (mode = SpeechRecognitionPolyfill.server -> canUsePolyfill r = false ->
      recommendedMode r = polyfill
      /\ supportMessage r = degraded_message (browserName r)).
Proof.
  intros mode r. subst mode r.
  unfold SpeechRecognitionPolyfill.construct, Exn.exec,
    SpeechRecognitionPolyfill.detectBestMode,
    SpeechRecognitionPolyfill.hasNativeSupport,
    SpeechRecognitionPolyfill.hasMediaRecorderSupport, detectBrowserSupport,
    degraded_message.
  cbn [SpeechRecognitionPolyfill.page Exn.bind Exn.get].
  unfold Exn.bind, Exn.get. cbn [SpeechRecognitionPolyfill.page].
  destruct (window_SpeechRecognition (browser pg)
            || window_webkitSpeechRecognition (browser pg));
    destruct (navigator_mediaDevices (browser pg)
              && mediaDevices_getUserMedia (browser pg)
              && MediaRecorder_in_window (browser pg));
    destruct (String.eqb (location_protocol (browser pg)) "https:"
              || String.eqb (location_hostname (browser pg)) "localhost"
              || String.eqb (location_hostname (browser pg)) "127.0.0.1");
    cbn; repeat split; intros; try discriminate; try reflexivity;
    try match goal with H : _ /\ _ |- _ => destruct H; discriminate end.
Qed.

Lemma adapter_mode_against_recommendation_witness :
  let pg := {| browser := browser_with false true false;
               window_annyang := false; annyang_script_tag := false;
               script_request := ScriptError; recognition_start_fails := None;
     backend_stop_fails := None |} in
  recommendedMode (detectBrowserSupport (browser pg)) = polyfill
  /\ SpeechRecognitionPolyfill.fallbackMode
       (SpeechRecognitionPolyfill.this
          (SpeechRecognitionPolyfill.construct VoiceSession.plain_options pg tt []))
     = SpeechRecognitionPolyfill.server.
Proof.
  intros pg.
  destruct (adapter_mode_against_recommendation unit VoiceSession.plain_options pg tt [])
    as (_ & _ & Hserver & _ & Hdegraded).
  assert (SpeechRecognitionPolyfill.fallbackMode
            (SpeechRecognitionPolyfill.this
               (SpeechRecognitionPolyfill.construct VoiceSession.plain_options pg tt []))
          = SpeechRecognitionPolyfill.server) as Hmode
      by (apply Hserver; split; reflexivity).
  split; [|exact Hmode].
  exact (proj1 (Hdegraded Hmode eq_refl)).
Defined.

(** X21.  [canUseSpeechRecognition] is false exactly when the browser
    has no native constructor, no media recording and no secure
    context, and then the recommendation is the degraded polyfill.  It
    is true as soon as media recording is there, also on a page that
    is not secure, where the recommendation is the same degraded
    polyfill: a true answer does not mean a working mode. *)
Theorem canUseSpeechRecognition_means_some_flag (w : Browser) :
  let r := detectBrowserSupport w in
  (canUseSpeechRecognition w = false <->
     hasNativeSpeechRecognition r = false /\ hasMediaRecorder r = false
     /\ canUsePolyfill r = false)
  /\ (canUseSpeechRecognition w = false ->
      recommendedMode r = polyfill
      /\ supportMessage r = degraded_message (browserName r))
  /\ (hasNativeSpeechRecognition r = false -> hasMediaRecorder r = true ->
      canUsePolyfill r = false ->
      canUseSpeechRecognition w = true
      /\ recommendedMode r = polyfill
      /\ supportMessage r = degraded_message (browserName r)).
Proof.
  intros r. subst r.
  unfold canUseSpeechRecognition, detectBrowserSupport, degraded_message.
  destruct (window_SpeechRecognition w || window_webkitSpeechRecognition w);
    destruct (navigator_mediaDevices w && mediaDevices_getUserMedia w
              && MediaRecorder_in_window w);
    destruct (String.eqb (location_protocol w) "https:"
              || String.eqb (location_hostname w) "localhost"
              || String.eqb (location_hostname w) "127.0.0.1");
    cbn; repeat split; intros; try discriminate; try reflexivity;
    try match goal with H : _ /\ _ /\ _ |- _ => destruct H as (? & ? & ?); discriminate end.
Qed.

Lemma canUseSpeechRecognition_means_some_flag_witness :
  canUseSpeechRecognition (browser_with false true false) = true
  /\ recommendedMode (detectBrowserSupport (browser_with false true false)) = polyfill
  /\ canUseSpeechRecognition (browser_with false false false) = false.
Proof.
  destruct (canUseSpeechRecognition_means_some_flag (browser_with false true false))
    as (_ & _ & H).
  destruct (H eq_refl eq_refl eq_refl) as (H1 & H2 & _).
  split; [exact H1|]. split; [exact H2|].
  apply (proj1 (canUseSpeechRecognition_means_some_flag (browser_with false false false))).
  repeat split; reflexivity.
Defined.

Lemma detectBrowserName_cases (ua : string) :
  detectBrowserName ua = "Chrome" /\ includes ua "chrome" = true /\ includes ua "edg" = false
  \/ detectBrowserName ua = "Firefox" /\ includes ua "firefox" = true
  \/ detectBrowserName ua = "Safari" /\ includes ua "safari" = true
     /\ includes ua "chrome" = false
  \/ detectBrowserName ua = "Edge" /\ includes ua "edg" = true
  \/ detectBrowserName ua = "Opera" /\ includes ua "chrome" = false
     /\ includes ua "safari" = false
     /\ (includes ua "opera" = true \/ includes ua "opr" = true)
  \/ detectBrowserName ua = "Unknown" /\ includes ua "chrome" = false
     /\ includes ua "firefox" = false /\ includes ua "safari" = false.
Proof.
  unfold detectBrowserName.
  destruct (includes ua "chrome") eqn:Hc, (includes ua "edg") eqn:He,
    (includes ua "firefox") eqn:Hf, (includes ua "safari") eqn:Hs,
    (includes ua "opera") eqn:Ho, (includes ua "opr") eqn:Hp; cbn;
    tauto.
Qed.

Lemma browserName_detected (w : Browser) :
  browserName (detectBrowserSupport w) = detectBrowserName (toLowerCase (userAgent w)).
Proof.
  unfold detectBrowserSupport.
  destruct (window_SpeechRecognition w || window_webkitSpeechRecognition w);
    [reflexivity|].
  destruct (navigator_mediaDevices w && mediaDevices_getUserMedia w
            && MediaRecorder_in_window w);
    destruct (String.eqb (location_protocol w) "https:"
              || String.eqb (location_hostname w) "localhost"
              || String.eqb (location_hostname w) "127.0.0.1"); reflexivity.
Qed.

(** X22.  The name given to a browser and the message that goes with
    it.  The name is always one of Chrome, Firefox, Safari, Edge,
    Opera, Unknown, so the message is the entry of the table for that
    name and the fallback to the Unknown entry never applies.  A user
    agent that contains "chrome" is named Chrome, Firefox or Edge and
    never Opera or Safari, whatever else it says; one that contains
    "edg" is never named Chrome. *)
Theorem browser_name_and_message (w : Browser) :
  let ua := toLowerCase (userAgent w) in
  let name := browserName (detectBrowserSupport w) in
  In name browser_names
  /\ messages name = Some (getBrowserCompatibilityMessage w)
  /\ (includes ua "chrome" = true ->
      name = "Chrome" \/ name = "Firefox" \/ name = "Edge")
  /\ (includes ua "edg" = true -> name <> "Chrome")
  /\ (name = "Opera" -> includes ua "chrome" = false /\ includes ua "safari" = false).
Proof.
  intros ua name.
  assert (name = detectBrowserName ua) as Hname by apply browserName_detected.
  unfold getBrowserCompatibilityMessage. fold name.
  clearbody name. subst name.
  destruct (detectBrowserName_cases ua)
    as [(-> & Hc & He)|[(-> & Hf)|[(-> & Hs & Hc)|[(-> & He)|[(-> & Hc & Hs & Ho)|(-> & Hc & Hf & Hs)]]]]];
    (split; [cbn; tauto|]); (split; [reflexivity|]);
    repeat split; intros; try congruence; try discriminate; auto.
Qed.

Lemma browser_name_and_message_witness :
  let w := {| userAgent := "Mozilla/5.0 (X11; Linux x86_64) AppleWebKit/537.36 Chrome/120.0 Safari/537.36 OPR/106.0";
              window_SpeechRecognition := false;
              window_webkitSpeechRecognition := true;
              navigator_mediaDevices := true; mediaDevices_getUserMedia := true;
              MediaRecorder_in_window := true;
              location_protocol := "https:"; location_hostname := "example.org" |} in
  browserName (detectBrowserSupport w) <> "Opera".
Proof.
  intros w.
  destruct (browser_name_and_message w) as (_ & _ & Hchrome & _).
  destruct (Hchrome eq_refl) as [H|[H|H]]; rewrite H; discriminate.
Defined.

End BrowserMore.

(** ** Scrolling the carousel *)

Section ScrollFacts.

Import JsMath CarouselSession.
Open Scope list_scope.

Lemma SFltb_SFleb (x y : number) : SFltb x y = true -> SFleb x y = true.
Proof.
  unfold SFltb, SFleb. destruct (SFcompare x y) as [[]|]; congruence.
Qed.

Lemma SFleb_refl (x : number) : is_nan x = false -> SFleb x x = true.
Proof.
  unfold SFleb. destruct x as [s|s| |s m e]; cbn; try reflexivity; try discriminate.
  - now destruct s.
  - intros _. rewrite Z.compare_refl, Pos.compare_cont_refl. now destruct s.
Qed.

(** X23.  The scroll buttons never aim outside the strip.  Without a
    container nothing happens.  With one, the position asked of
    [scrollTo] is the position kept in the state; going left it is at
    least 0, going right it is at most [scrollWidth - clientWidth]; the
    only other outcome is NaN, when the arithmetic on the sizes and
    the position gives no number. *)
Theorem scroll_stays_within_strip (direction : Direction) (s : Scroller) :
  scroll direction None s = s
  /\ (forall c : Container,
        scrolledTo (scroll direction (Some c) s)
        = scrolledTo s ++ [scrollPosition (scroll direction (Some c) s)])
  /\ (forall c : Container,
        let p := scrollPosition (scroll to_left (Some c) s) in
        is_nan p = true \/ le (of_Z 0) p = true)
  /\ (forall c : Container,
        let p := scrollPosition (scroll to_right (Some c) s) in
        is_nan p = true \/ le p (sub (scrollWidth c) (clientWidth c)) = true).
Proof.
  split; [reflexivity|]. split; [intros c; destruct direction; reflexivity|].
  split.
  - intros c p. subst p. cbn [scroll scrollPosition]. unfold Math_max2.
    change (is_nan (of_Z 0)) with false. cbn [orb].
    destruct (is_nan (sub (scrollPosition s) _)) eqn:Hn; [now left|].
    change (is_zero true (of_Z 0)) with false. rewrite andb_false_r.
    unfold gt, le. destruct (SFltb (of_Z 0) _) eqn:Hlt.
    + right. now apply SFltb_SFleb.
    + right. reflexivity.
  - intros c p. subst p. cbn [scroll scrollPosition]. unfold Math_min2.
    destruct (is_nan (sub (scrollWidth c) (clientWidth c))) eqn:Ha; [now left|].
    cbn [orb].
    destruct (is_nan (add (scrollPosition s) _)) eqn:Hb; [now left|].
    destruct (is_zero true _ && is_zero false _) eqn:Hz.
    + right. apply andb_prop in Hz as [Hz1 Hz2].
      destruct (add (scrollPosition s) _) as [[]| | |]; try discriminate Hz1.
      destruct (sub (scrollWidth c) (clientWidth c)) as [[]| | |]; try discriminate Hz2.
      reflexivity.
    + unfold lt, le. destruct (SFltb _ _) eqn:Hlt.
      * right. now apply SFltb_SFleb.
      * right. now apply SFleb_refl.
Qed.

End ScrollFacts.
